(** * go-treemux: the segmented wildcard trie

    A shallow embedding of the trie behind the request multiplexer
    ([wildcardTrie], [Add], [grow], [newTrie], [Get], [get], [equals]),
    of the two methods of the multiplexer that use it ([Handle] and
    [Handler]) and of the two functions of Go's [strings] package it
    relies on ([strings.Split] and [strings.Join]).

    Go strings are byte sequences; they are modelled by [string], whose
    characters are the 8-bit [ascii].  A value of type [interface{}] is
    modelled by [option V]: [None] is Go's [nil]. *)

From Stdlib Require Import String Ascii List NArith ZArith Bool Arith Lia.
Import ListNotations.

Local Open Scope string_scope.
Local Open Scope list_scope.

(** ** Go's [strings] package *)

Module GoStrings.

(** [utf8.DecodeRuneInString] is only used for the width it reports.
    [first_byte] is the table [first] of package [utf8] together with
    [acceptRanges]: the announced width of the sequence and the range
    accepted for the second byte. [None] stands for both the [as]
    (ASCII) and the [xx] (invalid) entries, which have width 1. *)
Definition first_byte (c : ascii) : option (nat * N * N) :=
  let n := N_of_ascii c in
  if (n <? 194)%N then None                          (* 0x00-0xC1 *)
  else if (n <? 224)%N then Some (2, 128%N, 191%N)     (* 0xC2-0xDF *)
  else if (n =? 224)%N then Some (3, 160%N, 191%N)     (* 0xE0 *)
  else if (n <? 237)%N then Some (3, 128%N, 191%N)     (* 0xE1-0xEC *)
  else if (n =? 237)%N then Some (3, 128%N, 159%N)     (* 0xED *)
  else if (n <? 240)%N then Some (3, 128%N, 191%N)     (* 0xEE-0xEF *)
  else if (n =? 240)%N then Some (4, 144%N, 191%N)     (* 0xF0 *)
  else if (n <? 244)%N then Some (4, 128%N, 191%N)     (* 0xF1-0xF3 *)
  else if (n =? 244)%N then Some (4, 128%N, 143%N)     (* 0xF4 *)
  else None.                                         (* 0xF5-0xFF *)

Definition in_range (lo hi : N) (c : ascii) : bool :=
  ((lo <=? N_of_ascii c) && (N_of_ascii c <=? hi))%N.

(** Width of the first rune of [String s0 tl]. *)
Definition rune_width (s0 : ascii) (tl : string) : nat :=
  match first_byte s0 with
  | None => 1
  | Some (sz, lo, hi) =>
      if (S (String.length tl) <? sz)%nat then 1 else
      match tl with
      | String s1 (String s2 (String s3 _)) =>
          if negb (in_range lo hi s1) then 1
          else if (sz <=? 2)%nat then 2
          else if negb (in_range 128 191 s2) then 1
          else if (sz <=? 3)%nat then 3
          else if negb (in_range 128 191 s3) then 1
          else 4
      | String s1 (String s2 EmptyString) =>
          if negb (in_range lo hi s1) then 1
          else if (sz <=? 2)%nat then 2
          else if negb (in_range 128 191 s2) then 1
          else 3
      | String s1 EmptyString =>
          if negb (in_range lo hi s1) then 1 else 2
      | EmptyString => 1
      end
  end.

(** [explode s (-1)]: [s] cut into its UTF-8 sequences, a byte that
    starts no valid sequence being a piece of its own (releases of Go
    before 1.20 put the encoding of U+FFFD in its place). [k] counts
    the bytes that still belong to the sequence being copied. Only a
    trie with the empty separator gets here; the statements below are
    about non-empty separators. *)
Fixpoint explode_from (k : nat) (s : string) : list string :=
  match s with
  | EmptyString => []
  | String c s' =>
      let k' := match k with
                | O => pred (rune_width c s')
                | S j => j
                end in
      match k' with
      | O => String c EmptyString :: explode_from 0 s'
      | S _ =>
          match explode_from k' s' with
          | seg :: segs => String c seg :: segs
          | [] => [String c EmptyString]
          end
      end
  end.

Definition explode (s : string) : list string := explode_from 0 s.

(** [genSplit s sep 0 (-1)] for a non-empty [sep]: cut at every
    occurrence of [sep], found from left to right without overlap
    ([Index] on what is left of [s]). [skip] counts the bytes of the
    separator just found that remain to be dropped. The head of the
    result is the segment being read. *)
Fixpoint split_from (sep : string) (skip : nat) (s : string) : list string :=
  match s with
  | EmptyString => [EmptyString]
  | String c s' =>
      match skip with
      | S k => split_from sep k s'
      | O =>
          if String.prefix sep s
          then EmptyString :: split_from sep (pred (String.length sep)) s'
          else match split_from sep 0 s' with
               | seg :: segs => String c seg :: segs
               | [] => [String c EmptyString]
               end
      end
  end.

(** [strings.Split(s, sep)]. *)
Definition Split (s sep : string) : list string :=
  if String.eqb sep EmptyString then explode s else split_from sep 0 s.

(** [strings.Join(elems, sep)]. *)
Fixpoint Join (elems : list string) (sep : string) : string :=
  match elems with
  | [] => EmptyString
  | [e] => e
  | e :: rest => e ++ sep ++ Join rest sep
  end.

End GoStrings.

Import GoStrings.

(** ** The trie *)

(** What a call leaves behind when it panics. *)
Inductive panic : Type :=
| PathEndsWithSlash     (* panic("path cannot end with slash") *)
| IndexOutOfRange       (* runtime error: index out of range *)
| InterfaceConversion.  (* interface conversion: interface is nil *)

Inductive result (A : Type) : Type :=
| Ok (a : A)
| Panics (p : panic).

Arguments Ok {A} a.
Arguments Panics {A} p.

Section Trie.

Variable V : Type.

(** [interface{}]: [nil] or a value. *)
Definition iface : Type := option V.

Local Unset Elimination Schemes.

Inductive wildcardTrie : Type :=
  mkTrie {
      separator : string;
      key : string;
      pattern : string;
      value : iface;
      children : list wildcardTrie
    }.

Local Set Elimination Schemes.

Definition newWildcardTrie (separator : string) : wildcardTrie :=
  mkTrie separator "" "" None [].

Definition newTrie (sep key : string) (path : list string) : wildcardTrie :=
  mkTrie sep key ("/" ++ Join path sep) None [].

(** Assignments to the fields [value] and [children]. *)
Definition set_value (v : iface) (t : wildcardTrie) : wildcardTrie :=
  mkTrie (separator t) (key t) (pattern t) v (children t).

Definition set_children (cs : list wildcardTrie) (t : wildcardTrie) : wildcardTrie :=
  mkTrie (separator t) (key t) (pattern t) (value t) cs.

(** The loop of [grow] over [t.children]: the first child whose key is
    [k] is replaced by what [f] makes of it; [None] when the loop ends
    without finding one. *)
Fixpoint update_first (f : wildcardTrie -> wildcardTrie) (k : string)
    (cs : list wildcardTrie) : option (list wildcardTrie) :=
  match cs with
  | [] => None
  | c :: cs' =>
      if String.eqb (key c) k then Some (f c :: cs')
      else option_map (cons c) (update_first f k cs')
  end.

(** [t.grow(idx, xs, v)], with the slice and its cursor held as a pair:
    [xs = pre ++ rest] and [idx = length pre], so that [xs[idx]] is the
    head of [rest], [xs[:idx+1]] is [pre ++ [x]] and [len(xs) == idx]
    says that [rest] is empty. The guard [len(xs) > idx] of the last
    block holds whenever it is reached. *)
Fixpoint grow (pre rest : list string) (v : iface) (t : wildcardTrie)
    {struct rest} : wildcardTrie :=
  match rest with
  | [] => set_value v t
  | x :: rest' =>
      match update_first (grow (pre ++ [x]) rest' v) x (children t) with
      | Some cs => set_children cs t
      | None =>
          let c := newTrie (separator t) x (pre ++ [x]) in
          let c := match rest' with
                   | [] => set_value v c
                   | _ :: _ => grow (pre ++ [x]) rest' v c
                   end in
          set_children (children t ++ [c]) t
      end
  end.

(** The state of the receiver after a call of [Add], and whether the
    call returned or panicked. *)
Inductive outcome : Type :=
| Done (t' : wildcardTrie)
| Panic (p : panic) (t' : wildcardTrie).

Definition Add (t : wildcardTrie) (s : string) (v : iface) : outcome :=
  match Split s (separator t) with
  | [] => Panic IndexOutOfRange t
  | x0 :: tl =>
      let xs := x0 :: tl in
      if (1 <? List.length xs)%nat && String.eqb (List.last xs "") ""
      then Panic PathEndsWithSlash t
      else if String.eqb x0 "" then Done (grow [x0] tl v t)
      else Done (grow [] xs v t)
  end.

Definition wildcard : string := "*".

(** The loops of [Get] and [get] over the children: the first result
    with a non-empty pattern. *)
Fixpoint first_match (f : wildcardTrie -> iface * string)
    (cs : list wildcardTrie) : iface * string :=
  match cs with
  | [] => (None, "")
  | c :: cs' =>
      let r := f c in
      if negb (String.eqb (snd r) "") then r else first_match f cs'
  end.

(** [t.get(idx, xs, wildcard)] where [x = xs[idx]] and [rest] is
    [xs[idx+1:]]; [len(xs)-idx == 1] says that [rest] is empty. Every
    call has [idx < len(xs)]: [Get] passes 0 after reading [xs[0]] and
    [get] goes on to [idx+1] only when [len(xs)-idx] is not 1. *)
Fixpoint get (x : string) (rest : list string) (wildcard : string)
    (t : wildcardTrie) {struct rest} : iface * string :=
  if negb (String.eqb x (key t)) && negb (String.eqb (key t) wildcard) then
    if String.eqb (key t) "" && (List.length (children t) =? 0)%nat
    then (value t, pattern t)
    else (None, "")
  else
    match rest with
    | [] => (value t, pattern t)
    | y :: rest' => first_match (get y rest' wildcard) (children t)
    end.

Definition Get (t : wildcardTrie) (s : string) : result (iface * string) :=
  match Split s (separator t) with
  | [] => Panics IndexOutOfRange
  | x0 :: tl =>
      if String.eqb x0 "" then Ok (get x0 tl wildcard t)
      else Ok (first_match (get x0 tl wildcard) (children t))
  end.

(** [t.equals(other)]; [reflect.DeepEqual] on the two values is the
    comparison [V_eqb] on [V], [nil] being equal to [nil] only. *)
Section Equals.

Variable V_eqb : V -> V -> bool.

Definition DeepEqual (a b : iface) : bool :=
  match a, b with
  | None, None => true
  | Some x, Some y => V_eqb x y
  | _, _ => false
  end.

Fixpoint equals (t other : wildcardTrie) {struct t} : bool :=
  match t, other with
  | mkTrie sep k p v cs, mkTrie sep' k' p' v' cs' =>
      if negb (String.eqb sep sep') then false
      else if negb (String.eqb k k') then false
      else if negb (String.eqb p p') then false
      else if negb (DeepEqual v v') then false
      else if negb (List.length cs =? List.length cs')%nat then false
      else
        (fix range (cs os : list wildcardTrie) {struct cs} : bool :=
           match cs, os with
           | c :: cs1, o :: os1 =>
               if negb (equals c o) then false else range cs1 os1
           | _, _ => true
           end) cs cs'
  end.

End Equals.

(** Induction on a trie: the property holds of every child. *)
Section Induction.

Variable P : wildcardTrie -> Prop.
Hypothesis P_node :
  forall sep k p v cs, Forall P cs -> P (mkTrie sep k p v cs).

Fixpoint wildcardTrie_ind (t : wildcardTrie) : P t :=
  match t with
  | mkTrie sep k p v cs =>
      P_node sep k p v cs
        ((fix all (l : list wildcardTrie) : Forall P l :=
            match l with
            | [] => Forall_nil P
            | c :: l' => Forall_cons c (wildcardTrie_ind c) (all l')
            end) cs)
  end.

End Induction.

(** *** Sequences of calls *)

(** The receiver after a call, whether it returned or panicked. *)
Definition after (o : outcome) : wildcardTrie :=
  match o with
  | Done t' => t'
  | Panic _ t' => t'
  end.

(** [Add] called for each pair in turn; a caller that recovers from a
    panic goes on with the trie as the panic left it. *)
Definition AddAll (t : wildcardTrie) (ops : list (string * iface)) : wildcardTrie :=
  fold_left (fun t op => after (Add t (fst op) (snd op))) ops t.

(** *** Properties of tries used in the statements *)

(** The trie without its patterns: separator, key, value and children
    of every node. *)
Fixpoint forget_patterns (t : wildcardTrie) : wildcardTrie :=
  match t with
  | mkTrie sep k _ v cs => mkTrie sep k "" v (map forget_patterns cs)
  end.

(** No node of the trie has the wildcard as its key. *)
Fixpoint wildcard_free (t : wildcardTrie) : bool :=
  match t with
  | mkTrie _ k _ _ cs =>
      negb (String.eqb k wildcard) && forallb wildcard_free cs
  end.

(** The node [c], reached from the root through the keys [path], and
    every node below it hold as pattern the keys from the root down to
    the node joined by [sep], after the prefix [pfx]. *)
Fixpoint joined_from (pfx sep : string) (path : list string)
    (c : wildcardTrie) : bool :=
  match c with
  | mkTrie _ k p _ cs =>
      String.eqb p (pfx ++ Join (path ++ [k]) sep)
      && forallb (joined_from pfx sep (path ++ [k])) cs
  end.

(** The invariant on [fullPattern]: below the root, every pattern is
    the separator followed by the keys joined by the separator. *)
Definition fullPattern_ok (t : wildcardTrie) : bool :=
  forallb (joined_from (separator t) (separator t) []) (children t).

(** The value of the node reached through the keys [rest] (the first
    child with the key, at each level) replaced by [v]; nothing else
    changes and no node is created. *)
Fixpoint set_at (rest : list string) (v : iface) (t : wildcardTrie)
    {struct rest} : wildcardTrie :=
  match rest with
  | [] => set_value v t
  | x :: rest' =>
      match update_first (set_at rest' v) x (children t) with
      | Some cs => set_children cs t
      | None => t
      end
  end.

(** The node reached through the keys [rest], the first child with the
    key at each level. *)
Fixpoint node_at (rest : list string) (t : wildcardTrie)
    {struct rest} : option wildcardTrie :=
  match rest with
  | [] => Some t
  | x :: rest' =>
      match find (fun c => String.eqb (key c) x) (children t) with
      | Some c => node_at rest' c
      | None => None
      end
  end.

(** What [Add] maintains below the root when no pattern begins with
    the separator: the node [c], reached through the keys [path], has
    the separator [sep], its pattern is "/" followed by the keys down
    to it joined by [sep], it has children when its key is empty, and
    so for every node below it. *)
Local Unset Elimination Schemes.

Inductive node_ok (sep : string) : list string -> wildcardTrie -> Prop :=
| node_ok_intro path k p v cs :
    p = ("/" ++ Join (path ++ [k]) sep)%string ->
    (k = "" -> cs <> []) ->
    Forall (node_ok sep (path ++ [k])) cs ->
    node_ok sep path (mkTrie sep k p v cs).

Local Set Elimination Schemes.

Definition root_ok (sep : string) (t : wildcardTrie) : Prop :=
  separator t = sep /\ key t = "" /\ Forall (node_ok sep []) (children t).

(** The value bound by the last pair whose pattern is the empty string. *)
Definition root_binding (ops : list (string * iface)) : iface :=
  fold_left (fun acc op => if String.eqb (fst op) "" then snd op else acc)
    ops None.

End Trie.

Arguments mkTrie {V}.
Arguments separator {V}.
Arguments key {V}.
Arguments pattern {V}.
Arguments value {V}.
Arguments children {V}.
Arguments newWildcardTrie {V}.
Arguments newTrie {V}.
Arguments set_value {V}.
Arguments set_children {V}.
Arguments update_first {V}.
Arguments grow {V}.
Arguments Done {V}.
Arguments Panic {V}.
Arguments Add {V}.
Arguments first_match {V}.
Arguments get {V}.
Arguments Get {V}.

Arguments DeepEqual {V}.
Arguments equals {V}.
Arguments after {V}.
Arguments AddAll {V}.
Arguments forget_patterns {V}.
Arguments wildcard_free {V}.
Arguments joined_from {V}.
Arguments fullPattern_ok {V}.
Arguments set_at {V}.
Arguments node_at {V}.
Arguments root_binding {V}.
Arguments node_ok {V}.
Arguments node_ok_intro {V}.
Arguments root_ok {V}.

(** [strings.HasPrefix] and [strings.HasSuffix]. *)
Definition HasPrefix (s pfx : string) : bool := String.prefix pfx s.

Definition HasSuffix (s suffix : string) : bool :=
  (String.length suffix <=? String.length s)%nat
  && String.eqb
       (String.substring (String.length s - String.length suffix)
          (String.length suffix) s)
       suffix.

(** ** Nodes and key paths *)

Section Traversal.

Context {V : Type}.

(** The keys that [Add] and [Get] follow from the root: the segments of
    [s], without the empty first one that a leading separator gives
    ([idx] set to 1 in [Add], the call of [get] on the root in [Get]). *)
Definition path_keys (s sep : string) : list string :=
  match Split s sep with
  | [] => []
  | x0 :: tl => if String.eqb x0 "" then tl else x0 :: tl
  end.

(** The nodes below [t], and [t] with them. *)
Fixpoint below (t : wildcardTrie V) : list (wildcardTrie V) :=
  match t with
  | mkTrie _ _ _ _ cs => flat_map (fun c => c :: below c) cs
  end.

Definition nodes (t : wildcardTrie V) : list (wildcardTrie V) := t :: below t.

(** Every node of [t] with the keys that lead to it, from the key of
    [t] down to its own. *)
Fixpoint key_paths (t : wildcardTrie V) : list (list string * wildcardTrie V) :=
  match t with
  | mkTrie sep k p v cs =>
      ([k], mkTrie sep k p v cs)
      :: map (fun kn => (k :: fst kn, snd kn)) (flat_map key_paths cs)
  end.

(** The keys [ks] match the segments [xs] one by one: a key is the
    segment itself or the wildcard. *)
Fixpoint matches (xs ks : list string) : bool :=
  match xs, ks with
  | [], [] => true
  | x :: xs', k :: ks' =>
      (String.eqb k x || String.eqb k wildcard) && matches xs' ks'
  | _, _ => false
  end.

(** What [Add] maintains below the root, whatever the patterns: the
    node [c] has the separator [sep], its pattern begins with "/", it
    is not a childless node with the empty key, and so for every node
    below it. *)
Fixpoint built_ok (sep : string) (c : wildcardTrie V) : bool :=
  match c with
  | mkTrie s k p _ cs =>
      String.eqb s sep
      && String.prefix "/" p
      && negb (String.eqb k "" && (List.length cs =? 0)%nat)
      && forallb (built_ok sep) cs
  end.

(** The children of every node have keys that differ from one another. *)
Local Unset Elimination Schemes.

Inductive distinct_keys : wildcardTrie V -> Prop :=
| distinct_keys_intro sep k p v cs :
    NoDup (map key cs) ->
    Forall distinct_keys cs ->
    distinct_keys (mkTrie sep k p v cs).

Local Set Elimination Schemes.

(** What a lookup answers when it ends at the node [o], or at none. *)
Definition node_result (o : option (wildcardTrie V)) : iface V * string :=
  match o with
  | Some n => (value n, pattern n)
  | None => (None, "")
  end.

(** The loop over the children as [grow] and [node_at] run it: the
    children before the first one with the key [k], and that child. *)
Fixpoint cut_at (k : string) (cs : list (wildcardTrie V))
    : option (list (wildcardTrie V) * wildcardTrie V) :=
  match cs with
  | [] => None
  | c :: cs' =>
      if String.eqb (key c) k then Some ([], c)
      else match cut_at k cs' with
           | Some (before, d) => Some (c :: before, d)
           | None => None
           end
  end.

(** The keys [ks] are the route that the lookup of the segments [xs]
    takes below [t]: at every level the key is the segment or the
    wildcard, and no child listed before the child with that key gives
    a match (a non-empty pattern) for the segments that are left. The
    result is the node at the end of the route. *)
Fixpoint first_route (xs ks : list string) (t : wildcardTrie V) {struct ks}
    : option (wildcardTrie V) :=
  match ks, xs with
  | [], [] => Some t
  | k :: ks', x :: xs' =>
      match cut_at k (children t) with
      | Some (before, c) =>
          if (String.eqb k x || String.eqb k wildcard)
             && forallb
                  (fun b => String.eqb (snd (get x xs' wildcard b)) "")
                  before
          then first_route xs' ks' c
          else None
      | None => None
      end
  | _, _ => None
  end.

(** The same route, told from the keys alone: at every level the key
    is the segment or the wildcard, and no child listed before the
    child with that key has the segment or the wildcard as its key. *)
Fixpoint clear_route (xs ks : list string) (t : wildcardTrie V) {struct ks}
    : bool :=
  match ks, xs with
  | [], [] => true
  | k :: ks', x :: xs' =>
      match cut_at k (children t) with
      | Some (before, c) =>
          (String.eqb k x || String.eqb k wildcard)
          && forallb
               (fun b => negb (String.eqb (key b) x)
                         && negb (String.eqb (key b) wildcard))
               before
          && clear_route xs' ks' c
      | None => false
      end
  | _, _ => false
  end.

(** Every node that has a pattern has a value. *)
Fixpoint all_bound (t : wildcardTrie V) : bool :=
  match t with
  | mkTrie _ _ p v cs =>
      (String.eqb p "" || match v with Some _ => true | None => false end)
      && forallb all_bound cs
  end.

End Traversal.

(** ** The multiplexer *)

(** [treeMux] keeps its routes in a trie with the separator "/"; the
    values of the trie are the handlers, of a type [H] here. *)
Section TreeMux.

Variable H : Type.

(** What [Handler] returns as handler: [t.notFound] or a handler that
    was registered. *)
Inductive handler : Type :=
| NotFound
| Registered (h : H).

(** [t.Handle(path, handler)]; [handler] is an interface value and may
    be [nil], which is stored as it is. *)
Definition Handle (trie : wildcardTrie H) (path : string) (h : iface H)
    : outcome H :=
  Add trie path h.

(** [t.Handler(r)] for a request with the path [path]; the type
    assertion [v.(http.Handler)] panics on [nil]. *)
Definition Handler (trie : wildcardTrie H) (path : string)
    : result (handler * string) :=
  match Get trie path with
  | Panics p => Panics p
  | Ok (v, pattern) =>
      if String.eqb pattern "" then Ok (NotFound, pattern)
      else match v with
           | Some h => Ok (Registered h, path)
           | None => Panics InterfaceConversion
           end
  end.

End TreeMux.

Arguments NotFound {H}.
Arguments Registered {H}.
Arguments Handle {H}.
Arguments Handler {H}.

(** ** The tries of the test suite *)

Module Tests.

(** The values the tests store: integers and strings. *)
Inductive val : Type :=
| VInt (z : Z)
| VStr (s : string).

Definition val_eqb (a b : val) : bool :=
  match a, b with
  | VInt x, VInt y => Z.eqb x y
  | VStr x, VStr y => String.eqb x y
  | _, _ => false
  end.

Definition int (z : Z) : iface val := Some (VInt z).

Definition leaf (k p : string) (v : iface val) : wildcardTrie val :=
  mkTrie "/" k p v [].

(** [basicTrie] of [TestWildcardTrie_Get]. *)
Definition basicTrie : wildcardTrie val :=
  mkTrie "/" "" "" (int (-1))
    [ mkTrie "/" "moo" "/moo" (int 1) [leaf "cow" "/moo/cow" (int 14)];
      mkTrie "/" "foo" "/foo" (int 2)
        [ leaf "bar" "/foo/bar" (int 3);
          leaf "*" "/foo/*" (int 99);
          mkTrie "/" "bla" "/foo/bla" (int 5)
            [leaf "*" "/foo/bla/*" (int 6)] ] ].

Definition partialTrie : wildcardTrie val :=
  mkTrie "/" "" "" (Some (VStr ""))
    [ mkTrie "/" "foo*" "" (int 42) [] ].

(** The tries of [TestWildcardTrie_Add], each the expected result of
    the case before. *)
Definition add0 : wildcardTrie val := mkTrie "/" "" "/" None [].

Definition add1 : wildcardTrie val :=
  mkTrie "/" "" "/" None [leaf "foo" "/foo" (int 1)].

Definition add1' : wildcardTrie val :=
  mkTrie "/" "" "" None [leaf "foo" "/foo" (int 1)].

Definition add2 : wildcardTrie val :=
  mkTrie "/" "" "" None
    [mkTrie "/" "foo" "/foo" (int 1) [leaf "bar" "/foo/bar" (int 2)]].

Definition add3 : wildcardTrie val :=
  mkTrie "/" "" "" None
    [mkTrie "/" "foo" "/foo" (int 1)
       [leaf "bar" "/foo/bar" (int 2); leaf "*" "/foo/*" (int 99)]].

Definition add4 : wildcardTrie val :=
  mkTrie "/" "" "" None
    [mkTrie "/" "foo" "/foo" (int 1)
       [leaf "bar" "/foo/bar" (int 2); leaf "*" "/foo/*" (int 99);
        mkTrie "/" "bla" "/foo/bla" None [leaf "*" "/foo/bla/*" (int 6)]]].

Definition add5 : wildcardTrie val :=
  mkTrie "/" "" "" None
    [mkTrie "/" "foo" "/foo" (int 1)
       [leaf "bar" "/foo/bar" (int 2); leaf "*" "/foo/*" (int 99);
        mkTrie "/" "bla" "/foo/bla" (int 5) [leaf "*" "/foo/bla/*" (int 6)]]].

Definition add6 : wildcardTrie val :=
  mkTrie "/" "" "" None
    [mkTrie "/" "foo" "/foo" (int 1)
       [leaf "bar" "/foo/bar" (int 666); leaf "*" "/foo/*" (int 99);
        mkTrie "/" "bla" "/foo/bla" (int 5) [leaf "*" "/foo/bla/*" (int 6)]]].

(** The routes of [TestTreeMux_Handle]; the handlers are named. *)
Definition routes : wildcardTrie string :=
  after (Handle
           (after (Handle
                     (after (Handle (newWildcardTrie "/") "foo/bar"
                               (Some "handleFunc")))
                     "/moo" (Some "handleFunc")))
           "/moo/*" (Some "testHandler")).

(** A case of [TestWildcardTrie_Add]: the call returns and the
    receiver [equals] the expected trie. *)
Definition add_case (tr : wildcardTrie val) (k : string) (v : iface val)
    (want : wildcardTrie val) : bool :=
  match Add tr k v with
  | Done t' => equals val_eqb t' want
  | Panic _ _ => false
  end.

End Tests.

(** * Properties *)

(** ** The test suite, run on the model *)

Module TestRuns.
Import Tests.

Lemma TestWildcardTrie_Get :
  Get basicTrie "" = Ok (int (-1), "")
  /\ Get basicTrie "/" = Ok (None, "")
  /\ Get basicTrie "foo" = Ok (int 2, "/foo")
  /\ Get basicTrie "foo/" = Ok (int 99, "/foo/*")
  /\ Get basicTrie "/foo" = Ok (int 2, "/foo")
  /\ Get basicTrie "/foo/bar" = Ok (int 3, "/foo/bar")
  /\ Get basicTrie "foo/bar/" = Ok (None, "")
  /\ Get basicTrie "foo/bla" = Ok (int 99, "/foo/*")
  /\ Get basicTrie "foo/meow" = Ok (int 99, "/foo/*")
  /\ Get basicTrie "foo/bla/" = Ok (int 6, "/foo/bla/*")
  /\ Get basicTrie "moo/woof" = Ok (None, "")
  /\ Get basicTrie "moo/cowpie" = Ok (None, "")
  /\ Get partialTrie "foobar" = Ok (None, "").
Proof. repeat split; reflexivity. Qed.

Lemma TestWildcardTrie_Add :
  add_case add0 "foo" (int 1) add1 = true
  /\ add_case add1' "foo/bar" (int 2) add2 = true
  /\ add_case add2 "foo/*" (int 99) add3 = true
  /\ add_case add3 "foo/bla/*" (int 6) add4 = true
  /\ add_case add4 "foo/bla" (int 5) add5 = true
  /\ add_case add5 "/foo/bar" (int 666) add6 = true
  /\ Add (newWildcardTrie "/") "foo/bar/" (int 1)
     = Panic PathEndsWithSlash (newWildcardTrie "/").
Proof. repeat split; reflexivity. Qed.

Lemma TestTreeMux_Handle :
  Handler routes "/foo/bar" = Ok (Registered "handleFunc", "/foo/bar")
  /\ Handler routes "/foo/meow" = Ok (NotFound, "")
  /\ Handler routes "/moo" = Ok (Registered "handleFunc", "/moo")
  /\ Handler routes "/moo/meh" = Ok (Registered "testHandler", "/moo/meh")
  /\ Handler routes "/moo/" = Ok (Registered "testHandler", "/moo/")
  /\ Handler routes "/foo/*" = Ok (NotFound, "").
Proof. repeat split; reflexivity. Qed.

End TestRuns.

(** ** [strings.Split] and [strings.Join] *)

Section SplitFacts.

Lemma prefix_app (a q : string) : String.prefix a (a ++ q) = true.
Proof.
  induction a as [|c a IH]; simpl.
  - now destruct q.
  - destruct (ascii_dec c c) as [_|n]; [exact IH | now elim n].
Qed.

Lemma prefix_inv (a s : string) :
  String.prefix a s = true -> exists q, s = (a ++ q)%string.
Proof.
  revert s; induction a as [|c a IH]; intros s H.
  - exists s; reflexivity.
  - destruct s as [|d s]; simpl in H; [discriminate|].
    destruct (ascii_dec c d) as [->|]; [|discriminate].
    destruct (IH _ H) as [q ->]. exists q; reflexivity.
Qed.

Lemma string_app_assoc (a b c : string) :
  ((a ++ b) ++ c = a ++ (b ++ c))%string.
Proof. induction a; simpl; congruence. Qed.

Lemma string_app_nil_r (a : string) : (a ++ "")%string = a.
Proof. induction a; simpl; congruence. Qed.

Lemma string_app_length (a b : string) :
  String.length (a ++ b) = String.length a + String.length b.
Proof. induction a; simpl; congruence. Qed.

Lemma Join_cons_char (c : ascii) (seg : string) (segs : list string) (sep : string) :
  Join (String c seg :: segs) sep = String c (Join (seg :: segs) sep).
Proof. destruct segs; reflexivity. Qed.

Lemma Join_cons_cons (e e' : string) (rest : list string) (sep : string) :
  Join (e :: e' :: rest) sep = (e ++ sep ++ Join (e' :: rest) sep)%string.
Proof. reflexivity. Qed.

Lemma Join_snoc (l : list string) (e sep : string) :
  l <> [] -> Join (l ++ [e]) sep = (Join l sep ++ sep ++ e)%string.
Proof.
  induction l as [|a l IH]; intros Hl; [congruence|].
  destruct l as [|b l].
  - reflexivity.
  - change ((a :: b :: l) ++ [e]) with (a :: ((b :: l) ++ [e])).
    simpl app at 1. rewrite !Join_cons_cons.
    change (b :: l ++ [e]) with ((b :: l) ++ [e]).
    rewrite IH by discriminate.
    now rewrite !string_app_assoc.
Qed.

Lemma split_from_skip (sep t q : string) :
  split_from sep (String.length t) (t ++ q) = split_from sep 0 q.
Proof. induction t as [|c t IH]; simpl; [reflexivity | exact IH]. Qed.

Lemma split_from_String_app (c : ascii) (sep' q : string) :
  split_from (String c sep') 0 (String c sep' ++ q)
  = "" :: split_from (String c sep') 0 q.
Proof.
  change (String c sep' ++ q)%string with (String c (sep' ++ q)).
  cbn [split_from].
  change (String c (sep' ++ q)) with (String c sep' ++ q)%string.
  rewrite prefix_app. cbn [String.length pred].
  now rewrite split_from_skip.
Qed.

Variable sep : string.
Hypothesis sep_nonempty : sep <> "".

Lemma Split_nonempty_sep (s : string) : Split s sep = split_from sep 0 s.
Proof.
  unfold Split. destruct (String.eqb_spec sep ""); [contradiction|reflexivity].
Qed.

Lemma split_from_not_nil (k : nat) (s : string) : split_from sep k s <> [].
Proof.
  revert k; induction s as [|c s IH]; intros k; cbn [split_from];
    [discriminate|].
  destruct k; [|apply IH].
  destruct (String.prefix sep (String c s)); [discriminate|].
  destruct (split_from sep 0 s); discriminate.
Qed.

Lemma split_from_sep_app (q : string) :
  split_from sep 0 (sep ++ q) = "" :: split_from sep 0 q.
Proof.
  destruct sep as [|c sep'] eqn:E; [contradiction|].
  apply split_from_String_app.
Qed.

Lemma split_from_char (c : ascii) (s : string) :
  String.prefix sep (String c s) = false ->
  exists seg segs,
    split_from sep 0 s = seg :: segs
    /\ split_from sep 0 (String c s) = String c seg :: segs.
Proof.
  intros H. cbn [split_from]. rewrite H.
  destruct (split_from sep 0 s) as [|seg segs] eqn:E.
  - now apply split_from_not_nil in E.
  - now exists seg, segs.
Qed.

Lemma Split_empty : Split "" sep = [""].
Proof. now rewrite Split_nonempty_sep. Qed.

Lemma Split_sep_app (q : string) : Split (sep ++ q) sep = "" :: Split q sep.
Proof. rewrite !Split_nonempty_sep. apply split_from_sep_app. Qed.

Lemma Split_sep : Split sep sep = [""; ""].
Proof.
  rewrite <- (string_app_nil_r sep) at 1.
  now rewrite Split_sep_app, Split_empty.
Qed.

Lemma Split_head (q : string) :
  q <> "" -> HasPrefix q sep = false ->
  exists x rest, Split q sep = x :: rest /\ x <> "".
Proof.
  intros Hq Hp. destruct q as [|c q]; [congruence|].
  rewrite Split_nonempty_sep.
  destruct (split_from_char c q Hp) as (seg & segs & _ & ->).
  exists (String c seg), segs. split; [reflexivity|discriminate].
Qed.

(** Joining what [Split] returns gives the string back. *)
Lemma Join_split_from (s : string) : Join (split_from sep 0 s) sep = s.
Proof.
  remember (String.length s) as n eqn:Hn.
  revert s Hn. induction n as [n IH] using lt_wf_ind. intros s Hn.
  destruct s as [|c s]; [reflexivity|].
  destruct (String.prefix sep (String c s)) eqn:Hp.
  - apply prefix_inv in Hp. destruct Hp as [q Hq]. rewrite Hq.
    rewrite split_from_sep_app.
    destruct (split_from sep 0 q) as [|seg segs] eqn:E;
      [now apply split_from_not_nil in E|].
    rewrite Join_cons_cons, <- E. simpl append at 1.
    rewrite (IH (String.length q)); [reflexivity| |reflexivity].
    rewrite Hn, Hq, string_app_length.
    destruct sep; [contradiction|simpl; lia].
  - destruct (split_from_char c s Hp) as (seg & segs & E & ->).
    rewrite Join_cons_char, <- E.
    rewrite (IH (String.length s)); [reflexivity| |reflexivity].
    rewrite Hn; simpl; lia.
Qed.

Lemma Join_Split (s : string) : Join (Split s sep) sep = s.
Proof. rewrite Split_nonempty_sep. apply Join_split_from. Qed.

Lemma Split_not_nil (s : string) : Split s sep <> [].
Proof. rewrite Split_nonempty_sep. apply split_from_not_nil. Qed.

Lemma Split_singleton (s x : string) : Split s sep = [x] -> x = s.
Proof. intros H. rewrite <- (Join_Split s), H. reflexivity. Qed.

End SplitFacts.

(** ** Nodes, [grow] and the loops over children *)

Section TrieFacts.

Context {V : Type}.
Implicit Types (t c : wildcardTrie V) (cs : list (wildcardTrie V)).
Implicit Types (v : iface V) (pre rest : list string).

Lemma grow_fields pre rest v t :
  separator (grow pre rest v t) = separator t
  /\ key (grow pre rest v t) = key t
  /\ pattern (grow pre rest v t) = pattern t.
Proof.
  destruct rest as [|x rest]; cbn [grow]; [now split|].
  destruct (update_first _ x (children t)); now split.
Qed.

Lemma grow_key pre rest v t : key (grow pre rest v t) = key t.
Proof. apply grow_fields. Qed.

Lemma grow_cons_value pre x rest v t :
  value (grow pre (x :: rest) v t) = value t.
Proof.
  cbn [grow]. destruct (update_first _ x (children t)); reflexivity.
Qed.

(** The two branches that follow [newTrie] in [grow] do the same. *)
Lemma grow_fresh pre rest v c :
  match rest with
  | [] => set_value v c
  | _ :: _ => grow pre rest v c
  end = grow pre rest v c.
Proof. now destruct rest. Qed.

Lemma update_first_keys (f : wildcardTrie V -> wildcardTrie V) k cs cs' :
  (forall c, key (f c) = key c) ->
  update_first f k cs = Some cs' -> map key cs' = map key cs.
Proof.
  intros Hf. revert cs'; induction cs as [|c cs IH]; intros cs' H;
    cbn [update_first] in H; [discriminate|].
  destruct (String.eqb (key c) k).
  - injection H as <-. cbn [map]. now rewrite Hf.
  - destruct (update_first f k cs) as [l|]; [|discriminate].
    injection H as <-. cbn [map]. now rewrite (IH l).
Qed.

Lemma update_first_found (f : wildcardTrie V -> wildcardTrie V) k cs :
  update_first f k cs <> None <-> existsb (fun c => String.eqb (key c) k) cs = true.
Proof.
  induction cs as [|c cs IH]; cbn [update_first existsb].
  - split; [congruence|discriminate].
  - destruct (String.eqb (key c) k); cbn [orb].
    + split; [reflexivity|discriminate].
    + rewrite <- IH. destruct (update_first f k cs); cbn [option_map];
        split; congruence.
Qed.

(** The loop returns what the earliest child with a non-empty pattern
    gives. *)
Lemma first_match_earliest (f : wildcardTrie V -> iface V * string)
    (before behind : list (wildcardTrie V)) c :
  (forall b, In b before -> snd (f b) = "") ->
  snd (f c) <> "" ->
  first_match f (before ++ c :: behind) = f c.
Proof.
  intros Hb Hc. induction before as [|b before IH]; cbn [app first_match].
  - destruct (String.eqb_spec (snd (f c)) ""); [contradiction|reflexivity].
  - rewrite (Hb b (or_introl eq_refl)). cbn.
    apply IH. intros d Hd. apply Hb. now right.
Qed.

Lemma first_match_none (f : wildcardTrie V -> iface V * string) cs :
  (forall c, In c cs -> f c = (None, "")) -> first_match f cs = (None, "").
Proof.
  induction cs as [|c cs IH]; intros H; cbn [first_match]; [reflexivity|].
  rewrite (H c (or_introl eq_refl)). cbn.
  apply IH. intros d Hd. apply H. now right.
Qed.

(** [get] at a node that matches the segment. *)
Lemma get_matching x rest t :
  x = key t \/ key t = wildcard ->
  get x rest wildcard t
  = match rest with
    | [] => (value t, pattern t)
    | y :: rest' => first_match (get y rest' wildcard) (children t)
    end.
Proof.
  intros H. destruct rest; cbn [get];
    (destruct H as [->| ->];
     [rewrite String.eqb_refl | rewrite String.eqb_refl, andb_false_r];
     reflexivity).
Qed.

(** [get] at a node that does not match the segment. *)
Lemma get_not_matching x rest t :
  x <> key t -> key t <> wildcard ->
  get x rest wildcard t
  = if String.eqb (key t) "" && (List.length (children t) =? 0)%nat
    then (value t, pattern t) else (None, "").
Proof.
  intros H1 H2.
  destruct rest; cbn [get];
    (destruct (String.eqb_spec x (key t)); [contradiction|];
     destruct (String.eqb_spec (key t) wildcard); [contradiction|];
     reflexivity).
Qed.

(** [Get] never panics when the separator is not empty. *)
Lemma Get_returns t s :
  separator t <> "" -> exists r, Get t s = Ok r.
Proof.
  intros Hs. unfold Get.
  destruct (Split s (separator t)) as [|x0 tl] eqn:E.
  - now apply Split_not_nil in E.
  - destruct (String.eqb x0 ""); eauto.
Qed.

End TrieFacts.

(** ** [strings.HasSuffix] *)

Section SuffixFacts.

Lemma substring_0_length (s : string) : substring 0 (String.length s) s = s.
Proof. induction s; simpl; congruence. Qed.

Lemma substring_cut (s : string) (n : nat) :
  n <= String.length s ->
  (substring 0 n s ++ substring n (String.length s - n) s)%string = s.
Proof.
  revert n; induction s as [|c s IH]; intros n Hn.
  - destruct n; [reflexivity | simpl in Hn; lia].
  - destruct n as [|n].
    + change (substring 0 0 (String c s)) with EmptyString.
      rewrite Nat.sub_0_r. cbn [append]. apply substring_0_length.
    + simpl in Hn. cbn [substring String.length Nat.sub append].
      f_equal. apply IH. lia.
Qed.

Lemma substring_app_skip (q r : string) (m : nat) :
  substring (String.length q) m (q ++ r) = substring 0 m r.
Proof. induction q as [|c q IH]; simpl; [reflexivity | exact IH]. Qed.

Lemma HasSuffix_inv (s suffix : string) :
  HasSuffix s suffix = true -> exists q, s = (q ++ suffix)%string.
Proof.
  unfold HasSuffix. intros H. apply andb_prop in H. destruct H as [Hl He].
  apply Nat.leb_le in Hl. apply String.eqb_eq in He.
  exists (substring 0 (String.length s - String.length suffix) s).
  pose proof (substring_cut s (String.length s - String.length suffix)) as H.
  replace (String.length s - (String.length s - String.length suffix))
    with (String.length suffix) in H by lia.
  rewrite He in H. symmetry. apply H. lia.
Qed.

Lemma HasSuffix_app (q suffix : string) : HasSuffix (q ++ suffix) suffix = true.
Proof.
  unfold HasSuffix. rewrite string_app_length.
  replace (String.length q + String.length suffix - String.length suffix)
    with (String.length q) by lia.
  rewrite substring_app_skip, substring_0_length, String.eqb_refl.
  rewrite andb_true_r. apply Nat.leb_le. lia.
Qed.

(** A separator of one byte at the end of the string leaves an empty
    last segment. *)
Lemma split_from_char_suffix (c : ascii) (q : string) :
  exists init,
    init <> []
    /\ split_from (String c "") 0 (q ++ String c "") = init ++ [""].
Proof.
  induction q as [|a q (init & Hi & IH)].
  - exists [""]. split; [discriminate|]. simpl.
    destruct (ascii_dec c c) as [_|n]; [reflexivity | now elim n].
  - change (String a q ++ String c "")%string
      with (String a (q ++ String c "")).
    cbn [split_from String.length pred].
    destruct (String.prefix (String c "") (String a (q ++ String c ""))).
    + exists ("" :: init). split; [discriminate|]. now rewrite IH.
    + rewrite IH. destruct init as [|seg segs]; [congruence|].
      exists (String a seg :: segs). split; [discriminate|reflexivity].
Qed.

End SuffixFacts.

(** ** The claims *)

(** *** Patterns registered with a leading separator *)

(** C1. With the separator "/", after [Add("/foo/bar", 3)] and
    [Add("/foo/*", 99)] on an empty trie, the values and the single
    segment reach of the wildcard are as claimed, but the matched
    patterns that [Get] reports carry the skipped empty first segment:
    [Get("/foo/bar")] returns [(3, "//foo/bar")] and [Get("/foo/anything")]
    returns [(99, "//foo/*")]; [Get("/foo/bar/extra")] finds no match. *)
Theorem C1_leading_separator_doubles_the_prefix :
  let t := AddAll (newWildcardTrie "/")
             [("/foo/bar", Some 3%Z); ("/foo/*", Some 99%Z)] in
  Get t "/foo/bar" = Ok (Some 3%Z, "//foo/bar")
  /\ Get t "/foo/anything" = Ok (Some 99%Z, "//foo/*")
  /\ Get t "/foo/bar/extra" = Ok (None, "")
  /\ Get t "/foo/bar" <> Ok (Some 3%Z, "/foo/bar")
  /\ Get t "/foo/anything" <> Ok (Some 99%Z, "/foo/*").
Proof. repeat split; try reflexivity; discriminate. Qed.

(** C4. The pattern of a node is not always the separator followed by
    the keys joined by the separator: [Add("/foo", 1)] with the separator
    "/" stores "//foo", and [Add("a-b", 1)] with the separator "-" stores
    "/a" and "/a-b". A pattern without leading separator under "/" does
    satisfy the invariant. *)
Theorem C4_fullPattern_observed :
  let slash := after (Add (newWildcardTrie "/") "/foo" (Some 1%Z)) in
  let dash := after (Add (newWildcardTrie "-") "a-b" (Some 1%Z)) in
  let plain := after (Add (newWildcardTrie "/") "foo/bar" (Some 1%Z)) in
  map pattern (children slash) = ["//foo"]
  /\ fullPattern_ok slash = false
  /\ map pattern (children dash) = ["/a"]
  /\ map pattern (flat_map children (children dash)) = ["/a-b"]
  /\ fullPattern_ok dash = false
  /\ fullPattern_ok plain = true.
Proof. repeat split; reflexivity. Qed.

(** C7. After [Add("/foo/bar", v)] alone, [Get("/foo")] returns the
    absent value of the node "foo" together with the non-empty pattern of
    that node, "//foo" ("/foo" when the pattern was added without the
    leading separator): the result is not the no-match pair, and
    [Handler], which takes a non-empty pattern for a match, panics on
    the request "/foo". *)
Theorem C7_intermediate_node_reports_its_pattern :
  Get (after (Add (newWildcardTrie "/") "/foo/bar" (Some 1%Z))) "/foo"
  = Ok (None, "//foo")
  /\ Get (after (Add (newWildcardTrie "/") "foo/bar" (Some 1%Z))) "/foo"
     = Ok (None, "/foo")
  /\ Get (after (Add (newWildcardTrie "/") "/foo/bar" (Some 1%Z))) "/foo"
     <> Ok (None, "")
  /\ Handler (after (Handle (newWildcardTrie "/") "/foo/bar" (Some 1%Z)))
       "/foo"
     = Panics InterfaceConversion.
Proof. repeat split; try reflexivity; discriminate. Qed.

(** *** Patterns that end with the separator *)

(** With a separator of one byte, a string that ends with the separator
    has an empty last segment. *)
Lemma HasSuffix_last_empty (p : string) (a : ascii) :
  HasSuffix p (String a "") = true ->
  List.last (Split p (String a "")) "" = "".
Proof.
  intros H. apply HasSuffix_inv in H. destruct H as [q ->].
  rewrite Split_nonempty_sep by discriminate.
  destruct (split_from_char_suffix a q) as (init & _ & ->).
  apply last_last.
Qed.

(** C6. If the pattern passed to [Add] ends with the separator, its
    final split segment being empty, [Add] panics with "path cannot end
    with slash" and the trie is as it was: no node is created and no
    value is changed. *)
Theorem C6_trailing_separator_rejected
    (V : Type) (t : wildcardTrie V) (p : string) (v : iface V) :
  separator t <> "" ->
  HasSuffix p (separator t) = true ->
  List.last (Split p (separator t)) "" = "" ->
  Add t p v = Panic PathEndsWithSlash t.
Proof.
  intros Hsep Hsuf Hlast.
  assert (Hp : p <> "").
  { intros ->. unfold HasSuffix in Hsuf. apply andb_prop in Hsuf.
    destruct Hsuf as [Hl _]. apply Nat.leb_le in Hl.
    destruct (separator t); [congruence | simpl in Hl; lia]. }
  unfold Add.
  destruct (Split p (separator t)) as [|x0 tl] eqn:E;
    [now apply Split_not_nil in E|].
  destruct tl as [|x1 tl].
  - apply Split_singleton in E; [|exact Hsep]. cbn in Hlast. congruence.
  - rewrite Hlast. reflexivity.
Qed.

Lemma C6_trailing_separator_rejected_witness :
  Add (newWildcardTrie "/") "foo/bar/" (Some 1%Z)
  = Panic PathEndsWithSlash (newWildcardTrie "/").
Proof.
  apply (C6_trailing_separator_rejected Z (newWildcardTrie "/") "foo/bar/").
  - discriminate.
  - reflexivity.
  - reflexivity.
Defined.

(** *** The root *)

Section Root.

Context {V : Type}.

(** What one call of [Add] does to the root node itself. *)
Lemma Add_root (t : wildcardTrie V) (s : string) (v : iface V) :
  separator t <> "" ->
  let t' := after (Add t s v) in
  separator t' = separator t /\ key t' = key t /\ pattern t' = pattern t
  /\ value t' = if String.eqb s "" then v else value t.
Proof.
  intros Hsep. unfold Add.
  destruct (Split s (separator t)) as [|x0 tl] eqn:E;
    [now apply Split_not_nil in E|].
  destruct (String.eqb_spec s "") as [->|Hs].
  - rewrite Split_empty in E by exact Hsep. injection E as <- <-.
    cbn. repeat split; reflexivity.
  - destruct ((1 <? List.length (x0 :: tl))%nat
              && String.eqb (List.last (x0 :: tl) "") "");
      [cbn; repeat split; reflexivity|].
    destruct (String.eqb_spec x0 "") as [->|Hx].
    + destruct tl as [|x1 tl].
      * apply Split_singleton in E; [congruence|exact Hsep].
      * cbn [after].
        destruct (grow_fields [""] (x1 :: tl) v t) as (-> & -> & ->).
        rewrite grow_cons_value. repeat split; reflexivity.
    + cbn [after].
      destruct (grow_fields [] (x0 :: tl) v t) as (-> & -> & ->).
      rewrite grow_cons_value. repeat split; reflexivity.
Qed.

Lemma AddAll_root (ops : list (string * iface V)) (t : wildcardTrie V) :
  separator t <> "" ->
  separator (AddAll t ops) = separator t
  /\ key (AddAll t ops) = key t
  /\ pattern (AddAll t ops) = pattern t
  /\ value (AddAll t ops)
     = fold_left
         (fun acc op => if String.eqb (fst op) "" then snd op else acc)
         ops (value t).
Proof.
  revert t; induction ops as [|[s v] ops IH]; intros t Hsep.
  - cbn. repeat split; reflexivity.
  - cbn [AddAll fold_left fst snd].
    destruct (Add_root t s v Hsep) as (Es & Ek & Ep & Ev).
    fold (AddAll (after (Add t s v)) ops).
    destruct (IH (after (Add t s v))) as (-> & -> & -> & ->);
      [now rewrite Es|].
    rewrite Es, Ek, Ep, Ev. repeat split; reflexivity.
Qed.

End Root.

(** C8 (as amended). Every trie reached from [newWildcardTrie(separator)]
    by calls of [Add] has a root with the empty key and the empty
    pattern; the root has no value as long as [Add] was not called with
    the empty pattern, and after such calls it holds the value of the
    last of them. *)
Theorem C8_root_node
    (V : Type) (sep : string) (ops : list (string * iface V)) :
  sep <> "" ->
  let t := AddAll (newWildcardTrie sep) ops in
  separator t = sep /\ key t = "" /\ pattern t = ""
  /\ value t = root_binding ops
  /\ ((forall op, In op ops -> fst op <> "") -> value t = None).
Proof.
  intros Hsep t.
  destruct (AddAll_root ops (newWildcardTrie sep) Hsep) as (Es & Ek & Ep & Ev).
  fold t in Es, Ek, Ep, Ev. repeat split; try assumption.
  intros Hops. rewrite Ev. cbn [value newWildcardTrie].
  clear - Hops. induction ops as [|op ops IH]; [reflexivity|].
  cbn [fold_left].
  destruct (String.eqb_spec (fst op) "") as [E|_].
  - now elim (Hops op (or_introl eq_refl)).
  - apply IH. intros o Ho. apply Hops. now right.
Qed.

Lemma C8_root_node_witness :
  let t := AddAll (newWildcardTrie "/")
             [("", Some 5%Z); ("/foo", Some 1%Z); ("", Some 7%Z)] in
  separator t = "/" /\ key t = "" /\ pattern t = ""
  /\ value t = Some 7%Z.
Proof.
  destruct (C8_root_node Z "/"
              [("", Some 5%Z); ("/foo", Some 1%Z); ("", Some 7%Z)])
    as (Es & Ek & Ep & Ev & _).
  - discriminate.
  - repeat split; assumption.
Defined.

(** C8, the claim as stated fails: [Add("", 5)] binds 5 to the root. *)
Lemma C8_counterexample :
  let t := AddAll (newWildcardTrie "/") [("", Some 5%Z)] in
  key t = "" /\ value t = Some 5%Z /\ value t <> None.
Proof. repeat split; try reflexivity; discriminate. Qed.

(** C9 (as amended). For a trie whose root has the empty key: [Get("")]
    returns the value and the pattern of the root as they are, whether
    the value is set or not; [Get(separator)] does not look at the value
    of the root: it is the lookup of the empty segment among the children
    of the root, and it reports no match when no child has the empty key
    or the wildcard as key. *)
Theorem C9_root_lookup (V : Type) (t : wildcardTrie V) :
  separator t <> "" ->
  key t = "" ->
  Get t "" = Ok (value t, pattern t)
  /\ Get t (separator t)
     = Ok (first_match (get "" [] wildcard) (children t))
  /\ (forall v, Get (set_value v t) (separator t) = Get t (separator t))
  /\ ((forall c, In c (children t) -> key c <> "" /\ key c <> wildcard) ->
      Get t (separator t) = Ok (None, "")).
Proof.
  intros Hsep Hkey.
  assert (G : forall u : wildcardTrie V,
             separator u = separator t -> key u = "" ->
             Get u (separator t)
             = Ok (first_match (get "" [] wildcard) (children u))).
  { intros u Hs Hk. unfold Get. rewrite Hs, Split_sep by exact Hsep.
    cbn [String.eqb].
    now rewrite get_matching by (left; now rewrite Hk). }
  split; [|split; [|split]].
  - unfold Get. rewrite Split_empty by exact Hsep. cbn [String.eqb].
    now rewrite get_matching by (left; now rewrite Hkey).
  - now apply G.
  - intros v. now rewrite !G.
  - intros Hc. rewrite G by trivial. f_equal. apply first_match_none.
    intros c Hin. destruct (Hc c Hin) as [H1 H2].
    rewrite get_not_matching by congruence.
    destruct (String.eqb_spec (key c) ""); [contradiction|reflexivity].
Qed.

Lemma C9_root_lookup_witness :
  let t := AddAll (newWildcardTrie "/") [("", Some 5%Z); ("*", Some 9%Z)] in
  Get t "" = Ok (Some 5%Z, "") /\ Get t "/" = Ok (Some 9%Z, "/*").
Proof.
  destruct (C9_root_lookup Z
              (AddAll (newWildcardTrie "/") [("", Some 5%Z); ("*", Some 9%Z)]))
    as (E1 & E2 & _).
  - discriminate.
  - reflexivity.
  - split; [exact E1 | exact E2].
Defined.

(** C9, the claim as stated fails: with 5 bound to the root,
    [Get("/")] reports no match. *)
Lemma C9_counterexample :
  let t := AddAll (newWildcardTrie "/") [("", Some 5%Z)] in
  value t = Some 5%Z /\ Get t "" = Ok (Some 5%Z, "")
  /\ Get t "/" = Ok (None, "")
  /\ (forall pat, Get t "/" <> Ok (value t, pat)).
Proof. repeat split; try reflexivity. intros pat. discriminate. Qed.

(** *** First match wins *)

Section Order.

Context {V : Type}.

(** [grow] keeps the children in place and puts a new child last. *)
Lemma grow_children_keys pre x rest (v : iface V) (t : wildcardTrie V) :
  map key (children (grow pre (x :: rest) v t))
  = if existsb (fun c => String.eqb (key c) x) (children t)
    then map key (children t)
    else map key (children t) ++ [x].
Proof.
  cbn [grow].
  destruct (update_first (grow (pre ++ [x]) rest v) x (children t))
    as [cs|] eqn:E.
  - assert (F : existsb (fun c => String.eqb (key c) x) (children t) = true).
    { apply (update_first_found (grow (pre ++ [x]) rest v)). congruence. }
    rewrite F. cbn [children set_children].
    apply (update_first_keys (grow (pre ++ [x]) rest v) x); [|exact E].
    intros c. apply grow_key.
  - destruct (existsb (fun c => String.eqb (key c) x) (children t)) eqn:F.
    + apply (update_first_found (grow (pre ++ [x]) rest v)) in F.
      congruence.
    + cbn [children set_children]. rewrite map_app. cbn [map].
      now rewrite grow_fresh, grow_key.
Qed.

End Order.

(** *** The same pattern with and without the leading separator *)

Section Forget.

Context {V : Type}.
Implicit Types (t c : wildcardTrie V) (cs : list (wildcardTrie V)).

Lemma forget_patterns_eq t :
  forget_patterns t
  = mkTrie (separator t) (key t) "" (value t)
      (map forget_patterns (children t)).
Proof. now destruct t. Qed.

Lemma forget_fields t t' :
  forget_patterns t = forget_patterns t' ->
  separator t = separator t' /\ key t = key t' /\ value t = value t'
  /\ map forget_patterns (children t) = map forget_patterns (children t').
Proof.
  rewrite !forget_patterns_eq. intros H. injection H as Hs Hk Hv Hc.
  now repeat split.
Qed.

Lemma forget_set_value v t t' :
  forget_patterns t = forget_patterns t' ->
  forget_patterns (set_value v t) = forget_patterns (set_value v t').
Proof.
  intros H. apply forget_fields in H. destruct H as (Hs & Hk & _ & Hc).
  rewrite !forget_patterns_eq. cbn. now rewrite Hs, Hk, Hc.
Qed.

Lemma forget_set_children cs cs' t t' :
  forget_patterns t = forget_patterns t' ->
  map forget_patterns cs = map forget_patterns cs' ->
  forget_patterns (set_children cs t) = forget_patterns (set_children cs' t').
Proof.
  intros H Hc. apply forget_fields in H. destruct H as (Hs & Hk & Hv & _).
  rewrite !forget_patterns_eq. cbn. now rewrite Hs, Hk, Hv, Hc.
Qed.

Lemma update_first_forget (f f' : wildcardTrie V -> wildcardTrie V) k cs cs' :
  (forall c c', forget_patterns c = forget_patterns c' ->
                forget_patterns (f c) = forget_patterns (f' c')) ->
  map forget_patterns cs = map forget_patterns cs' ->
  option_map (map forget_patterns) (update_first f k cs)
  = option_map (map forget_patterns) (update_first f' k cs').
Proof.
  intros Hf. revert cs'; induction cs as [|c cs IH]; intros [|c' cs'] H;
    try discriminate H; [reflexivity|].
  cbn [map] in H. injection H as Hc Hcs.
  cbn [update_first].
  destruct (forget_fields _ _ Hc) as (_ & -> & _).
  destruct (String.eqb (key c') k).
  - cbn [option_map map]. now rewrite (Hf c c' Hc), Hcs.
  - specialize (IH cs' Hcs).
    destruct (update_first f k cs), (update_first f' k cs');
      cbn [option_map] in *; try congruence.
    injection IH as IH. cbn [map]. now rewrite Hc, IH.
Qed.

(** [grow] from two cursors on tries that agree but for their patterns
    gives tries that agree but for their patterns. *)
Lemma forget_grow rest : forall pre pre' v t t',
  forget_patterns t = forget_patterns t' ->
  forget_patterns (grow pre rest v t) = forget_patterns (grow pre' rest v t').
Proof.
  induction rest as [|x rest IH]; intros pre pre' v t t' H.
  - now apply forget_set_value.
  - cbn [grow].
    pose proof (update_first_forget
                  (grow (pre ++ [x]) rest v) (grow (pre' ++ [x]) rest v)
                  x (children t) (children t')
                  (IH (pre ++ [x]) (pre' ++ [x]) v)
                  (proj2 (proj2 (proj2 (forget_fields _ _ H))))) as U.
    destruct (update_first (grow (pre ++ [x]) rest v) x (children t)),
             (update_first (grow (pre' ++ [x]) rest v) x (children t'));
      cbn [option_map] in U; try discriminate U.
    + injection U as U. now apply forget_set_children.
    + apply forget_set_children; [exact H|].
      rewrite !map_app. cbn [map]. rewrite !grow_fresh.
      destruct (forget_fields _ _ H) as (-> & _ & _ & ->).
      f_equal. f_equal. now apply IH.
Qed.

End Forget.

(** C3 (as amended). For a trie whose root has the empty key, a
    non-empty separator and every non-empty pattern [p] that does not
    begin with the separator: [Add(separator + p, v)] and [Add(p, v)]
    either both panic and leave the trie as it was, or both return and
    give tries with the same separator, key, value and children at every
    node (the patterns of the nodes are not compared); and
    [Get(separator + p)] and [Get(p)] return the same pair. *)
Theorem C3_leading_separator
    (V : Type) (t : wildcardTrie V) (p : string) (v : iface V) :
  separator t <> "" ->
  key t = "" ->
  p <> "" ->
  HasPrefix p (separator t) = false ->
  match Add t (separator t ++ p) v, Add t p v with
  | Done a, Done b => forget_patterns a = forget_patterns b
  | Panic m a, Panic m' b => m = m' /\ a = t /\ b = t
  | _, _ => False
  end
  /\ Get t (separator t ++ p) = Get t p.
Proof.
  intros Hsep Hkey Hp Hpre.
  destruct (Split_head (separator t) Hsep p Hp Hpre) as (x & rest & E & Hx).
  unfold Add, Get. rewrite Split_sep_app by exact Hsep. rewrite E.
  cbn [String.eqb].
  destruct (String.eqb_spec x ""); [contradiction|].
  split.
  - change (List.last ("" :: x :: rest) "") with (List.last (x :: rest) "").
    destruct rest as [|y rest].
    + cbn [List.last List.length Nat.ltb Nat.leb andb].
      destruct (String.eqb_spec x ""); [contradiction|].
      now apply forget_grow.
    + cbn [List.length Nat.ltb Nat.leb andb].
      destruct (String.eqb (List.last (x :: y :: rest) "") "").
      * repeat split.
      * now apply forget_grow.
  - now rewrite get_matching by (left; now rewrite Hkey).
Qed.

Lemma C3_leading_separator_witness :
  forget_patterns (after (Add (newWildcardTrie "/") "/foo/bar" (Some 1%Z)))
  = forget_patterns (after (Add (newWildcardTrie "/") "foo/bar" (Some 1%Z)))
  /\ Get Tests.basicTrie "/foo/bar" = Get Tests.basicTrie "foo/bar".
Proof.
  split.
  - exact (proj1 (C3_leading_separator Z (newWildcardTrie "/") "foo/bar"
                    (Some 1%Z)
                    ltac:(discriminate) ltac:(reflexivity)
                    ltac:(discriminate) ltac:(reflexivity))).
  - exact (proj2 (C3_leading_separator Tests.val Tests.basicTrie "foo/bar"
                    None
                    ltac:(discriminate) ltac:(reflexivity)
                    ltac:(discriminate) ltac:(reflexivity))).
Defined.

(** C3, the claim as stated fails. The tries after [Add("/foo", 1)] and
    after [Add("foo", 1)] differ in the pattern of the node ("//foo" and
    "/foo"); for the empty string, which does not begin with the
    separator, [Add("/", 1)] panics where [Add("", 1)] binds the root,
    and [Get("/")] and [Get("")] differ on a trie whose root is bound. *)
Lemma C3_counterexample :
  let e := newWildcardTrie "/" in
  let bound := after (Add e "" (Some 5%Z)) in
  equals Z.eqb (after (Add e ("/" ++ "foo") (Some 1%Z)))
    (after (Add e "foo" (Some 1%Z))) = false
  /\ map pattern (children (after (Add e ("/" ++ "foo") (Some 1%Z)))) = ["//foo"]
  /\ map pattern (children (after (Add e "foo" (Some 1%Z)))) = ["/foo"]
  /\ Add e ("/" ++ "") (Some 1%Z) = Panic PathEndsWithSlash e
  /\ Add e "" (Some 1%Z) = Done (set_value (Some 1%Z) e)
  /\ Get bound ("/" ++ "") = Ok (None, "")
  /\ Get bound "" = Ok (Some 5%Z, "")
  /\ Get bound ("/" ++ "") <> Get bound "".
Proof. repeat split; try reflexivity; discriminate. Qed.

(** *** Adding the same pattern twice *)

Section GrowCases.

Context {V : Type}.
Implicit Types (t c d : wildcardTrie V) (cs : list (wildcardTrie V)).
Implicit Types (v : iface V) (pre rest : list string).

Lemma update_first_Some (f : wildcardTrie V -> wildcardTrie V) k cs cs' :
  update_first f k cs = Some cs' ->
  exists before c behind,
    cs = before ++ c :: behind /\ key c = k
    /\ (forall b, In b before -> key b <> k)
    /\ cs' = before ++ f c :: behind.
Proof.
  revert cs'; induction cs as [|c cs IH]; intros cs' H;
    cbn [update_first] in H; [discriminate|].
  destruct (String.eqb_spec (key c) k) as [E|E].
  - injection H as <-. exists [], c, cs. repeat split; [exact E|].
    intros b [].
  - destruct (update_first f k cs) as [l|]; [|discriminate].
    injection H as <-.
    destruct (IH l eq_refl) as (before & d & behind & -> & Hd & Hb & ->).
    exists (c :: before), d, behind. repeat split; [exact Hd|].
    intros b [<-|Hin]; [exact E | now apply Hb].
Qed.

Lemma update_first_None (f : wildcardTrie V -> wildcardTrie V) k cs :
  update_first f k cs = None <-> (forall b, In b cs -> key b <> k).
Proof.
  induction cs as [|c cs IH]; cbn [update_first].
  - split; [intros _ b [] | reflexivity].
  - destruct (String.eqb_spec (key c) k) as [E|E].
    + split; [discriminate|]. intros H. now elim (H c (or_introl eq_refl)).
    + destruct (update_first f k cs); cbn [option_map].
      * split; [discriminate|]. intros H.
        assert (N : Some l = None)
          by (apply IH; intros b Hb; apply H; now right).
        discriminate N.
      * split; [|reflexivity]. intros _ b [<-|Hb]; [exact E|].
        now apply (proj1 IH eq_refl).
Qed.

Lemma update_first_at (f : wildcardTrie V -> wildcardTrie V) k before c behind :
  key c = k -> (forall b, In b before -> key b <> k) ->
  update_first f k (before ++ c :: behind) = Some (before ++ f c :: behind).
Proof.
  intros Hc Hb. induction before as [|b before IH]; cbn [app update_first].
  - destruct (String.eqb_spec (key c) k); [reflexivity|contradiction].
  - destruct (String.eqb_spec (key b) k) as [E|_].
    + now elim (Hb b (or_introl eq_refl)).
    + rewrite IH; [reflexivity|]. intros d Hd. apply Hb. now right.
Qed.

(** [grow] goes down the first child with the key... *)
Lemma grow_at_child pre x rest v t before c behind :
  children t = before ++ c :: behind ->
  key c = x -> (forall b, In b before -> key b <> x) ->
  grow pre (x :: rest) v t
  = set_children (before ++ grow (pre ++ [x]) rest v c :: behind) t.
Proof.
  intros Hc Hk Hb. cbn [grow]. rewrite Hc.
  now rewrite (update_first_at _ x before c behind Hk Hb).
Qed.

(** ... and appends a child when there is none. *)
Lemma grow_at_new pre x rest v t :
  (forall b, In b (children t) -> key b <> x) ->
  grow pre (x :: rest) v t
  = set_children
      (children t
       ++ [grow (pre ++ [x]) rest v (newTrie (separator t) x (pre ++ [x]))])
      t.
Proof.
  intros Hb. cbn [grow].
  rewrite (proj2 (update_first_None _ x (children t)) Hb).
  now rewrite grow_fresh.
Qed.

Lemma children_cases x t :
  (exists before c behind,
      children t = before ++ c :: behind /\ key c = x
      /\ (forall b, In b before -> key b <> x))
  \/ (forall b, In b (children t) -> key b <> x).
Proof.
  destruct (update_first (fun c => c) x (children t)) as [l|] eqn:E.
  - left. apply update_first_Some in E.
    destruct E as (before & c & behind & H1 & H2 & H3 & _).
    now exists before, c, behind.
  - right. now apply (update_first_None (fun c => c)).
Qed.

Lemma set_at_at_child x rest v t before c behind :
  children t = before ++ c :: behind ->
  key c = x -> (forall b, In b before -> key b <> x) ->
  set_at (x :: rest) v t
  = set_children (before ++ set_at rest v c :: behind) t.
Proof.
  intros Hc Hk Hb. cbn [set_at]. rewrite Hc.
  now rewrite (update_first_at _ x before c behind Hk Hb).
Qed.

(** Adding a path a second time goes down the nodes of the first time:
    the result is that of adding it once with the second value... *)
Lemma grow_twice rest : forall pre v1 v2 t,
  grow pre rest v2 (grow pre rest v1 t) = grow pre rest v2 t.
Proof.
  induction rest as [|x rest IH]; intros pre v1 v2 t; [reflexivity|].
  destruct (children_cases x t)
    as [(before & c & behind & Hc & Hk & Hb) | Hn].
  - rewrite (grow_at_child pre x rest v1 t before c behind Hc Hk Hb).
    rewrite (grow_at_child pre x rest v2 t before c behind Hc Hk Hb).
    rewrite (grow_at_child pre x rest v2 _ before
               (grow (pre ++ [x]) rest v1 c) behind);
      [|reflexivity|now rewrite grow_key|exact Hb].
    now rewrite IH.
  - rewrite (grow_at_new pre x rest v1 t Hn).
    rewrite (grow_at_new pre x rest v2 t Hn).
    rewrite (grow_at_child pre x rest v2 _ (children t)
               (grow (pre ++ [x]) rest v1
                  (newTrie (separator t) x (pre ++ [x]))) []);
      [|reflexivity|now rewrite grow_key|exact Hn].
    now rewrite IH.
Qed.

(** ... and it only replaces the value at the end of the path. *)
Lemma grow_again_sets rest : forall pre v1 v2 t,
  grow pre rest v2 (grow pre rest v1 t)
  = set_at rest v2 (grow pre rest v1 t).
Proof.
  induction rest as [|x rest IH]; intros pre v1 v2 t; [reflexivity|].
  destruct (children_cases x t)
    as [(before & c & behind & Hc & Hk & Hb) | Hn].
  - rewrite (grow_at_child pre x rest v1 t before c behind Hc Hk Hb).
    rewrite (grow_at_child pre x rest v2 _ before
               (grow (pre ++ [x]) rest v1 c) behind);
      [|reflexivity|now rewrite grow_key|exact Hb].
    rewrite (set_at_at_child x rest v2 _ before
               (grow (pre ++ [x]) rest v1 c) behind);
      [|reflexivity|now rewrite grow_key|exact Hb].
    now rewrite IH.
  - rewrite (grow_at_new pre x rest v1 t Hn).
    rewrite (grow_at_child pre x rest v2 _ (children t)
               (grow (pre ++ [x]) rest v1
                  (newTrie (separator t) x (pre ++ [x]))) []);
      [|reflexivity|now rewrite grow_key|exact Hn].
    rewrite (set_at_at_child x rest v2 _ (children t)
               (grow (pre ++ [x]) rest v1
                  (newTrie (separator t) x (pre ++ [x]))) []);
      [|reflexivity|now rewrite grow_key|exact Hn].
    now rewrite IH.
Qed.

Lemma find_at k before c behind :
  key c = k -> (forall b, In b before -> key b <> k) ->
  find (fun c => String.eqb (key c) k) (before ++ c :: behind) = Some c.
Proof.
  intros Hc Hb. induction before as [|b before IH]; cbn [app find].
  - destruct (String.eqb_spec (key c) k); [reflexivity|contradiction].
  - destruct (String.eqb_spec (key b) k) as [E|_].
    + now elim (Hb b (or_introl eq_refl)).
    + apply IH. intros d Hd. apply Hb. now right.
Qed.

Lemma find_none k cs :
  (forall b, In b cs -> key b <> k) ->
  find (fun c => String.eqb (key c) k) cs = None.
Proof.
  intros Hb. induction cs as [|b cs IH]; cbn [find]; [reflexivity|].
  destruct (String.eqb_spec (key b) k) as [E|_].
  - now elim (Hb b (or_introl eq_refl)).
  - apply IH. intros d Hd. apply Hb. now right.
Qed.

Lemma set_at_key rest v t : key (set_at rest v t) = key t.
Proof.
  destruct rest as [|x rest]; cbn [set_at]; [reflexivity|].
  now destruct (update_first (set_at rest v) x (children t)).
Qed.

(** [set_at] replaces the value of the node at the end of the path. *)
Lemma node_at_set_at rest : forall v t,
  node_at rest (set_at rest v t) = option_map (set_value v) (node_at rest t).
Proof.
  induction rest as [|x rest IH]; intros v t; [reflexivity|].
  destruct (children_cases x t)
    as [(before & c & behind & Hc & Hk & Hb) | Hn].
  - rewrite (set_at_at_child x rest v t before c behind Hc Hk Hb).
    cbn [node_at children set_children].
    rewrite find_at by (rewrite ?set_at_key; assumption).
    rewrite Hc, find_at by assumption. apply IH.
  - cbn [set_at node_at].
    rewrite (proj2 (update_first_None _ x (children t)) Hn).
    now rewrite find_none.
Qed.

(** After [grow] the path leads to a node. *)
Lemma node_at_grow rest : forall pre v t,
  exists n, node_at rest (grow pre rest v t) = Some n.
Proof.
  induction rest as [|x rest IH]; intros pre v t.
  - now exists (set_value v t).
  - destruct (children_cases x t)
      as [(before & c & behind & Hc & Hk & Hb) | Hn].
    + rewrite (grow_at_child pre x rest v t before c behind Hc Hk Hb).
      cbn [node_at children set_children].
      rewrite find_at by (rewrite ?grow_key; assumption). apply IH.
    + rewrite (grow_at_new pre x rest v t Hn).
      cbn [node_at children set_children].
      rewrite (find_at x (children t) _ []) by (rewrite ?grow_key; trivial).
      apply IH.
Qed.

End GrowCases.

Section Invariant.

Context {V : Type}.
Variable sep : string.
Implicit Types (t c d : wildcardTrie V) (cs : list (wildcardTrie V)).
Implicit Types (v : iface V) (pre rest path : list string).

Lemma node_ok_inv path c :
  node_ok sep path c ->
  separator c = sep
  /\ pattern c = ("/" ++ Join (path ++ [key c]) sep)%string
  /\ (key c = "" -> children c <> [])
  /\ Forall (node_ok sep (path ++ [key c])) (children c).
Proof. intros H. inversion H; subst. cbn. now repeat split. Qed.

Lemma node_ok_make path c :
  separator c = sep ->
  pattern c = ("/" ++ Join (path ++ [key c]) sep)%string ->
  (key c = "" -> children c <> []) ->
  Forall (node_ok sep (path ++ [key c])) (children c) ->
  node_ok sep path c.
Proof.
  destruct c as [s k p v cs]. cbn. intros -> -> H1 H2. now constructor.
Qed.

Lemma last_cons_cons (x y : string) rest :
  List.last (x :: y :: rest) "" = List.last (y :: rest) "".
Proof. reflexivity. Qed.

(** A chain of new nodes. *)
Lemma fresh_ok rest : forall x path v,
  List.last (x :: rest) "" <> "" ->
  node_ok sep path (grow (path ++ [x]) rest v (newTrie sep x (path ++ [x]))).
Proof.
  induction rest as [|y rest IH]; intros x path v Hl.
  - cbn. constructor; [reflexivity|now cbn in Hl|constructor].
  - rewrite grow_at_new by (intros b []).
    apply node_ok_make; cbn; try reflexivity.
    + intros _. discriminate.
    + constructor; [|constructor]. apply IH. now rewrite <- last_cons_cons with (x := x).
Qed.

Lemma grow_node_ok rest : forall path c v,
  node_ok sep path c ->
  rest = [] \/ List.last rest "" <> "" ->
  node_ok sep path (grow (path ++ [key c]) rest v c).
Proof.
  induction rest as [|x rest IH]; intros path c v Hc Hl.
  - apply node_ok_inv in Hc. destruct Hc as (H1 & H2 & H3 & H4).
    now apply node_ok_make.
  - destruct Hl as [Hl|Hl]; [discriminate|].
    assert (Hrest : rest = [] \/ List.last rest "" <> "").
    { destruct rest; [now left | right; exact Hl]. }
    apply node_ok_inv in Hc. destruct Hc as (H1 & H2 & H3 & H4).
    destruct (children_cases x c)
      as [(before & d & behind & Hd & Hk & Hb) | Hn].
    + rewrite (grow_at_child _ x rest v c before d behind Hd Hk Hb).
      apply node_ok_make; cbn; try assumption.
      * intros _. now destruct before.
      * rewrite Hd in H4. apply Forall_app in H4. destruct H4 as [F1 F2].
        pose proof (Forall_inv F2) as F3. pose proof (Forall_inv_tail F2) as F4.
        apply Forall_app. split; [exact F1|].
        constructor; [|exact F4]. rewrite <- Hk. now apply IH.
    + rewrite (grow_at_new _ x rest v c Hn).
      apply node_ok_make; cbn; try assumption.
      * intros _. now destruct (children c).
      * apply Forall_app. split; [exact H4|].
        constructor; [|constructor]. rewrite H1. now apply fresh_ok.
Qed.

(** [grow] from the root keeps the invariant. *)
Lemma grow_root_ok x rest v t :
  root_ok sep t ->
  List.last (x :: rest) "" <> "" ->
  root_ok sep (grow [] (x :: rest) v t).
Proof.
  intros (Hs & Hk & Hc) Hl.
  assert (Hrest : rest = [] \/ List.last rest "" <> "").
  { destruct rest; [now left | right; exact Hl]. }
  destruct (grow_fields [] (x :: rest) v t) as (E1 & E2 & _).
  repeat split; [congruence | congruence |].
  destruct (children_cases x t)
    as [(before & d & behind & Hd & Hkd & Hb) | Hn].
  - rewrite (grow_at_child _ x rest v t before d behind Hd Hkd Hb). cbn.
    rewrite Hd in Hc. apply Forall_app in Hc. destruct Hc as [F1 F2].
    pose proof (Forall_inv F2) as F3. pose proof (Forall_inv_tail F2) as F4.
    apply Forall_app. split; [exact F1|].
    constructor; [|exact F4]. rewrite <- Hkd.
    now apply (grow_node_ok rest [] d v).
  - rewrite (grow_at_new _ x rest v t Hn). cbn.
    apply Forall_app. split; [exact Hc|].
    constructor; [|constructor]. rewrite Hs. now apply (fresh_ok rest x []).
Qed.

Lemma wildcard_free_inv c :
  wildcard_free c = true ->
  key c <> wildcard /\ forallb wildcard_free (children c) = true.
Proof.
  destruct c as [s k p v cs]. cbn [wildcard_free key children].
  intros H. apply andb_prop in H. destruct H as [H1 H2].
  split; [|exact H2].
  destruct (String.eqb_spec k wildcard); [discriminate|assumption].
Qed.

(** A sibling with another key takes no part in the lookup. *)
Lemma get_sibling x rest path (b : wildcardTrie V) :
  node_ok sep path b -> wildcard_free b = true -> key b <> x ->
  get x rest wildcard b = (None, "").
Proof.
  intros Hb Hw Hk. apply node_ok_inv in Hb. destruct Hb as (_ & _ & H3 & _).
  apply wildcard_free_inv in Hw. destruct Hw as [Hw _].
  rewrite get_not_matching by congruence.
  destruct (String.eqb_spec (key b) "") as [E|_]; [|reflexivity].
  destruct (children b); [now elim (H3 E) | reflexivity].
Qed.

Lemma get_siblings x rest path (bs : list (wildcardTrie V)) :
  Forall (node_ok sep path) bs -> forallb wildcard_free bs = true ->
  (forall b, In b bs -> key b <> x) ->
  forall b, In b bs -> snd (get x rest wildcard b) = "".
Proof.
  intros Hok Hw Hk b Hin.
  rewrite (get_sibling x rest path b); [reflexivity| | |].
  - now apply (proj1 (Forall_forall _ _) Hok).
  - now apply (proj1 (forallb_forall _ _) Hw).
  - now apply Hk.
Qed.

(** Looking up the path that [grow] has just added, in a trie without
    wildcard nodes. *)
Lemma get_grown rest : forall x pre t v,
  separator t = sep ->
  Forall (node_ok sep pre) (children t) ->
  forallb wildcard_free (children t) = true ->
  first_match (get x rest wildcard) (children (grow pre (x :: rest) v t))
  = (v, ("/" ++ Join (pre ++ x :: rest) sep)%string).
Proof.
  induction rest as [|y rest IH]; intros x pre t v Hs Hc Hw.
  - (* the last segment *)
    destruct (children_cases x t)
      as [(before & d & behind & Hd & Hk & Hb) | Hn].
    + rewrite (grow_at_child _ x [] v t before d behind Hd Hk Hb).
      cbn [children set_children grow].
      rewrite Hd in Hc, Hw. apply Forall_app in Hc. destruct Hc as [F1 F2].
      pose proof (Forall_inv F2) as F3.
      rewrite forallb_app in Hw. apply andb_prop in Hw. destruct Hw as [W1 _].
      apply node_ok_inv in F3. destruct F3 as (_ & Hp & _ & _).
      rewrite Hk in Hp.
      rewrite first_match_earliest.
      * rewrite get_matching by (now left). cbn. now rewrite Hp.
      * now apply (get_siblings x [] pre _ F1 W1 Hb).
      * rewrite get_matching by (now left). cbn. rewrite Hp. discriminate.
    + rewrite (grow_at_new _ x [] v t Hn). cbn [children set_children grow].
      rewrite first_match_earliest.
      * rewrite get_matching by (now left). cbn. now rewrite Hs.
      * now apply (get_siblings x [] pre _ Hc Hw Hn).
      * rewrite get_matching by (now left). discriminate.
  - (* a segment on the way *)
    assert (Hnode : forall d,
               key d = x -> separator d = sep ->
               Forall (node_ok sep (pre ++ [x])) (children d) ->
               forallb wildcard_free (children d) = true ->
               get x (y :: rest) wildcard (grow (pre ++ [x]) (y :: rest) v d)
               = (v, ("/" ++ Join (pre ++ x :: y :: rest) sep)%string)).
    { intros d Hk Hsd Hcd Hwd.
      rewrite get_matching by (left; now rewrite grow_key).
      rewrite (IH y (pre ++ [x]) d v Hsd Hcd Hwd).
      now rewrite <- app_assoc. }
    destruct (children_cases x t)
      as [(before & d & behind & Hd & Hk & Hb) | Hn].
    + rewrite (grow_at_child _ x (y :: rest) v t before d behind Hd Hk Hb).
      cbn [children set_children].
      rewrite Hd in Hc, Hw. apply Forall_app in Hc. destruct Hc as [F1 F2].
      pose proof (Forall_inv F2) as F3.
      rewrite forallb_app in Hw. apply andb_prop in Hw. destruct Hw as [W1 W2].
      cbn [forallb] in W2. apply andb_prop in W2. destruct W2 as [W2 _].
      apply node_ok_inv in F3. destruct F3 as (Hsd & _ & _ & Hcd).
      rewrite Hk in Hcd.
      apply wildcard_free_inv in W2. destruct W2 as [_ Hwd].
      rewrite first_match_earliest.
      * now apply Hnode.
      * now apply (get_siblings x (y :: rest) pre _ F1 W1 Hb).
      * rewrite Hnode by assumption. discriminate.
    + rewrite (grow_at_new _ x (y :: rest) v t Hn).
      cbn [children set_children].
      rewrite first_match_earliest.
      * apply Hnode; try reflexivity; [exact Hs | constructor].
      * now apply (get_siblings x (y :: rest) pre _ Hc Hw Hn).
      * rewrite Hnode; try reflexivity;
          [discriminate | exact Hs | constructor].
Qed.

End Invariant.

Section Overwrite.

Context {V : Type}.
Variable sep : string.
Hypothesis sep_nonempty : sep <> "".

(** More than one segment, the last of them empty: the string ends
    with the separator. *)
Lemma Split_last_empty (p : string) :
  (1 <? List.length (Split p sep))%nat = true ->
  List.last (Split p sep) "" = "" ->
  HasSuffix p sep = true.
Proof.
  intros Hlen Hlast. apply Nat.ltb_lt in Hlen.
  rewrite <- (Join_Split sep sep_nonempty p).
  destruct (Split p sep) as [|a [|b l]] eqn:E; cbn in Hlen; try lia.
  rewrite (app_removelast_last "" (l := a :: b :: l)) by discriminate.
  rewrite Hlast. rewrite Join_snoc by discriminate.
  rewrite string_app_nil_r. apply HasSuffix_app.
Qed.

(** The segments of a pattern that [Add] accepts and that does not
    begin with the separator. *)
Lemma Split_accepted (p : string) :
  p <> "" -> HasPrefix p sep = false -> HasSuffix p sep = false ->
  exists x rest,
    Split p sep = x :: rest /\ x <> ""
    /\ List.last (x :: rest) "" <> ""
    /\ (1 <? List.length (x :: rest))%nat
       && String.eqb (List.last (x :: rest) "") "" = false.
Proof.
  intros Hp Hpre Hsuf.
  destruct (Split_head sep sep_nonempty p Hp Hpre) as (x & rest & E & Hx).
  exists x, rest. split; [exact E|]. split; [exact Hx|].
  assert (Hl : List.last (x :: rest) "" <> "").
  { destruct rest as [|y rest]; [exact Hx|].
    intros Hl. rewrite <- E in Hl.
    rewrite Split_last_empty in Hsuf; [discriminate| |exact Hl].
    now rewrite E. }
  split; [exact Hl|].
  destruct (String.eqb_spec (List.last (x :: rest) "") "");
    [contradiction | apply andb_false_r].
Qed.

Lemma Add_root_ok (t : wildcardTrie V) (s : string) (v : iface V) :
  root_ok sep t -> HasPrefix s sep = false ->
  root_ok sep (after (Add t s v)).
Proof.
  intros Hok Hpre. pose proof Hok as (Hs & Hk & Hc).
  unfold Add. rewrite Hs.
  destruct (String.eqb_spec s "") as [->|Hne].
  - rewrite Split_empty by exact sep_nonempty. cbn. now repeat split.
  - destruct (Split_head sep sep_nonempty s Hne Hpre) as (x & rest & -> & Hx).
    destruct ((1 <? List.length (x :: rest))%nat
              && String.eqb (List.last (x :: rest) "") "") eqn:Hpanic;
      [exact Hok|].
    destruct (String.eqb_spec x ""); [contradiction|].
    cbn [after]. apply grow_root_ok; [exact Hok|].
    destruct rest as [|y rest]; [exact Hx|].
    cbn [List.length Nat.ltb Nat.leb andb] in Hpanic.
    now destruct (String.eqb_spec (List.last (x :: y :: rest) "") "").
Qed.

Lemma AddAll_root_ok (ops : list (string * iface V)) (t : wildcardTrie V) :
  root_ok sep t ->
  forallb (fun op => negb (HasPrefix (fst op) sep)) ops = true ->
  root_ok sep (AddAll t ops).
Proof.
  revert t; induction ops as [|[s v] ops IH]; intros t Hok Hops;
    [exact Hok|].
  cbn [forallb fst] in Hops. apply andb_prop in Hops.
  destruct Hops as [H1 H2]. apply negb_true_iff in H1.
  cbn [AddAll fold_left fst snd]. apply IH; [|exact H2].
  now apply Add_root_ok.
Qed.

Lemma newWildcardTrie_root_ok : root_ok sep (newWildcardTrie (V:=V) sep).
Proof. repeat split. constructor. Qed.

(** The same pattern added twice, then looked up. *)
Lemma overwrite_lookup (t : wildcardTrie V) (p : string) (v1 v2 : iface V) :
  root_ok sep t -> wildcard_free t = true ->
  p <> "" -> HasPrefix p sep = false -> HasSuffix p sep = false ->
  exists t1 t2 n,
    Add t p v1 = Done t1 /\ Add t1 p v2 = Done t2
    /\ Get t2 p = Ok (v2, ("/" ++ p)%string)
    /\ t2 = set_at (Split p sep) v2 t1
    /\ node_at (Split p sep) t1 = Some n
    /\ node_at (Split p sep) t2 = Some (set_value v2 n).
Proof.
  intros (Hs & Hk & Hc) Hw Hp Hpre Hsuf.
  destruct (Split_accepted p Hp Hpre Hsuf) as (x & rest & E & Hx & Hl & Hpanic).
  destruct (node_at_grow (x :: rest) [] v1 t) as [n Hn].
  exists (grow [] (x :: rest) v1 t),
         (grow [] (x :: rest) v2 (grow [] (x :: rest) v1 t)), n.
  assert (Es : separator (grow [] (x :: rest) v1 t) = sep).
  { destruct (grow_fields [] (x :: rest) v1 t) as (-> & _). exact Hs. }
  assert (A1 : Add t p v1 = Done (grow [] (x :: rest) v1 t)).
  { unfold Add. rewrite Hs, E, Hpanic.
    destruct (String.eqb_spec x ""); [contradiction|reflexivity]. }
  assert (A2 : Add (grow [] (x :: rest) v1 t) p v2
               = Done (grow [] (x :: rest) v2 (grow [] (x :: rest) v1 t))).
  { unfold Add. rewrite Es, E, Hpanic.
    destruct (String.eqb_spec x ""); [contradiction|reflexivity]. }
  split; [exact A1|]. split; [exact A2|]. split.
  - rewrite grow_twice. unfold Get.
    destruct (grow_fields [] (x :: rest) v2 t) as (-> & _).
    rewrite Hs, E.
    destruct (String.eqb_spec x ""); [contradiction|].
    rewrite (get_grown sep rest x [] t v2 Hs Hc
               (proj2 (wildcard_free_inv t Hw))).
    cbn [app]. rewrite <- E. now rewrite Join_Split.
  - rewrite E. split; [apply grow_again_sets|]. split; [exact Hn|].
    now rewrite grow_again_sets, node_at_set_at, Hn.
Qed.

End Overwrite.

(** *** [equals] and the invariant on patterns *)

Section EqualsFacts.

Context {V : Type}.
Variable V_eqb : V -> V -> bool.
Hypothesis V_eqb_eq : forall x y, V_eqb x y = true <-> x = y.

Lemma DeepEqual_eq (a b : iface V) : DeepEqual V_eqb a b = true <-> a = b.
Proof.
  destruct a as [x|], b as [y|]; cbn; try (split; congruence).
  rewrite V_eqb_eq. split; congruence.
Qed.

(** [equals] holds of equal tries only. *)
Lemma equals_eq (t other : wildcardTrie V) :
  equals V_eqb t other = true <-> t = other.
Proof.
  revert other. induction t as [sep k p v cs IH] using wildcardTrie_ind.
  intros [sep' k' p' v' cs']. cbn [equals].
  destruct (String.eqb_spec sep sep') as [->|N]; cbn [negb];
    [|split; congruence].
  destruct (String.eqb_spec k k') as [->|N]; cbn [negb];
    [|split; congruence].
  destruct (String.eqb_spec p p') as [->|N]; cbn [negb];
    [|split; congruence].
  destruct (DeepEqual V_eqb v v') eqn:D; cbn [negb].
  2:{ split; [discriminate|]. intros E. injection E as E1 E2.
      apply DeepEqual_eq in E1. congruence. }
  apply DeepEqual_eq in D. subst v'.
  destruct (Nat.eqb_spec (List.length cs) (List.length cs')) as [L|N];
    cbn [negb]; [|split; congruence].
  enough (R : (fix range (cs os : list (wildcardTrie V)) {struct cs} : bool :=
                 match cs, os with
                 | c :: cs1, o :: os1 =>
                     if negb (equals V_eqb c o) then false else range cs1 os1
                 | _, _ => true
                 end) cs cs' = true <-> cs = cs').
  { rewrite R. split; congruence. }
  clear - IH L. revert cs' L.
  induction IH as [|c cs Hc _ IHcs]; intros [|o os] L; try discriminate L.
  - split; reflexivity.
  - injection L as L. specialize (IHcs os L).
    destruct (equals V_eqb c o) eqn:E; cbn [negb].
    + apply Hc in E. subst o. rewrite IHcs. split; congruence.
    + split; [discriminate|]. intros Eq. injection Eq as E1 E2.
      apply Hc in E1. congruence.
Qed.

End EqualsFacts.

Section PatternInvariant.

Context {V : Type}.

(** With "/" as separator the patterns that [node_ok] describes are
    those of the invariant on [fullPattern]. *)
Lemma node_ok_joined (c : wildcardTrie V) : forall path,
  node_ok "/" path c -> joined_from "/" "/" path c = true.
Proof.
  induction c as [sep k p v cs IH] using wildcardTrie_ind.
  intros path H. apply node_ok_inv in H. cbn in H.
  destruct H as (_ & -> & _ & Hc).
  cbn [joined_from]. rewrite String.eqb_refl. cbn [andb].
  apply forallb_forall. intros d Hd.
  apply (proj1 (Forall_forall _ _) IH d Hd).
  apply (proj1 (Forall_forall _ _) Hc d Hd).
Qed.

(** The invariant holds when "/" is the separator and no pattern was
    added with a leading separator. *)
Lemma fullPattern_ok_plain (ops : list (string * iface V)) :
  forallb (fun op => negb (HasPrefix (fst op) "/")) ops = true ->
  fullPattern_ok (AddAll (newWildcardTrie "/") ops) = true.
Proof.
  intros Hops.
  destruct (AddAll_root_ok "/" ltac:(discriminate) ops (newWildcardTrie "/")
              (newWildcardTrie_root_ok "/") Hops) as (Hs & _ & Hc).
  unfold fullPattern_ok. rewrite Hs.
  apply forallb_forall. intros d Hd. apply node_ok_joined.
  apply (proj1 (Forall_forall _ _) Hc d Hd).
Qed.

End PatternInvariant.

(** ** More on [Add] *)

Section AddFacts.

Context {V : Type}.
Implicit Types (t c d n : wildcardTrie V) (v : iface V).
Implicit Types (pre rest q : list string).

(** A call of [Add] that returns has grown the trie along the keys of
    the pattern. *)
Lemma Add_Done t p v t' :
  Add t p v = Done t' ->
  exists pre, t' = grow pre (path_keys p (separator t)) v t.
Proof.
  unfold Add, path_keys. intros H.
  destruct (Split p (separator t)) as [|x0 tl]; [discriminate|].
  destruct ((1 <? List.length (x0 :: tl))%nat
            && String.eqb (List.last (x0 :: tl) "") ""); [discriminate|].
  destruct (String.eqb x0 "");
    apply (f_equal after) in H; cbn [after] in H; subst t';
    [exists [x0] | exists []]; reflexivity.
Qed.

Lemma Add_separator t p v : separator (after (Add t p v)) = separator t.
Proof.
  unfold Add.
  destruct (Split p (separator t)) as [|x0 tl]; [reflexivity|].
  destruct ((1 <? List.length (x0 :: tl))%nat
            && String.eqb (List.last (x0 :: tl) "") ""); [reflexivity|].
  destruct (String.eqb x0 ""); cbn [after]; apply grow_fields.
Qed.

(** [Add] on the trie that an [Add] of the same pattern has left. *)
Lemma Add_again t p v1 v2 t1 :
  Add t p v1 = Done t1 -> Add t1 p v2 = Add t p v2.
Proof.
  intros H. pose proof (Add_separator t p v1) as Hs.
  rewrite H in Hs. cbn [after] in Hs.
  unfold Add in *. rewrite Hs.
  destruct (Split p (separator t)) as [|x0 tl]; [discriminate|].
  destruct ((1 <? List.length (x0 :: tl))%nat
            && String.eqb (List.last (x0 :: tl) "") ""); [discriminate|].
  destruct (String.eqb x0 "");
    apply (f_equal after) in H; cbn [after] in H; subst t1;
    now rewrite grow_twice.
Qed.

Lemma find_app_found (f : wildcardTrie V -> bool) (l l' : list (wildcardTrie V)) c :
  find f l = Some c -> find f (l ++ l') = Some c.
Proof.
  induction l as [|a l IH]; cbn [find app]; [discriminate|].
  destruct (f a); [trivial | exact IH].
Qed.

Lemma find_other_key y before d d' behind :
  key d' = key d -> key d <> y ->
  find (fun c => String.eqb (key c) y) (before ++ d' :: behind)
  = find (fun c => String.eqb (key c) y) (before ++ d :: behind).
Proof.
  intros Hk Hy. induction before as [|b before IH]; cbn [app find].
  - rewrite Hk. now destruct (String.eqb_spec (key d) y).
  - now rewrite IH.
Qed.

(** The node at the end of the keys holds the value. *)
Lemma node_at_grow_value rest : forall pre v t,
  exists n, node_at rest (grow pre rest v t) = Some n /\ value n = v.
Proof.
  induction rest as [|x rest IH]; intros pre v t.
  - exists (set_value v t). now split.
  - destruct (children_cases x t)
      as [(before & c & behind & Hc & Hk & Hb) | Hn].
    + rewrite (grow_at_child pre x rest v t before c behind Hc Hk Hb).
      cbn [node_at children set_children].
      rewrite find_at by (rewrite ?grow_key; assumption). apply IH.
    + rewrite (grow_at_new pre x rest v t Hn).
      cbn [node_at children set_children].
      rewrite (find_at x (children t) _ []) by (rewrite ?grow_key; trivial).
      apply IH.
Qed.

(** [grow] keeps every node, with its separator, key and pattern, and
    with its value but at the end of the keys it follows. *)
Lemma grow_frame q : forall rest pre v t n,
  node_at q t = Some n ->
  exists n',
    node_at q (grow pre rest v t) = Some n'
    /\ separator n' = separator n /\ key n' = key n
    /\ pattern n' = pattern n
    /\ (q <> rest -> value n' = value n).
Proof.
  induction q as [|y q IH]; intros rest pre v t n Hn.
  - cbn [node_at] in *. injection Hn as <-.
    exists (grow pre rest v t). split; [reflexivity|].
    destruct (grow_fields pre rest v t) as (-> & -> & ->).
    repeat split. intros Hq. destruct rest as [|x rest]; [congruence|].
    apply grow_cons_value.
  - cbn [node_at] in Hn.
    destruct (find (fun c => String.eqb (key c) y) (children t))
      as [c|] eqn:F; [|discriminate].
    destruct rest as [|x rest].
    + exists n. cbn [grow node_at children set_value]. rewrite F.
      repeat split; trivial.
    + destruct (children_cases x t)
        as [(before & d & behind & Hc & Hk & Hb) | Hnew].
      * rewrite (grow_at_child pre x rest v t before d behind Hc Hk Hb).
        cbn [node_at children set_children].
        destruct (String.eqb_spec y x) as [->|Hyx].
        -- rewrite Hc, find_at in F by assumption. injection F as <-.
           rewrite find_at by (rewrite ?grow_key; assumption).
           destruct (IH rest (pre ++ [x]) v d n Hn) as (n' & H1 & H2 & H3 & H4 & H5).
           exists n'. repeat split; trivial.
           intros Hq. apply H5. congruence.
        -- rewrite (find_other_key y before d) by
             (rewrite ?grow_key; congruence).
           rewrite <- Hc, F. exists n. repeat split; trivial.
      * rewrite (grow_at_new pre x rest v t Hnew).
        cbn [node_at children set_children].
        rewrite (find_app_found _ _ _ c F). exists n. repeat split; trivial.
Qed.

(** With the empty separator the pieces of a string are never empty. *)
Lemma explode_from_pieces (s : string) : forall k,
  Forall (fun x => x <> "") (explode_from k s).
Proof.
  induction s as [|c s IH]; intros k; cbn [explode_from]; [constructor|].
  destruct (match k with 0 => pred (rune_width c s) | S j => j end) as [|k'].
  - constructor; [discriminate | apply IH].
  - specialize (IH (S k')).
    destruct (explode_from (S k') s) as [|seg segs].
    + constructor; [discriminate|constructor].
    + constructor; [discriminate|]. now apply Forall_inv_tail in IH.
Qed.

Lemma explode_not_nil (s : string) : s <> "" -> explode s <> [].
Proof.
  destruct s as [|c s]; [congruence|]. intros _.
  unfold explode. cbn [explode_from].
  destruct (pred (rune_width c s)); [discriminate|].
  destruct (explode_from _ s); discriminate.
Qed.

Lemma last_not_empty (l : list string) :
  l <> [] -> Forall (fun x => x <> "") l -> List.last l "" <> "".
Proof.
  induction l as [|a l IH]; intros Hl F; [congruence|].
  destruct l as [|b l]; [exact (Forall_inv F)|].
  apply IH; [discriminate | exact (Forall_inv_tail F)].
Qed.

End AddFacts.

(** X1. Last write wins, as tries: after a call [Add(p, v1)] that
    returned, [Add(p, v2)] leaves the trie that [Add(p, v2)] alone
    would have left. *)
Theorem Add_last_write_wins
    (V : Type) (t t1 : wildcardTrie V) (p : string) (v1 v2 : iface V) :
  Add t p v1 = Done t1 ->
  Add t1 p v2 = Add t p v2.
Proof. apply Add_again. Qed.

Lemma Add_last_write_wins_witness :
  Add (after (Add Tests.basicTrie "foo/new/leaf" (Tests.int 1)))
    "foo/new/leaf" (Tests.int 2)
  = Add Tests.basicTrie "foo/new/leaf" (Tests.int 2).
Proof.
  apply (Add_last_write_wins Tests.val Tests.basicTrie _ "foo/new/leaf"
           (Tests.int 1) (Tests.int 2)).
  reflexivity.
Defined.

(** X2. Insertion is idempotent: a second [Add] of the same pattern
    with the same value returns and changes nothing. *)
Theorem Add_idempotent
    (V : Type) (t t1 : wildcardTrie V) (p : string) (v : iface V) :
  Add t p v = Done t1 ->
  Add t1 p v = Done t1.
Proof. intros H. now rewrite (Add_again t p v v t1 H). Qed.

Lemma Add_idempotent_witness :
  Add (after (Add Tests.basicTrie "/foo/*/x" (Tests.int 7))) "/foo/*/x"
    (Tests.int 7)
  = Done (after (Add Tests.basicTrie "/foo/*/x" (Tests.int 7))).
Proof.
  apply (Add_idempotent Tests.val Tests.basicTrie _ "/foo/*/x" (Tests.int 7)).
  reflexivity.
Defined.

(** X3. [Add] rejects a trailing separator and nothing else: with a
    non-empty separator, a pattern that does not end with the separator
    is accepted, whatever the trie; with a separator of one byte, a
    pattern that ends with it is rejected. *)
Theorem Add_accepts
    (V : Type) (t : wildcardTrie V) (p : string) (v : iface V) :
  separator t <> "" ->
  (HasSuffix p (separator t) = false -> exists t', Add t p v = Done t')
  /\ (String.length (separator t) = 1 ->
      HasSuffix p (separator t) = true ->
      Add t p v = Panic PathEndsWithSlash t).
Proof.
  intros Hsep. split.
  - intros Hsuf. unfold Add.
    destruct (Split p (separator t)) as [|x0 tl] eqn:E;
      [now apply Split_not_nil in E|].
    destruct ((1 <? List.length (x0 :: tl))%nat) eqn:L; cbn [andb].
    + destruct (String.eqb_spec (List.last (x0 :: tl) "") "") as [El|_].
      * rewrite <- E in L, El.
        rewrite (Split_last_empty _ Hsep p L El) in Hsuf. discriminate.
      * destruct (String.eqb x0 ""); eauto.
    + destruct (String.eqb x0 ""); eauto.
  - intros Hone Hsuf.
    destruct (separator t) as [|a [|b s']] eqn:Es; try discriminate Hone.
    pose proof (HasSuffix_last_empty p a Hsuf) as Hl.
    pose proof (HasSuffix_inv _ _ Hsuf) as [q ->].
    unfold Add. rewrite Es.
    destruct (split_from_char_suffix a q) as (init & Hi & Hq).
    rewrite Split_nonempty_sep in Hl |- * by discriminate.
    rewrite Hq in Hl |- *.
    destruct init as [|i0 init]; [congruence|].
    cbn [app] in Hl |- *. rewrite Hl.
    replace (1 <? List.length (i0 :: init ++ [""]))%nat with true;
      [reflexivity|].
    symmetry. apply Nat.ltb_lt. cbn [List.length].
    rewrite length_app. cbn. lia.
Qed.

Lemma Add_accepts_witness :
  (exists t', Add Tests.basicTrie "/a//b" (Tests.int 1) = Done t')
  /\ Add Tests.basicTrie "/a//b/" (Tests.int 1)
     = Panic PathEndsWithSlash Tests.basicTrie.
Proof.
  destruct (Add_accepts Tests.val Tests.basicTrie "/a//b" (Tests.int 1))
    as [H1 _]; [discriminate|].
  destruct (Add_accepts Tests.val Tests.basicTrie "/a//b/" (Tests.int 1))
    as [_ H2]; [discriminate|].
  split; [apply H1 | apply H2]; reflexivity.
Defined.

(** X4. After a call [Add(p, v)] that returned, the keys of [p] lead
    to a node and that node holds [v]. *)
Theorem Add_binds
    (V : Type) (t t' : wildcardTrie V) (p : string) (v : iface V) :
  Add t p v = Done t' ->
  exists n,
    node_at (path_keys p (separator t)) t' = Some n /\ value n = v.
Proof.
  intros H. destruct (Add_Done t p v t' H) as [pre ->].
  apply node_at_grow_value.
Qed.

Lemma Add_binds_witness :
  exists n,
    node_at ["foo"; "*"; "x"]
      (after (Add Tests.basicTrie "/foo/*/x" (Tests.int 7))) = Some n
    /\ value n = Tests.int 7.
Proof.
  apply (Add_binds Tests.val Tests.basicTrie _ "/foo/*/x" (Tests.int 7)).
  reflexivity.
Defined.

(** X5. [Add] removes nothing and touches one value only: a node that
    some keys lead to before the call is led to by the same keys after
    it, with the same separator, key and pattern, and with the same
    value unless the keys are those of the pattern. *)
Theorem Add_frame
    (V : Type) (t t' n : wildcardTrie V) (p : string) (v : iface V)
    (q : list string) :
  Add t p v = Done t' ->
  node_at q t = Some n ->
  exists n',
    node_at q t' = Some n'
    /\ separator n' = separator n /\ key n' = key n
    /\ pattern n' = pattern n
    /\ (q <> path_keys p (separator t) -> value n' = value n).
Proof.
  intros H Hn. destruct (Add_Done t p v t' H) as [pre ->].
  now apply grow_frame.
Qed.

Lemma Add_frame_witness :
  exists n',
    node_at ["foo"; "bla"]
      (after (Add Tests.basicTrie "foo/bla/*" (Tests.int 7))) = Some n'
    /\ separator n' = "/" /\ key n' = "bla" /\ pattern n' = "/foo/bla"
    /\ value n' = Tests.int 5.
Proof.
  destruct (Add_frame Tests.val Tests.basicTrie
              (after (Add Tests.basicTrie "foo/bla/*" (Tests.int 7)))
              (mkTrie "/" "bla" "/foo/bla" (Tests.int 5)
                 [Tests.leaf "*" "/foo/bla/*" (Tests.int 6)])
              "foo/bla/*" (Tests.int 7) ["foo"; "bla"])
    as (n' & H1 & H2 & H3 & H4 & H5).
  - reflexivity.
  - reflexivity.
  - exists n'. repeat split; trivial. apply H5. discriminate.
Defined.

(** X6. With the empty separator, [Add("")] and [Get("")] panic on the
    first segment that [Split] does not return, and the trie is as it
    was; every other string is accepted by both. *)
Theorem empty_separator
    (V : Type) (t : wildcardTrie V) (s : string) (v : iface V) :
  separator t = "" ->
  Add t "" v = Panic IndexOutOfRange t
  /\ Get t "" = Panics IndexOutOfRange
  /\ (s <> "" ->
      (exists t', Add t s v = Done t') /\ (exists r, Get t s = Ok r)).
Proof.
  intros Hs. unfold Add, Get. rewrite Hs.
  split; [reflexivity|]. split; [reflexivity|].
  intros Hne. unfold Split. cbn [String.eqb].
  pose proof (explode_not_nil s Hne) as Hnil.
  pose proof (explode_from_pieces s 0) as Hp. fold (explode s) in Hp.
  destruct (explode s) as [|x0 tl]; [congruence|].
  pose proof (last_not_empty (x0 :: tl) ltac:(discriminate) Hp) as Hl.
  destruct (String.eqb_spec (List.last (x0 :: tl) "") ""); [contradiction|].
  rewrite andb_false_r.
  destruct (String.eqb x0 ""); split; eauto.
Qed.

Lemma empty_separator_witness :
  Add (newWildcardTrie "") "" (Some 1%Z)
  = Panic IndexOutOfRange (newWildcardTrie "")
  /\ Get (newWildcardTrie (V:=Z) "") "" = Panics IndexOutOfRange
  /\ (exists t', Add (newWildcardTrie "") "ab" (Some 1%Z) = Done t')
  /\ (exists r, Get (newWildcardTrie (V:=Z) "") "ab" = Ok r).
Proof.
  destruct (empty_separator Z (newWildcardTrie "") "ab" (Some 1%Z))
    as (H1 & H2 & H3); [reflexivity|].
  destruct H3 as [H3 H4]; [discriminate|].
  repeat split; assumption.
Defined.

(** ** What every trie built by [Add] satisfies *)

Section BuiltFacts.

Context {V : Type}.
Implicit Types (t c d n : wildcardTrie V) (v : iface V).
Implicit Types (pre rest path : list string).

Lemma NoDup_snoc (l : list string) (x : string) :
  NoDup l -> ~ In x l -> NoDup (l ++ [x]).
Proof.
  induction l as [|a l IH]; intros Hl Hx; cbn [app].
  - constructor; [intros [] | constructor].
  - inversion Hl as [|? ? Ha Hl']; subst. constructor.
    + rewrite in_app_iff. intros [H|[H|[]]]; [contradiction|].
      apply Hx. now left.
    + apply IH; [exact Hl'|]. intros H. apply Hx. now right.
Qed.

Lemma distinct_keys_inv t :
  distinct_keys t ->
  NoDup (map key (children t)) /\ Forall distinct_keys (children t).
Proof. intros H. inversion H; subst. now split. Qed.

Lemma distinct_keys_make t :
  NoDup (map key (children t)) -> Forall distinct_keys (children t) ->
  distinct_keys t.
Proof. destruct t. cbn. now constructor. Qed.

(** [grow] keeps the keys of siblings distinct. *)
Lemma grow_distinct_keys rest : forall pre v t,
  distinct_keys t -> distinct_keys (grow pre rest v t).
Proof.
  induction rest as [|x rest IH]; intros pre v t Ht.
  - apply distinct_keys_inv in Ht. now apply distinct_keys_make.
  - pose proof (grow_children_keys pre x rest v t) as Hk.
    apply distinct_keys_inv in Ht. destruct Ht as [Hn Hf].
    apply distinct_keys_make.
    + rewrite Hk.
      destruct (existsb (fun c => String.eqb (key c) x) (children t)) eqn:E;
        [exact Hn|].
      apply NoDup_snoc; [exact Hn|].
      rewrite in_map_iff. intros (c & Hc & Hin).
      assert (existsb (fun c => String.eqb (key c) x) (children t) = true).
      { apply existsb_exists. exists c. split; [exact Hin|].
        now apply String.eqb_eq. }
      congruence.
    + destruct (children_cases x t)
        as [(before & d & behind & Hc & Hkd & Hb) | Hnew].
      * rewrite (grow_at_child pre x rest v t before d behind Hc Hkd Hb).
        cbn [children set_children].
        rewrite Hc in Hf. apply Forall_app in Hf. destruct Hf as [F1 F2].
        apply Forall_app. split; [exact F1|].
        constructor; [|exact (Forall_inv_tail F2)].
        apply IH. exact (Forall_inv F2).
      * rewrite (grow_at_new pre x rest v t Hnew).
        cbn [children set_children].
        apply Forall_app. split; [exact Hf|].
        constructor; [|constructor]. apply IH.
        apply distinct_keys_make; cbn; constructor.
Qed.

Lemma Add_distinct_keys t p v :
  distinct_keys t -> distinct_keys (after (Add t p v)).
Proof.
  intros Ht. unfold Add.
  destruct (Split p (separator t)) as [|x0 tl]; [exact Ht|].
  destruct ((1 <? List.length (x0 :: tl))%nat
            && String.eqb (List.last (x0 :: tl) "") ""); [exact Ht|].
  destruct (String.eqb x0 ""); cbn [after]; now apply grow_distinct_keys.
Qed.

Lemma AddAll_distinct_keys (ops : list (string * iface V)) : forall t,
  distinct_keys t -> distinct_keys (AddAll t ops).
Proof.
  induction ops as [|[p v] ops IH]; intros t Ht; [exact Ht|].
  cbn [AddAll fold_left fst snd]. apply IH. now apply Add_distinct_keys.
Qed.

Lemma newWildcardTrie_distinct_keys sep :
  distinct_keys (newWildcardTrie (V:=V) sep).
Proof. apply distinct_keys_make; cbn; constructor. Qed.

Lemma built_ok_eq sep c :
  built_ok sep c
  = String.eqb (separator c) sep
    && String.prefix "/" (pattern c)
    && negb (String.eqb (key c) "" && (List.length (children c) =? 0)%nat)
    && forallb (built_ok sep) (children c).
Proof. now destruct c. Qed.

Lemma built_ok_inv sep c :
  built_ok sep c = true ->
  separator c = sep
  /\ String.prefix "/" (pattern c) = true
  /\ (key c = "" -> children c <> [])
  /\ forallb (built_ok sep) (children c) = true.
Proof.
  rewrite built_ok_eq. intros H.
  apply andb_prop in H. destruct H as [H H4].
  apply andb_prop in H. destruct H as [H H3].
  apply andb_prop in H. destruct H as [H1 H2].
  apply String.eqb_eq in H1. repeat split; try assumption.
  intros Hk Hc. rewrite Hk, Hc in H3. discriminate.
Qed.

Lemma built_ok_make sep c :
  separator c = sep ->
  String.prefix "/" (pattern c) = true ->
  (key c = "" -> children c <> []) ->
  forallb (built_ok sep) (children c) = true ->
  built_ok sep c = true.
Proof.
  intros H1 H2 H3 H4. rewrite built_ok_eq, H1, H2, H4, String.eqb_refl.
  cbn [andb]. rewrite andb_true_r. apply negb_true_iff.
  destruct (String.eqb_spec (key c) "") as [E|_]; [|reflexivity].
  cbn [andb]. destruct (children c); [now elim (H3 E) | reflexivity].
Qed.

(** A chain of new nodes. *)
Lemma fresh_built_ok sep rest : forall x pre path v,
  List.last (x :: rest) "" <> "" ->
  built_ok sep (grow pre rest v (newTrie sep x path)) = true.
Proof.
  induction rest as [|y rest IH]; intros x pre path v Hl.
  - cbn in Hl.
    apply built_ok_make;
      cbn [grow separator key pattern children set_value newTrie forallb];
      trivial.
    + apply prefix_app.
    + intros E. now elim Hl.
  - rewrite grow_at_new by (intros b []).
    apply built_ok_make;
      cbn [separator key pattern children set_children newTrie];
      trivial.
    + apply prefix_app.
    + intros _. discriminate.
    + cbn [app forallb]. rewrite andb_true_r. now apply IH.
Qed.

Lemma forallb_app_true (f : wildcardTrie V -> bool) (l l' : list (wildcardTrie V)) :
  forallb f (l ++ l') = true <-> forallb f l = true /\ forallb f l' = true.
Proof. rewrite forallb_app. apply andb_true_iff. Qed.

Lemma grow_built_ok sep rest : forall pre v c,
  built_ok sep c = true ->
  rest = [] \/ List.last rest "" <> "" ->
  built_ok sep (grow pre rest v c) = true.
Proof.
  induction rest as [|x rest IH]; intros pre v c Hc Hl.
  - apply built_ok_inv in Hc. destruct Hc as (H1 & H2 & H3 & H4).
    now apply built_ok_make.
  - destruct Hl as [Hl|Hl]; [discriminate|].
    assert (Hrest : rest = [] \/ List.last rest "" <> "").
    { destruct rest; [now left | right; exact Hl]. }
    apply built_ok_inv in Hc. destruct Hc as (H1 & H2 & H3 & H4).
    destruct (grow_fields pre (x :: rest) v c) as (E1 & E2 & E3).
    apply built_ok_make; try congruence.
    + intros _. pose proof (grow_children_keys pre x rest v c) as Hk.
      intros Hnil. rewrite Hnil in Hk. cbn [map] in Hk.
      destruct (existsb _ (children c)) eqn:E.
      * destruct (children c); [discriminate E | discriminate Hk].
      * destruct (map key (children c)); discriminate Hk.
    + destruct (children_cases x c)
        as [(before & d & behind & Hd & Hk & Hb) | Hn].
      * rewrite (grow_at_child pre x rest v c before d behind Hd Hk Hb).
        cbn [children set_children].
        rewrite Hd in H4. apply forallb_app_true in H4.
        destruct H4 as [F1 F2]. cbn [forallb] in F2.
        apply andb_prop in F2. destruct F2 as [F2 F3].
        apply forallb_app_true. split; [exact F1|].
        cbn [forallb]. rewrite F3, andb_true_r. now apply IH.
      * rewrite (grow_at_new pre x rest v c Hn).
        cbn [children set_children].
        apply forallb_app_true. split; [exact H4|].
        cbn [forallb]. rewrite andb_true_r, H1. now apply fresh_built_ok.
Qed.

(** The same for the children of the node that [Add] starts from. *)
Lemma grow_children_built_ok sep pre x rest v t :
  separator t = sep ->
  forallb (built_ok sep) (children t) = true ->
  List.last (x :: rest) "" <> "" ->
  forallb (built_ok sep) (children (grow pre (x :: rest) v t)) = true.
Proof.
  intros Hs Hc Hl.
  assert (Hrest : rest = [] \/ List.last rest "" <> "").
  { destruct rest; [now left | right; exact Hl]. }
  destruct (children_cases x t)
    as [(before & d & behind & Hd & Hk & Hb) | Hn].
  - rewrite (grow_at_child pre x rest v t before d behind Hd Hk Hb).
    cbn [children set_children].
    rewrite Hd in Hc. apply forallb_app_true in Hc.
    destruct Hc as [F1 F2]. cbn [forallb] in F2.
    apply andb_prop in F2. destruct F2 as [F2 F3].
    apply forallb_app_true. split; [exact F1|].
    cbn [forallb]. rewrite F3, andb_true_r. now apply grow_built_ok.
  - rewrite (grow_at_new pre x rest v t Hn).
    cbn [children set_children].
    apply forallb_app_true. split; [exact Hc|].
    cbn [forallb]. rewrite andb_true_r, Hs. now apply fresh_built_ok.
Qed.

Lemma Add_built_ok sep t p v :
  sep <> "" -> separator t = sep ->
  forallb (built_ok sep) (children t) = true ->
  forallb (built_ok sep) (children (after (Add t p v))) = true.
Proof.
  intros Hsep Hs Hc. unfold Add. rewrite Hs.
  destruct (Split p sep) as [|x0 tl] eqn:E; [exact Hc|].
  destruct ((1 <? List.length (x0 :: tl))%nat
            && String.eqb (List.last (x0 :: tl) "") "") eqn:Hpanic;
    [exact Hc|].
  assert (Hl : tl <> [] -> List.last (x0 :: tl) "" <> "").
  { intros Htl Hl. rewrite Hl, String.eqb_refl, andb_true_r in Hpanic.
    destruct tl; [congruence | discriminate Hpanic]. }
  destruct (String.eqb_spec x0 "") as [->|Hx]; cbn [after].
  - destruct tl as [|x1 tl]; [exact Hc|].
    apply grow_children_built_ok; trivial.
    rewrite <- last_cons_cons with (x := ""). apply Hl. discriminate.
  - apply grow_children_built_ok; trivial.
    destruct tl as [|x1 tl]; [exact Hx | apply Hl; discriminate].
Qed.

Lemma AddAll_built_ok sep (ops : list (string * iface V)) : forall t,
  sep <> "" -> separator t = sep ->
  forallb (built_ok sep) (children t) = true ->
  forallb (built_ok sep) (children (AddAll t ops)) = true.
Proof.
  induction ops as [|[p v] ops IH]; intros t Hsep Hs Hc; [exact Hc|].
  cbn [AddAll fold_left fst snd].
  apply IH; [exact Hsep | now rewrite Add_separator |].
  now apply Add_built_ok.
Qed.

(** The nodes below a node are those of its children. *)
Lemma below_eq t : below t = flat_map (fun c => c :: below c) (children t).
Proof. now destruct t. Qed.

Lemma in_below t n :
  In n (below t) <-> exists c, In c (children t) /\ In n (nodes c).
Proof. rewrite below_eq, in_flat_map. reflexivity. Qed.

Lemma built_ok_nodes sep (c : wildcardTrie V) :
  built_ok sep c = true -> forall n, In n (nodes c) -> built_ok sep n = true.
Proof.
  induction c as [s k p v cs IH] using wildcardTrie_ind.
  intros Hc n [<-|Hn]; [exact Hc|].
  apply built_ok_inv in Hc. destruct Hc as (_ & _ & _ & Hcs).
  cbn [children] in Hcs.
  apply in_below in Hn. destruct Hn as (d & Hd & Hn). cbn [children] in Hd.
  apply (proj1 (Forall_forall _ _) IH d Hd); [|exact Hn].
  now apply (proj1 (forallb_forall _ _) Hcs).
Qed.

Lemma built_ok_below sep t :
  forallb (built_ok sep) (children t) = true ->
  forall n, In n (below t) -> built_ok sep n = true.
Proof.
  intros Hc n Hn. apply in_below in Hn. destruct Hn as (c & Hin & Hn).
  apply (built_ok_nodes sep c); [|exact Hn].
  now apply (proj1 (forallb_forall _ _) Hc).
Qed.

End BuiltFacts.

(** X7. Sibling keys are pairwise distinct at every node of a trie
    built from the empty trie by calls of [Add], whatever the separator
    and the patterns. *)
Theorem built_distinct_keys
    (V : Type) (sep : string) (ops : list (string * iface V)) :
  distinct_keys (AddAll (newWildcardTrie sep) ops).
Proof.
  apply AddAll_distinct_keys, newWildcardTrie_distinct_keys.
Qed.

(** X8. In a trie built from the empty trie by calls of [Add], with a
    non-empty separator, every node below the root has the separator of
    the trie and a pattern that begins with "/", hence not empty, and
    the nodes with the empty key have children. *)
Theorem built_nodes
    (V : Type) (sep : string) (ops : list (string * iface V))
    (n : wildcardTrie V) :
  sep <> "" ->
  In n (below (AddAll (newWildcardTrie sep) ops)) ->
  separator n = sep
  /\ HasPrefix (pattern n) "/" = true
  /\ pattern n <> ""
  /\ (key n = "" -> children n <> []).
Proof.
  intros Hsep Hn.
  assert (Hb : built_ok sep n = true).
  { apply (built_ok_below sep (AddAll (newWildcardTrie sep) ops)); [|exact Hn].
    now apply AddAll_built_ok. }
  apply built_ok_inv in Hb. destruct Hb as (H1 & H2 & H3 & _).
  repeat split; trivial.
  intros E. rewrite E in H2. discriminate.
Qed.

Lemma built_nodes_witness :
  let t := AddAll (newWildcardTrie "/")
             [("/a//b", Some 1%Z); ("a/*", Some 2%Z)] in
  let n := nth 1 (below t) t in
  key n = ""
  /\ separator n = "/"
  /\ HasPrefix (pattern n) "/" = true
  /\ pattern n <> ""
  /\ (key n = "" -> children n <> []).
Proof.
  split; [reflexivity|].
  apply (built_nodes Z "/" [("/a//b", Some 1%Z); ("a/*", Some 2%Z)]).
  - discriminate.
  - right; left; reflexivity.
Defined.

(** X9. In a trie built from the empty trie by calls of [Add], with a
    non-empty separator, the fallback of [get] for a childless node with
    the empty key is never taken below the root: a node whose key is
    neither the segment nor the wildcard gives no match. *)
Theorem built_no_fallback
    (V : Type) (sep : string) (ops : list (string * iface V))
    (n : wildcardTrie V) (x : string) (rest : list string) :
  sep <> "" ->
  In n (below (AddAll (newWildcardTrie sep) ops)) ->
  x <> key n -> key n <> wildcard ->
  get x rest wildcard n = (None, "").
Proof.
  intros Hsep Hn Hx Hw.
  assert (Hb : built_ok sep n = true).
  { apply (built_ok_below sep (AddAll (newWildcardTrie sep) ops)); [|exact Hn].
    now apply AddAll_built_ok. }
  apply built_ok_inv in Hb. destruct Hb as (_ & _ & H3 & _).
  rewrite get_not_matching by assumption.
  destruct (String.eqb_spec (key n) "") as [E|_]; [|reflexivity].
  destruct (children n); [now elim (H3 E) | reflexivity].
Qed.

Lemma built_no_fallback_witness :
  let t := AddAll (newWildcardTrie "/")
             [("/a//b", Some 1%Z); ("a/*", Some 2%Z)] in
  let n := nth 1 (below t) t in
  key n = "" /\ get "x" ["y"] wildcard n = (None, "").
Proof.
  split; [reflexivity|].
  apply (built_no_fallback Z "/" [("/a//b", Some 1%Z); ("a/*", Some 2%Z)]).
  - discriminate.
  - right; left; reflexivity.
  - discriminate.
  - discriminate.
Defined.

(** ** What [Get] returns *)

Section LookupFacts.

Context {V : Type}.
Implicit Types (t c d n : wildcardTrie V) (v : iface V).
Implicit Types (rest ks xs : list string).

(** The loop returns nothing, or the result of a child, whose pattern
    is then not empty. *)
Lemma first_match_cases (f : wildcardTrie V -> iface V * string)
    (cs : list (wildcardTrie V)) :
  first_match f cs = (None, "")
  \/ exists c, In c cs /\ first_match f cs = f c /\ snd (f c) <> "".
Proof.
  induction cs as [|c cs IH]; cbn [first_match]; [now left|].
  destruct (String.eqb_spec (snd (f c)) "") as [E|E]; cbn [negb].
  - destruct IH as [H|(d & Hd & H1 & H2)]; [now left|].
    right. exists d. repeat split; trivial. now right.
  - right. exists c. repeat split; trivial. now left.
Qed.

Lemma first_match_exists (f : wildcardTrie V -> iface V * string)
    (cs : list (wildcardTrie V)) c :
  In c cs -> snd (f c) <> "" -> snd (first_match f cs) <> "".
Proof.
  induction cs as [|d cs IH]; intros Hin Hc; [destruct Hin|].
  cbn [first_match].
  destruct (String.eqb_spec (snd (f d)) "") as [E|E]; cbn [negb];
    [|exact E].
  destruct Hin as [->|Hin]; [contradiction | now apply IH].
Qed.

Lemma nodes_child t c n : In c (children t) -> In n (nodes c) -> In n (nodes t).
Proof. intros Hc Hn. right. apply in_below. now exists c. Qed.

(** [get] returns nothing, or the value and the pattern of a node. *)
Lemma get_from_nodes rest : forall x t,
  get x rest wildcard t = (None, "")
  \/ exists n, In n (nodes t) /\ get x rest wildcard t = (value n, pattern n).
Proof.
  induction rest as [|y rest IH]; intros x t.
  - cbn [get].
    destruct (negb (String.eqb x (key t)) && negb (String.eqb (key t) wildcard)).
    + destruct (String.eqb (key t) "" && (List.length (children t) =? 0)%nat);
        [|now left].
      right. exists t. split; [now left | reflexivity].
    + right. exists t. split; [now left | reflexivity].
  - cbn [get].
    destruct (negb (String.eqb x (key t)) && negb (String.eqb (key t) wildcard)).
    + destruct (String.eqb (key t) "" && (List.length (children t) =? 0)%nat);
        [|now left].
      right. exists t. split; [now left | reflexivity].
    + destruct (first_match_cases (get y rest wildcard) (children t))
        as [H|(c & Hc & H1 & _)]; [now left|].
      rewrite H1. destruct (IH y c) as [H|(n & Hn & H)]; [now left|].
      right. exists n. split; [|exact H]. now apply (nodes_child t c).
Qed.

(** [Get] follows the keys of the path from the root. *)
Lemma Get_keys t s :
  separator t <> "" -> key t = "" ->
  Get t s = Ok (get "" (path_keys s (separator t)) wildcard t).
Proof.
  intros Hsep Hk. unfold Get, path_keys.
  destruct (Split s (separator t)) as [|x0 tl] eqn:E;
    [now apply Split_not_nil in E|].
  destruct (String.eqb_spec x0 "") as [->|Hx]; [reflexivity|].
  now rewrite get_matching by (left; now rewrite Hk).
Qed.

Lemma key_paths_eq t :
  key_paths t
  = ([key t], t)
    :: map (fun kn => (key t :: fst kn, snd kn))
         (flat_map key_paths (children t)).
Proof. now destruct t. Qed.

Lemma in_key_paths t ks n :
  In (ks, n) (key_paths t) <->
  (ks = [key t] /\ n = t)
  \/ exists c ks', In c (children t) /\ ks = key t :: ks'
                   /\ In (ks', n) (key_paths c).
Proof.
  rewrite key_paths_eq. cbn [In]. rewrite in_map_iff. split.
  - intros [H|([ks' m] & H & Hin)].
    + injection H as <- <-. now left.
    + cbn [fst snd] in H. injection H as <- <-.
      apply in_flat_map in Hin. destruct Hin as (c & Hc & Hin).
      right. now exists c, ks'.
  - intros [[-> ->]|(c & ks' & Hc & -> & Hin)]; [now left|].
    right. exists (ks', n). split; [reflexivity|].
    apply in_flat_map. now exists c.
Qed.

Lemma matches_head x k xs ks :
  matches (x :: xs) (k :: ks) = true <->
  (k = x \/ k = wildcard) /\ matches xs ks = true.
Proof.
  cbn [matches]. rewrite andb_true_iff, orb_true_iff, !String.eqb_eq.
  reflexivity.
Qed.

(** A result with a pattern comes from a node whose keys match the
    segments, when the fallback is out of reach. *)
Lemma get_sound sep rest : forall x t v pat,
  forallb (built_ok sep) (children t) = true ->
  x = key t \/ key t = wildcard \/ built_ok sep t = true ->
  get x rest wildcard t = (v, pat) -> pat <> "" ->
  exists ks n,
    In (ks, n) (key_paths t) /\ matches (x :: rest) ks = true
    /\ value n = v /\ pattern n = pat.
Proof.
  induction rest as [|y rest IH]; intros x t v pat Hc Ht Hg Hp.
  - destruct (String.eqb_spec x (key t)) as [Hx|Hx];
      [|destruct (String.eqb_spec (key t) wildcard) as [Hw|Hw]].
    + rewrite get_matching in Hg by (now left). injection Hg as <- <-.
      exists [key t], t. repeat split.
      * apply in_key_paths. now left.
      * apply matches_head. split; [now left | reflexivity].
    + rewrite get_matching in Hg by (now right). injection Hg as <- <-.
      exists [key t], t. repeat split.
      * apply in_key_paths. now left.
      * apply matches_head. split; [now right | reflexivity].
    + destruct Ht as [Ht|[Ht|Ht]]; try contradiction.
      apply built_ok_inv in Ht. destruct Ht as (_ & _ & H3 & _).
      rewrite get_not_matching in Hg by assumption.
      destruct (String.eqb_spec (key t) "") as [E|_].
      * destruct (children t); [now elim (H3 E)|].
        cbn in Hg. injection Hg as _ <-. congruence.
      * cbn in Hg. injection Hg as _ <-. congruence.
  - assert (Hm : x = key t \/ key t = wildcard).
    { destruct (String.eqb_spec x (key t)) as [Hx|Hx]; [now left|].
      destruct (String.eqb_spec (key t) wildcard) as [Hw|Hw]; [now right|].
      exfalso. destruct Ht as [Ht|[Ht|Ht]]; try contradiction.
      apply built_ok_inv in Ht. destruct Ht as (_ & _ & H3 & _).
      rewrite get_not_matching in Hg by assumption.
      destruct (String.eqb_spec (key t) "") as [E|_].
      - destruct (children t); [now elim (H3 E)|].
        cbn in Hg. injection Hg as _ <-. congruence.
      - cbn in Hg. injection Hg as _ <-. congruence. }
    rewrite get_matching in Hg by exact Hm.
    destruct (first_match_cases (get y rest wildcard) (children t))
      as [H|(c & Hin & H1 & _)].
    + rewrite H in Hg. injection Hg as _ <-. congruence.
    + rewrite H1 in Hg.
      assert (Hbc : built_ok sep c = true)
        by now apply (proj1 (forallb_forall _ _) Hc).
      destruct (IH y c v pat) as (ks & n & K1 & K2 & K3 & K4); trivial.
      * now apply built_ok_inv in Hbc.
      * now right; right.
      * exists (key t :: ks), n. repeat split; trivial.
        -- apply in_key_paths. right. now exists c, ks.
        -- apply matches_head. split; [|exact K2].
           destruct Hm as [->|Hm]; [now left | now right].
Qed.

(** A node with a pattern whose keys match the segments is enough for
    [get] to return a pattern. *)
Lemma get_complete rest : forall x t ks n,
  In (ks, n) (key_paths t) -> matches (x :: rest) ks = true ->
  pattern n <> "" ->
  snd (get x rest wildcard t) <> "".
Proof.
  induction rest as [|y rest IH]; intros x t ks n Hin Hm Hp;
    apply in_key_paths in Hin;
    destruct Hin as [[-> ->]|(c & ks' & Hc & -> & Hin)];
    apply matches_head in Hm; destruct Hm as [Hk Hm].
  - rewrite get_matching by (destruct Hk; auto). exact Hp.
  - destruct ks'; [|discriminate Hm].
    apply in_key_paths in Hin.
    destruct Hin as [[E _]|(_ & ? & _ & E & _)]; discriminate E.
  - discriminate Hm.
  - rewrite get_matching by (destruct Hk; auto).
    apply (first_match_exists _ _ c Hc).
    now apply (IH y c ks' n).
Qed.

Lemma all_bound_eq t :
  all_bound t
  = (String.eqb (pattern t) ""
     || match value t with Some _ => true | None => false end)
    && forallb all_bound (children t).
Proof. now destruct t. Qed.

Lemma all_bound_nodes t :
  all_bound t = true ->
  forall n, In n (nodes t) -> pattern n = "" \/ exists h, value n = Some h.
Proof.
  induction t as [s k p v cs IH] using wildcardTrie_ind.
  intros Ht n Hn. rewrite all_bound_eq in Ht. cbn [pattern value children] in Ht.
  apply andb_prop in Ht. destruct Ht as [H1 H2].
  destruct Hn as [<-|Hn].
  - cbn [pattern value]. apply orb_prop in H1. destruct H1 as [H1|H1].
    + left. now apply String.eqb_eq.
    + right. destruct v as [h|]; [now exists h | discriminate].
  - apply in_below in Hn. destruct Hn as (c & Hc & Hn). cbn [children] in Hc.
    apply (proj1 (Forall_forall _ _) IH c Hc); [|exact Hn].
    now apply (proj1 (forallb_forall _ _) H2).
Qed.

End LookupFacts.

(** A result of [Get] is the no-match pair or comes from a node. *)
Lemma Get_in_nodes
    (V : Type) (t : wildcardTrie V) (s : string) (v : iface V) (pat : string) :
  Get t s = Ok (v, pat) ->
  (v = None /\ pat = "")
  \/ exists n, In n (nodes t) /\ value n = v /\ pattern n = pat.
Proof.
  unfold Get. intros H.
  destruct (Split s (separator t)) as [|x0 tl]; [discriminate|].
  destruct (String.eqb x0 "").
  - injection H as H.
    destruct (get_from_nodes tl x0 t) as [E|(n & Hn & E)];
      rewrite E in H; injection H as <- <-; [now left|].
    right. now exists n.
  - injection H as H.
    destruct (first_match_cases (get x0 tl wildcard) (children t))
      as [E|(c & Hc & E & _)]; rewrite E in H.
    + injection H as <- <-. now left.
    + destruct (get_from_nodes tl x0 c) as [E'|(n & Hn & E')];
        rewrite E' in H; injection H as <- <-; [now left|].
      right. exists n. repeat split. now apply (nodes_child t c).
Qed.

(** X10. [Get] invents nothing: what it returns is the no-match pair or
    the value and the pattern of a node of the trie. *)
Theorem Get_from_nodes
    (V : Type) (t : wildcardTrie V) (s : string) (v : iface V) (pat : string) :
  Get t s = Ok (v, pat) ->
  (v = None /\ pat = "")
  \/ exists n, In n (nodes t) /\ value n = v /\ pattern n = pat.
Proof.
  exact (Get_in_nodes V t s v pat).
Qed.

Lemma Get_from_nodes_witness :
  (Tests.int 99 = None /\ "/foo/*" = "")
  \/ exists n, In n (nodes Tests.basicTrie)
               /\ value n = Tests.int 99 /\ pattern n = "/foo/*".
Proof.
  apply (Get_from_nodes Tests.val Tests.basicTrie "foo/meow").
  reflexivity.
Defined.

(** X11. Lookup is sound on a trie built from the empty trie by calls
    of [Add], with a non-empty separator: a pattern that [Get] returns
    is, with the value, that of a node whose keys from the root match
    the segments of the path one by one, each key being the segment or
    the wildcard; the node is as deep as the path is long. *)
Theorem lookup_sound
    (V : Type) (sep : string) (ops : list (string * iface V))
    (s : string) (v : iface V) (pat : string) :
  let t := AddAll (newWildcardTrie sep) ops in
  sep <> "" ->
  Get t s = Ok (v, pat) ->
  pat <> "" ->
  exists ks n,
    In (ks, n) (key_paths t)
    /\ matches ("" :: path_keys s sep) ks = true
    /\ value n = v /\ pattern n = pat.
Proof.
  intros t Hsep Hg Hp.
  destruct (AddAll_root ops (newWildcardTrie sep) Hsep) as (Es & Ek & _).
  fold t in Es, Ek. cbn in Es, Ek.
  rewrite Get_keys, Es in Hg by (rewrite ?Es; assumption).
  injection Hg as Hg.
  apply (get_sound sep _ "" t v pat); trivial.
  - now apply AddAll_built_ok.
  - left. now rewrite Ek.
Qed.

Lemma lookup_sound_witness :
  let t := AddAll (newWildcardTrie "/")
             [("/foo/bar", Some 3%Z); ("foo/*", Some 99%Z)] in
  exists ks n,
    In (ks, n) (key_paths t)
    /\ matches [""; "foo"; "meow"] ks = true
    /\ value n = Some 99%Z /\ pattern n = "/foo/*".
Proof.
  apply (lookup_sound Z "/" [("/foo/bar", Some 3%Z); ("foo/*", Some 99%Z)]
           "/foo/meow" (Some 99%Z) "/foo/*").
  - discriminate.
  - reflexivity.
  - discriminate.
Defined.

(** X12. Lookup is complete: when the root has the empty key and some
    node with a non-empty pattern has keys that match the segments of
    the path one by one, [Get] returns a non-empty pattern. *)
Theorem lookup_complete
    (V : Type) (t n : wildcardTrie V) (s : string) (ks : list string) :
  separator t <> "" ->
  key t = "" ->
  In (ks, n) (key_paths t) ->
  matches ("" :: path_keys s (separator t)) ks = true ->
  pattern n <> "" ->
  exists v pat, Get t s = Ok (v, pat) /\ pat <> "".
Proof.
  intros Hsep Hk Hin Hm Hp. rewrite Get_keys by assumption.
  pose proof (get_complete _ "" t ks n Hin Hm Hp) as H.
  destruct (get "" (path_keys s (separator t)) wildcard t) as [v pat].
  now exists v, pat.
Qed.

Lemma lookup_complete_witness :
  exists v pat, Get Tests.basicTrie "foo/anything" = Ok (v, pat) /\ pat <> "".
Proof.
  apply (lookup_complete Tests.val Tests.basicTrie
           (Tests.leaf "*" "/foo/*" (Tests.int 99))
           "foo/anything" [""; "foo"; "*"]).
  - discriminate.
  - reflexivity.
  - right; right; right; right; right; left; reflexivity.
  - reflexivity.
  - discriminate.
Defined.

(** ** Register, then look up *)

Section RoundTrip.

Context {V : Type}.
Variable sep : string.
Implicit Types (t c d n : wildcardTrie V) (v : iface V).
Implicit Types (pre rest : list string).

Lemma built_pattern c : built_ok sep c = true -> pattern c <> "".
Proof.
  intros H. apply built_ok_inv in H. destruct H as (_ & H & _).
  intros E. rewrite E in H. discriminate.
Qed.

(** Siblings with other keys take no part in the lookup. *)
Lemma get_built_siblings x rest (bs : list (wildcardTrie V)) :
  forallb (built_ok sep) bs = true -> forallb wildcard_free bs = true ->
  (forall b, In b bs -> key b <> x) ->
  forall b, In b bs -> snd (get x rest wildcard b) = "".
Proof.
  intros Hok Hw Hk b Hin.
  pose proof (proj1 (forallb_forall _ _) Hok b Hin) as Hb.
  pose proof (proj1 (forallb_forall _ _) Hw b Hin) as Hwb.
  apply built_ok_inv in Hb. destruct Hb as (_ & _ & H3 & _).
  apply wildcard_free_inv in Hwb. destruct Hwb as [Hwb _].
  rewrite get_not_matching by (try assumption; intros E; now apply (Hk b Hin)).
  destruct (String.eqb_spec (key b) "") as [E|_]; [|reflexivity].
  destruct (children b); [now elim (H3 E) | reflexivity].
Qed.

(** Looking up the keys that [grow] has just followed, in a trie
    without wildcard nodes. *)
Lemma get_grown_built rest : forall x pre t v,
  separator t = sep ->
  forallb (built_ok sep) (children t) = true ->
  forallb wildcard_free (children t) = true ->
  exists pat,
    first_match (get x rest wildcard) (children (grow pre (x :: rest) v t))
    = (v, pat)
    /\ pat <> "".
Proof.
  induction rest as [|y rest IH]; intros x pre t v Hs Hc Hw.
  - destruct (children_cases x t)
      as [(before & d & behind & Hd & Hk & Hb) | Hn].
    + rewrite (grow_at_child _ x [] v t before d behind Hd Hk Hb).
      cbn [children set_children grow].
      rewrite Hd in Hc, Hw.
      apply forallb_app_true in Hc. destruct Hc as [F1 F2].
      apply forallb_app_true in Hw. destruct Hw as [W1 _].
      cbn [forallb] in F2. apply andb_prop in F2. destruct F2 as [F2 _].
      pose proof (built_pattern d F2) as Hp.
      exists (pattern d). rewrite first_match_earliest.
      * rewrite get_matching by (now left). split; [reflexivity|exact Hp].
      * now apply (get_built_siblings x [] before).
      * rewrite get_matching by (now left). exact Hp.
    + rewrite (grow_at_new _ x [] v t Hn).
      cbn [children set_children grow].
      exists (pattern (newTrie (V:=V) (separator t) x (pre ++ [x]))).
      rewrite first_match_earliest.
      * rewrite get_matching by (now left). split; [reflexivity|discriminate].
      * now apply (get_built_siblings x [] (children t)).
      * rewrite get_matching by (now left). discriminate.
  - assert (Hnode : forall d,
               key d = x -> separator d = sep ->
               forallb (built_ok sep) (children d) = true ->
               forallb wildcard_free (children d) = true ->
               exists pat,
                 get x (y :: rest) wildcard (grow (pre ++ [x]) (y :: rest) v d)
                 = (v, pat) /\ pat <> "").
    { intros d Hk Hsd Hcd Hwd.
      rewrite get_matching by (left; now rewrite grow_key).
      now apply IH. }
    destruct (children_cases x t)
      as [(before & d & behind & Hd & Hk & Hb) | Hn].
    + rewrite (grow_at_child _ x (y :: rest) v t before d behind Hd Hk Hb).
      cbn [children set_children].
      rewrite Hd in Hc, Hw.
      apply forallb_app_true in Hc. destruct Hc as [F1 F2].
      apply forallb_app_true in Hw. destruct Hw as [W1 W2].
      cbn [forallb] in F2, W2.
      apply andb_prop in F2. destruct F2 as [F2 _].
      apply andb_prop in W2. destruct W2 as [W2 _].
      apply built_ok_inv in F2. destruct F2 as (Hsd & _ & _ & Hcd).
      apply wildcard_free_inv in W2. destruct W2 as [_ Hwd].
      destruct (Hnode d Hk Hsd Hcd Hwd) as (pat & E & Hp).
      exists pat. rewrite first_match_earliest.
      * now split.
      * now apply (get_built_siblings x (y :: rest) before).
      * now rewrite E.
    + rewrite (grow_at_new _ x (y :: rest) v t Hn).
      cbn [children set_children].
      destruct (Hnode (newTrie (separator t) x (pre ++ [x])))
        as (pat & E & Hp); trivial.
      exists pat. rewrite first_match_earliest.
      * now split.
      * now apply (get_built_siblings x (y :: rest) (children t)).
      * now rewrite E.
Qed.

Hypothesis sep_nonempty : sep <> "".

(** The keys of a non-empty pattern that [Add] accepts. *)
Lemma path_keys_not_nil (p : string) :
  p <> "" -> path_keys p sep <> [].
Proof.
  intros Hp. unfold path_keys.
  destruct (Split p sep) as [|x0 tl] eqn:E;
    [now apply Split_not_nil in E|].
  destruct (String.eqb_spec x0 "") as [->|_]; [|discriminate].
  destruct tl; [|discriminate].
  apply Split_singleton in E; [congruence | exact sep_nonempty].
Qed.

Lemma add_then_get (ops : list (string * iface V)) (p q : string) v t' :
  let t := AddAll (newWildcardTrie sep) ops in
  wildcard_free t = true ->
  p <> "" ->
  Add t p v = Done t' ->
  path_keys q sep = path_keys p sep ->
  exists pat, Get t' q = Ok (v, pat) /\ pat <> "".
Proof.
  intros t Hw Hp Ha Hq.
  destruct (AddAll_root ops (newWildcardTrie sep) sep_nonempty)
    as (Es & Ek & _).
  fold t in Es, Ek. cbn in Es, Ek.
  destruct (Add_Done t p v t' Ha) as [pre ->]. rewrite Es.
  destruct (grow_fields pre (path_keys p sep) v t) as (E1 & E2 & _).
  rewrite Get_keys by (rewrite ?E1, ?E2, ?Es; assumption).
  rewrite E1, Es, Hq.
  pose proof (path_keys_not_nil p Hp) as Hnil.
  destruct (path_keys p sep) as [|x rest]; [congruence|].
  rewrite get_matching by (left; now rewrite E2).
  destruct (get_grown_built rest x pre t v Es) as (pat & E & Hpat).
  - now apply AddAll_built_ok.
  - now apply wildcard_free_inv in Hw.
  - exists pat. now rewrite E.
Qed.

End RoundTrip.

(** X13. Register, then look up: in a trie built from the empty trie by
    calls of [Add], with a non-empty separator, in which no node has the
    wildcard as key, after a call [Add(p, v)] that returned, for a
    non-empty [p], [Get] returns [v] with a non-empty pattern for [p]
    and for every path with the same keys. *)
Theorem Add_then_Get
    (V : Type) (sep : string) (ops : list (string * iface V))
    (p q : string) (v : iface V) (t' : wildcardTrie V) :
  let t := AddAll (newWildcardTrie sep) ops in
  sep <> "" ->
  wildcard_free t = true ->
  p <> "" ->
  Add t p v = Done t' ->
  path_keys q sep = path_keys p sep ->
  exists pat, Get t' q = Ok (v, pat) /\ pat <> "".
Proof. intros t Hsep. now apply add_then_get. Qed.

Lemma Add_then_Get_witness :
  let t := AddAll (newWildcardTrie "/")
             [("/moo", Some 1%Z); ("foo/bar", Some 2%Z)] in
  exists pat,
    Get (after (Add t "/foo/*/x" (Some 3%Z))) "foo/*/x" = Ok (Some 3%Z, pat)
    /\ pat <> "".
Proof.
  apply (Add_then_Get Z "/" [("/moo", Some 1%Z); ("foo/bar", Some 2%Z)]
           "/foo/*/x" "foo/*/x" (Some 3%Z)).
  - discriminate.
  - reflexivity.
  - discriminate.
  - reflexivity.
  - reflexivity.
Defined.

(** X14. [Handler] does not panic on a trie with a non-empty separator
    in which every node that has a pattern has a handler: it returns the
    not-found handler or a registered one. *)
Theorem Handler_returns (H : Type) (t : wildcardTrie H) (path : string) :
  separator t <> "" ->
  all_bound t = true ->
  exists h p, Handler t path = Ok (h, p).
Proof.
  intros Hsep Hb. unfold Handler.
  destruct (Get_returns t path Hsep) as [[v pat] Hg]. rewrite Hg.
  destruct (String.eqb_spec pat "") as [->|Hp]; [eauto|].
  destruct (Get_in_nodes H t path v pat Hg) as [[_ E]|(n & Hn & <- & <-)];
    [contradiction|].
  destruct (all_bound_nodes t Hb n Hn) as [E|[h E]]; [contradiction|].
  rewrite E. eauto.
Qed.

Lemma Handler_returns_witness :
  exists h p, Handler Tests.basicTrie "/foo/bla/x/y" = Ok (h, p).
Proof.
  apply (Handler_returns Tests.val Tests.basicTrie).
  - discriminate.
  - reflexivity.
Defined.

(** X15. Register a handler, then serve: on a multiplexer whose routes
    were registered by calls of [Handle] and hold no wildcard, after
    [Handle(p, h)] for a non-empty [p] that was accepted, [Handler]
    returns [h], with the path of the request as pattern, for every
    request whose path has the keys of [p], when [h] is not [nil]; when
    [h] is [nil], which [Handle] stores as it is, [Handler] panics on
    its type assertion for every such request. *)
Theorem Handle_then_Handler
    (H : Type) (routes : list (string * iface H)) (p q : string)
    (h : iface H) (t' : wildcardTrie H) :
  let t := fold_left (fun t r => after (Handle t (fst r) (snd r))) routes
             (newWildcardTrie "/") in
  wildcard_free t = true ->
  p <> "" ->
  Handle t p h = Done t' ->
  path_keys q "/" = path_keys p "/" ->
  Handler t' q
  = match h with
    | Some h' => Ok (Registered h', q)
    | None => Panics InterfaceConversion
    end.
Proof.
  intros t Hw Hp Ha Hq. unfold Handler.
  destruct (add_then_get "/" ltac:(discriminate) routes p q h t' Hw Hp Ha Hq)
    as (pat & -> & Hpat).
  destruct (String.eqb_spec pat ""); [contradiction|].
  now destruct h.
Qed.

Lemma Handle_then_Handler_witness :
  let t := AddAll (newWildcardTrie "/")
             [("foo/bar", Some "handleFunc"); ("/moo", None)] in
  Handler (after (Handle t "countries/nl" (Some "handleCities")))
    "/countries/nl"
  = Ok (Registered "handleCities", "/countries/nl")
  /\ Handler (after (Handle t "countries/nl" None)) "/countries/nl"
     = Panics InterfaceConversion.
Proof.
  split.
  - apply (Handle_then_Handler string
             [("foo/bar", Some "handleFunc"); ("/moo", None)]
             "countries/nl" "/countries/nl" (Some "handleCities")).
    + reflexivity.
    + discriminate.
    + reflexivity.
    + reflexivity.
  - apply (Handle_then_Handler string
             [("foo/bar", Some "handleFunc"); ("/moo", None)]
             "countries/nl" "/countries/nl" None).
    + reflexivity.
    + discriminate.
    + reflexivity.
    + reflexivity.
Defined.

(** X16. [equals] decides equality, when [reflect.DeepEqual] does on
    the values: it returns true for equal tries and for them only, and
    the order of its arguments does not matter. *)
Theorem equals_decides
    (V : Type) (V_eqb : V -> V -> bool) (t other : wildcardTrie V) :
  (forall x y, V_eqb x y = true <-> x = y) ->
  (equals V_eqb t other = true <-> t = other)
  /\ equals V_eqb t other = equals V_eqb other t.
Proof.
  intros HV. split; [now apply equals_eq|].
  destruct (equals V_eqb t other) eqn:E1, (equals V_eqb other t) eqn:E2;
    trivial.
  - apply (equals_eq V_eqb HV) in E1. subst other.
    rewrite <- E2. symmetry. now apply (equals_eq V_eqb HV).
  - apply (equals_eq V_eqb HV) in E2. subst other.
    rewrite <- E1. now apply (equals_eq V_eqb HV).
Qed.

Lemma equals_decides_witness :
  (equals Z.eqb (after (Add (newWildcardTrie "/") "foo" (Some 1%Z)))
     (after (Add (newWildcardTrie "/") "/foo" (Some 1%Z))) = true
   <-> after (Add (newWildcardTrie "/") "foo" (Some 1%Z))
       = after (Add (newWildcardTrie "/") "/foo" (Some 1%Z)))
  /\ equals Z.eqb (after (Add (newWildcardTrie "/") "foo" (Some 1%Z)))
       (after (Add (newWildcardTrie "/") "/foo" (Some 1%Z)))
     = equals Z.eqb (after (Add (newWildcardTrie "/") "/foo" (Some 1%Z)))
         (after (Add (newWildcardTrie "/") "foo" (Some 1%Z))).
Proof.
  apply (equals_decides Z Z.eqb).
  exact Z.eqb_eq.
Defined.

(** ** The size of the trie and a route of its own *)

Section SizeFacts.

Context {V : Type}.
Implicit Types (t c d n : wildcardTrie V) (v : iface V).
Implicit Types (pre rest : list string).

Lemma below_children (cs before behind : list (wildcardTrie V)) d :
  List.length (flat_map (fun c => c :: below c) (before ++ d :: behind))
  = List.length (flat_map (fun c => c :: below c) before)
    + List.length (nodes d)
    + List.length (flat_map (fun c => c :: below c) behind).
Proof.
  rewrite flat_map_app. cbn [flat_map]. rewrite !length_app.
  unfold nodes. cbn [List.length app]. lia.
Qed.

Lemma nodes_length t :
  List.length (nodes t)
  = S (List.length (flat_map (fun c => c :: below c) (children t))).
Proof. unfold nodes. cbn [List.length]. now rewrite below_eq. Qed.

(** [grow] removes no node and makes one node for a key at most. *)
Lemma grow_size rest : forall pre v t,
  List.length (nodes t) <= List.length (nodes (grow pre rest v t))
  /\ List.length (nodes (grow pre rest v t))
     <= List.length (nodes t) + List.length rest.
Proof.
  induction rest as [|x rest IH]; intros pre v t.
  - cbn [grow]. rewrite (nodes_length t), (nodes_length (set_value v t)).
    cbn [children set_value List.length]. lia.
  - destruct (children_cases x t)
      as [(before & d & behind & Hd & Hk & Hb) | Hn].
    + rewrite (grow_at_child pre x rest v t before d behind Hd Hk Hb).
      rewrite (nodes_length t), (nodes_length (set_children _ t)).
      cbn [children set_children]. rewrite Hd.
      rewrite !(below_children (children t)).
      destruct (IH (pre ++ [x]) v d) as [H1 H2].
      cbn [List.length]. lia.
    + rewrite (grow_at_new pre x rest v t Hn).
      rewrite (nodes_length t), (nodes_length (set_children _ t)).
      cbn [children set_children].
      rewrite (below_children (children t) (children t) []).
      destruct (IH (pre ++ [x]) v (newTrie (separator t) x (pre ++ [x])))
        as [H1 H2].
      rewrite (nodes_length (newTrie _ _ _)) in H1, H2.
      cbn [children newTrie flat_map List.length] in H1, H2.
      cbn [flat_map List.length]. lia.
Qed.

(** The lookup along a chain of new nodes. *)
Lemma get_chain sep rest : forall x pre path v y qrest,
  matches (y :: qrest) (x :: rest) = true ->
  exists pat,
    get y qrest wildcard (grow pre rest v (newTrie sep x path)) = (v, pat)
    /\ pat <> "".
Proof.
  induction rest as [|x' rest IH]; intros x pre path v y qrest Hm;
    apply matches_head in Hm; destruct Hm as [Hk Hm].
  - destruct qrest; [|discriminate Hm].
    exists (pattern (newTrie (V:=V) sep x path)).
    rewrite get_matching by (cbn; destruct Hk; auto).
    split; [reflexivity | discriminate].
  - destruct qrest as [|y' qrest]; [discriminate Hm|].
    rewrite grow_at_new by (intros b []).
    rewrite get_matching by (cbn; destruct Hk; auto).
    cbn [children set_children].
    change (children (newTrie sep x path)) with (@nil (wildcardTrie V)).
    change (separator (newTrie (V:=V) sep x path)) with sep.
    destruct (IH x' (pre ++ [x']) (pre ++ [x']) v y' qrest Hm)
      as (pat & E & Hp).
    exists pat. split; [|exact Hp].
    cbn [app first_match]. rewrite E. cbn [snd].
    destruct (String.eqb_spec pat ""); [contradiction|reflexivity].
Qed.

End SizeFacts.

(** X17. [Add] removes no node and creates one node for a key of the
    pattern at most. *)
Theorem Add_size
    (V : Type) (t t' : wildcardTrie V) (p : string) (v : iface V) :
  Add t p v = Done t' ->
  List.length (nodes t) <= List.length (nodes t')
  /\ List.length (nodes t')
     <= List.length (nodes t) + List.length (path_keys p (separator t)).
Proof.
  intros H. destruct (Add_Done t p v t' H) as [pre ->]. apply grow_size.
Qed.

Lemma Add_size_witness :
  List.length (nodes Tests.basicTrie)
  <= List.length (nodes (after (Add Tests.basicTrie "/foo/x/y" None)))
  /\ List.length (nodes (after (Add Tests.basicTrie "/foo/x/y" None)))
     <= List.length (nodes Tests.basicTrie) + 3.
Proof.
  apply (Add_size Tests.val Tests.basicTrie _ "/foo/x/y" None).
  reflexivity.
Defined.

(** X18. A route of its own: after [Add(p, v)] on the empty trie, for a
    non-empty [p] that was accepted, [Get] returns [v] with a non-empty
    pattern for every path whose keys match those of [p] one by one,
    a key of [p] being the segment itself or the wildcard. *)
Theorem single_route
    (V : Type) (sep p q : string) (v : iface V) (t' : wildcardTrie V) :
  sep <> "" ->
  p <> "" ->
  Add (newWildcardTrie sep) p v = Done t' ->
  matches (path_keys q sep) (path_keys p sep) = true ->
  exists pat, Get t' q = Ok (v, pat) /\ pat <> "".
Proof.
  intros Hsep Hp Ha Hm.
  destruct (Add_Done _ p v t' Ha) as [pre ->].
  change (separator (newWildcardTrie (V:=V) sep)) with sep.
  destruct (grow_fields pre (path_keys p sep) v (newWildcardTrie sep))
    as (E1 & E2 & _).
  change (separator (newWildcardTrie (V:=V) sep)) with sep in E1.
  change (key (newWildcardTrie (V:=V) sep)) with "" in E2.
  rewrite Get_keys by (rewrite ?E1, ?E2; trivial).
  rewrite E1.
  pose proof (path_keys_not_nil sep Hsep p Hp) as Hnil.
  destruct (path_keys p sep) as [|x rest]; [congruence|].
  destruct (path_keys q sep) as [|y qrest]; [discriminate Hm|].
  rewrite get_matching by (left; now rewrite E2).
  rewrite grow_at_new by (intros b []).
  cbn [children set_children].
  change (children (newWildcardTrie (V:=V) sep)) with (@nil (wildcardTrie V)).
  change (separator (newWildcardTrie (V:=V) sep)) with sep.
  cbn [app].
  destruct (get_chain sep rest x (pre ++ [x]) (pre ++ [x]) v y qrest Hm)
    as (pat & E & Hpat).
  exists pat. split; [|exact Hpat].
  cbn [first_match]. rewrite E. cbn [snd].
  destruct (String.eqb_spec pat ""); [contradiction|reflexivity].
Qed.

Lemma single_route_witness :
  exists pat,
    Get (after (Add (newWildcardTrie "/") "/countries/*/cities" (Some 1%Z)))
      "/countries/belgium/cities"
    = Ok (Some 1%Z, pat)
    /\ pat <> "".
Proof.
  apply (single_route Z "/" "/countries/*/cities" "/countries/belgium/cities").
  - discriminate.
  - discriminate.
  - reflexivity.
  - reflexivity.
Defined.

(** ** Tries without wildcards *)

Section ExactFacts.

Context {V : Type}.
Variable sep : string.
Implicit Types (t c d n : wildcardTrie V) (v : iface V).
Implicit Types (rest q : list string).

Lemma node_at_in_nodes q : forall t n,
  node_at q t = Some n -> In n (nodes t).
Proof.
  induction q as [|y q IH]; intros t n H; cbn [node_at] in H.
  - injection H as <-. now left.
  - destruct (find (fun c => String.eqb (key c) y) (children t))
      as [c|] eqn:F; [|discriminate].
    apply find_some in F. destruct F as [Hc _].
    apply (nodes_child t c); [exact Hc | now apply IH].
Qed.

Lemma first_match_skip (f : wildcardTrie V -> iface V * string)
    (before l : list (wildcardTrie V)) :
  (forall b, In b before -> snd (f b) = "") ->
  first_match f (before ++ l) = first_match f l.
Proof.
  intros Hb. induction before as [|b before IH]; [reflexivity|].
  cbn [app first_match]. rewrite (Hb b (or_introl eq_refl)). cbn [negb String.eqb].
  apply IH. intros d Hd. apply Hb. now right.
Qed.

Lemma first_match_empty (f : wildcardTrie V -> iface V * string)
    (l : list (wildcardTrie V)) :
  (forall b, In b l -> snd (f b) = "") -> first_match f l = (None, "").
Proof.
  intros Hb. rewrite <- (app_nil_r l). now rewrite first_match_skip.
Qed.

(** In a trie without wildcards the lookup goes down the one child with
    the key, at each level. *)
Lemma get_exact rest : forall x t,
  forallb (built_ok sep) (children t) = true ->
  forallb wildcard_free (children t) = true ->
  distinct_keys t ->
  first_match (get x rest wildcard) (children t)
  = node_result (node_at (x :: rest) t).
Proof.
  induction rest as [|y rest IH]; intros x t Hb Hw Hd;
    (destruct (children_cases x t)
      as [(before & d & behind & Hc & Hk & Hbef) | Hn];
     [|cbn [node_at]; rewrite find_none by assumption;
       apply first_match_empty;
       now apply (get_built_siblings sep x _ (children t))]);
    cbn [node_at]; rewrite Hc, find_at by assumption;
    apply distinct_keys_inv in Hd; destruct Hd as [Hnd Hfd];
    rewrite Hc in Hb, Hw, Hnd, Hfd;
    apply forallb_app_true in Hb; destruct Hb as [B1 B2];
    apply forallb_app_true in Hw; destruct Hw as [W1 W2];
    cbn [forallb] in B2, W2;
    apply andb_prop in B2; destruct B2 as [B2 B3];
    apply andb_prop in W2; destruct W2 as [W2 W3];
    (assert (Hbeh : forall b, In b behind -> key b <> x)
      by (intros b Hin E; rewrite map_app in Hnd; cbn [map] in Hnd;
          apply NoDup_remove_2 in Hnd; apply Hnd;
          rewrite in_app_iff; right; rewrite Hk, <- E; now apply in_map));
    rewrite first_match_skip
      by (now apply (get_built_siblings sep x _ before));
    cbn [first_match];
    rewrite (first_match_empty _ behind)
      by (now apply (get_built_siblings sep x _ behind)).
  - rewrite get_matching by (now left). cbn [node_result snd].
    pose proof (built_pattern sep d B2) as Hp.
    now destruct (String.eqb_spec (pattern d) "").
  - rewrite get_matching by (now left).
    pose proof (built_ok_inv _ _ B2) as (_ & _ & _ & Bd).
    apply wildcard_free_inv in W2. destruct W2 as [_ Wd].
    rewrite (IH y d Bd Wd
               (Forall_inv (proj2 (proj1 (Forall_app _ _ _) Hfd)))).
    change (match find (fun c => String.eqb (key c) y) (children d) with
            | Some c => node_at rest c
            | None => None
            end) with (node_at (y :: rest) d).
    destruct (node_at (y :: rest) d) as [n|] eqn:E; [|reflexivity].
    cbn [node_result snd].
    assert (Hp : pattern n <> "").
    { apply (built_pattern sep). apply node_at_in_nodes in E.
      now apply (built_ok_nodes sep d). }
    now destruct (String.eqb_spec (pattern n) "").
Qed.

Hypothesis sep_nonempty : sep <> "".

Lemma Get_node_at t s :
  separator t = sep -> key t = "" ->
  forallb (built_ok sep) (children t) = true ->
  wildcard_free t = true ->
  distinct_keys t ->
  Get t s = Ok (node_result (node_at (path_keys s sep) t)).
Proof.
  intros Hs Hk Hb Hw Hd.
  rewrite Get_keys, Hs by (rewrite ?Hs; assumption).
  destruct (path_keys s sep) as [|x rest].
  - now rewrite get_matching by (left; now rewrite Hk).
  - rewrite get_matching by (left; now rewrite Hk).
    f_equal. apply get_exact; trivial. now apply wildcard_free_inv in Hw.
Qed.

End ExactFacts.

Section KeepFacts.

Context {V : Type}.
Implicit Types (t c d : wildcardTrie V) (v : iface V).

Lemma wildcard_free_eq t :
  wildcard_free t
  = negb (String.eqb (key t) wildcard) && forallb wildcard_free (children t).
Proof. now destruct t. Qed.

(** [grow] removes no wildcard node. *)
Lemma grow_wildcard_free rest : forall pre v t,
  wildcard_free (grow pre rest v t) = true -> wildcard_free t = true.
Proof.
  induction rest as [|x rest IH]; intros pre v t H.
  - now rewrite wildcard_free_eq in H |- *.
  - rewrite wildcard_free_eq in H |- *. rewrite grow_key in H.
    apply andb_prop in H. destruct H as [H1 H2]. rewrite H1. cbn [andb].
    destruct (children_cases x t)
      as [(before & d & behind & Hd & Hk & Hb) | Hn].
    + rewrite (grow_at_child pre x rest v t before d behind Hd Hk Hb) in H2.
      cbn [children set_children] in H2. rewrite Hd.
      apply forallb_app_true in H2. destruct H2 as [F1 F2].
      cbn [forallb] in F2. apply andb_prop in F2. destruct F2 as [F2 F3].
      apply forallb_app_true. split; [exact F1|].
      cbn [forallb]. rewrite F3, andb_true_r. now apply IH in F2.
    + rewrite (grow_at_new pre x rest v t Hn) in H2.
      cbn [children set_children] in H2.
      now apply forallb_app_true in H2.
Qed.

End KeepFacts.

(** X19. Without wildcards the lookup is exact: in a trie built from
    the empty trie by calls of [Add], with a non-empty separator, in
    which no node has the wildcard as key, [Get] answers with the value
    and the pattern of the node that the keys of the path lead to, and
    with no match when they lead to none. *)
Theorem Get_exact
    (V : Type) (sep : string) (ops : list (string * iface V)) (s : string) :
  let t := AddAll (newWildcardTrie sep) ops in
  sep <> "" ->
  wildcard_free t = true ->
  Get t s = Ok (node_result (node_at (path_keys s sep) t)).
Proof.
  intros t Hsep Hw.
  destruct (AddAll_root ops (newWildcardTrie sep) Hsep) as (Es & Ek & _).
  apply Get_node_at; trivial.
  - now apply AddAll_built_ok.
  - apply AddAll_distinct_keys, newWildcardTrie_distinct_keys.
Qed.

Lemma Get_exact_witness :
  let t := AddAll (newWildcardTrie "/")
             [("/foo/bar", Some 3%Z); ("moo", Some 1%Z)] in
  Get t "foo/bar" = Ok (node_result (node_at ["foo"; "bar"] t))
  /\ Get t "/moo/cow" = Ok (node_result (node_at ["moo"; "cow"] t)).
Proof.
  split;
    apply (Get_exact Z "/" [("/foo/bar", Some 3%Z); ("moo", Some 1%Z)]);
    first [discriminate | reflexivity].
Defined.

(** X20. [Add] leaves the other answers alone: in a trie built from the
    empty trie by calls of [Add], with a non-empty separator, that has
    no wildcard node once the call [Add(p, v)] has returned, a path
    whose keys led to a node before the call, and are not those of [p],
    gets from [Get] what it got before. *)
Theorem Add_keeps_lookups
    (V : Type) (sep : string) (ops : list (string * iface V))
    (p q : string) (v : iface V) (t' n : wildcardTrie V) :
  let t := AddAll (newWildcardTrie sep) ops in
  sep <> "" ->
  Add t p v = Done t' ->
  wildcard_free t' = true ->
  node_at (path_keys q sep) t = Some n ->
  path_keys q sep <> path_keys p sep ->
  Get t' q = Get t q.
Proof.
  intros t Hsep Ha Hw' Hn Hq.
  destruct (AddAll_root ops (newWildcardTrie sep) Hsep) as (Es & Ek & _).
  fold t in Es, Ek. cbn in Es, Ek.
  assert (Hb : forallb (built_ok sep) (children t) = true)
    by now apply AddAll_built_ok.
  assert (Hd : distinct_keys t)
    by apply AddAll_distinct_keys, newWildcardTrie_distinct_keys.
  assert (Ht' : t' = after (Add t p v)) by now rewrite Ha.
  destruct (Add_Done t p v t' Ha) as [pre Hg]. rewrite Es in Hg.
  assert (Hw : wildcard_free t = true).
  { rewrite Hg in Hw'. now apply grow_wildcard_free in Hw'. }
  rewrite (Get_node_at sep Hsep t q Es Ek Hb Hw Hd), Hn.
  destruct (Add_root t p v) as (Es' & Ek' & _); [now rewrite Es|].
  rewrite <- Ht' in Es', Ek'.
  rewrite (Get_node_at sep Hsep t' q); trivial; try congruence.
  - destruct (grow_frame (path_keys q sep) (path_keys p sep) pre v t n Hn)
      as (n' & H1 & _ & _ & H4 & H5).
    rewrite Hg, H1. cbn [node_result]. now rewrite H4, H5.
  - rewrite Ht'. now apply Add_built_ok.
  - rewrite Ht'. now apply Add_distinct_keys.
Qed.

Lemma Add_keeps_lookups_witness :
  let t := AddAll (newWildcardTrie "/")
             [("/foo/bar", Some 3%Z); ("moo", Some 1%Z)] in
  Get (after (Add t "foo/bar/baz" (Some 4%Z))) "/foo/bar" = Get t "/foo/bar".
Proof.
  apply (Add_keeps_lookups Z "/" [("/foo/bar", Some 3%Z); ("moo", Some 1%Z)]
           "foo/bar/baz" "/foo/bar" (Some 4%Z) _
           (mkTrie "/" "bar" "//foo/bar" (Some 3%Z) [])).
  - discriminate.
  - reflexivity.
  - reflexivity.
  - reflexivity.
  - discriminate.
Defined.

(** ** Routes *)

Section RouteFacts.

Context {V : Type}.

Lemma cut_at_Some k (cs before : list (wildcardTrie V)) c :
  cut_at k cs = Some (before, c) ->
  exists behind,
    cs = before ++ c :: behind /\ key c = k
    /\ (forall b, In b before -> key b <> k).
Proof.
  revert before c. induction cs as [|d cs IH]; intros before c H;
    cbn [cut_at] in H; [discriminate|].
  destruct (String.eqb_spec (key d) k) as [E|E].
  - injection H as <- <-. exists cs. repeat split; [exact E | intros b []].
  - destruct (cut_at k cs) as [[bf d']|] eqn:C; [|discriminate].
    injection H as <- <-.
    destruct (IH bf d' eq_refl) as (behind & -> & Hk & Hb).
    exists behind. repeat split; [exact Hk|].
    intros b [<-|Hin]; [exact E | now apply Hb].
Qed.

Lemma cut_at_find k (cs : list (wildcardTrie V)) :
  find (fun c => String.eqb (key c) k) cs = option_map snd (cut_at k cs).
Proof.
  induction cs as [|d cs IH]; [reflexivity|]. cbn [find cut_at].
  destruct (String.eqb (key d) k); [reflexivity|].
  rewrite IH. now destruct (cut_at k cs) as [[bf d']|].
Qed.

(** The end of a route is the node that the keys lead to. *)
Lemma first_route_node ks : forall xs (t n : wildcardTrie V),
  first_route xs ks t = Some n -> node_at ks t = Some n.
Proof.
  induction ks as [|k ks IH]; intros [|x xs] t n H; cbn [first_route] in H;
    try discriminate; [exact H|].
  cbn [node_at]. rewrite cut_at_find.
  destruct (cut_at k (children t)) as [[before c]|]; [|discriminate].
  cbn [option_map snd].
  destruct ((String.eqb k x || String.eqb k wildcard)
            && forallb
                 (fun b => String.eqb (snd (get x xs wildcard b)) "") before);
    [|discriminate].
  now apply IH with xs.
Qed.

Lemma node_at_key ks : forall k (t n : wildcardTrie V),
  node_at (ks ++ [k]) t = Some n -> key n = k.
Proof.
  induction ks as [|y ks IH]; intros k t n H; cbn [app node_at] in H.
  - destruct (find (fun c => String.eqb (key c) k) (children t)) as [c|] eqn:F;
      [|discriminate].
    injection H as <-. apply find_some in F. now apply String.eqb_eq.
  - destruct (find (fun c => String.eqb (key c) y) (children t)) as [c|];
      [|discriminate].
    now apply IH with c.
Qed.

(** A lookup that enters a node whose key fits the segment returns the
    value and the pattern of the node at the end of the first route. *)
Lemma route_get ks : forall xs x0 (t n : wildcardTrie V),
  first_route xs ks t = Some n ->
  x0 = key t \/ key t = wildcard ->
  (ks <> [] -> pattern n <> "") ->
  get x0 xs wildcard t = (value n, pattern n).
Proof.
  induction ks as [|k ks IH]; intros [|x xs] x0 t n H Hm Hp;
    cbn [first_route] in H; try discriminate.
  - injection H as <-. now rewrite get_matching by exact Hm.
  - destruct (cut_at k (children t)) as [[before c]|] eqn:C; [|discriminate].
    destruct ((String.eqb k x || String.eqb k wildcard)
              && forallb
                   (fun b => String.eqb (snd (get x xs wildcard b)) "") before)
      eqn:B; [|discriminate].
    apply andb_prop in B. destruct B as [B1 B2].
    destruct (cut_at_Some k _ _ _ C) as (behind & Ec & Hk & _).
    assert (R : get x xs wildcard c = (value n, pattern n)).
    { apply IH; [exact H| |intros _; apply Hp; discriminate].
      rewrite Hk. apply orb_prop in B1.
      destruct B1 as [B1|B1]; apply String.eqb_eq in B1; [left|right];
        congruence. }
    rewrite get_matching by exact Hm. rewrite Ec.
    rewrite first_match_earliest; [exact R| |].
    + intros b Hb. apply String.eqb_eq.
      now apply (proj1 (forallb_forall _ _) B2).
    + rewrite R. apply Hp. discriminate.
Qed.

Lemma Get_route (t n : wildcardTrie V) s ks :
  separator t <> "" -> key t = "" ->
  first_route (path_keys s (separator t)) ks t = Some n ->
  (ks <> [] -> pattern n <> "") ->
  Get t s = Ok (value n, pattern n).
Proof.
  intros Hsep Hk H Hp. rewrite Get_keys by assumption. f_equal.
  apply route_get with ks; [exact H | now left | exact Hp].
Qed.

(** In a trie that [Add] built, a node whose key is neither the segment
    nor the wildcard gives no match. *)
Lemma get_built_other sep x rest (b : wildcardTrie V) :
  built_ok sep b = true -> key b <> x -> key b <> wildcard ->
  get x rest wildcard b = (None, "").
Proof.
  intros Hb Hx Hw. rewrite get_not_matching by congruence.
  destruct (built_ok_inv _ _ Hb) as (_ & _ & Hc & _).
  destruct (String.eqb_spec (key b) "") as [E|E]; [|reflexivity].
  destruct (children b); [now destruct (Hc E)|reflexivity].
Qed.

Lemma forallb_In (f : wildcardTrie V -> bool) l c :
  forallb f l = true -> In c l -> f c = true.
Proof. intros H. now apply forallb_forall. Qed.

Lemma clear_first_route sep ks : forall xs (t : wildcardTrie V),
  forallb (built_ok sep) (children t) = true ->
  clear_route xs ks t = true ->
  exists n, first_route xs ks t = Some n.
Proof.
  induction ks as [|k ks IH]; intros [|x xs] t Hb H;
    cbn [clear_route] in H; try discriminate; cbn [first_route].
  - now exists t.
  - destruct (cut_at k (children t)) as [[before c]|] eqn:C; [|discriminate].
    apply andb_prop in H. destruct H as [H H3].
    apply andb_prop in H. destruct H as [H1 H2].
    destruct (cut_at_Some k _ _ _ C) as (behind & Ec & Hk & _).
    rewrite Ec in Hb. apply forallb_app_true in Hb. destruct Hb as [Hb1 Hb2].
    cbn [forallb] in Hb2. apply andb_prop in Hb2. destruct Hb2 as [Hc _].
    rewrite H1. cbn [andb].
    assert (F : forallb
                  (fun b => String.eqb (snd (get x xs wildcard b)) "") before
                = true).
    { apply forallb_forall. intros b Hin.
      pose proof (forallb_In _ _ _ H2 Hin) as K. cbn beta in K.
      apply andb_prop in K. destruct K as [K1 K2].
      apply negb_true_iff in K1, K2.
      rewrite (get_built_other sep); [reflexivity| | |].
      - now apply (forallb_In _ _ _ Hb1).
      - now apply String.eqb_neq.
      - now apply String.eqb_neq. }
    rewrite F. apply IH; [|exact H3].
    now destruct (built_ok_inv _ _ Hc) as (_ & _ & _ & K).
Qed.

Lemma node_at_built sep ks : forall (t n : wildcardTrie V),
  forallb (built_ok sep) (children t) = true ->
  ks <> [] -> node_at ks t = Some n -> built_ok sep n = true.
Proof.
  induction ks as [|k ks IH]; intros t n Hb Hks H; [contradiction|].
  cbn [node_at] in H.
  destruct (find (fun c => String.eqb (key c) k) (children t)) as [c|] eqn:F;
    [|discriminate].
  apply find_some in F. destruct F as [Hin _].
  pose proof (forallb_In _ _ _ Hb Hin) as Hc.
  destruct ks as [|y ks].
  - injection H as <-. exact Hc.
  - apply (IH c); [|discriminate|exact H].
    now destruct (built_ok_inv _ _ Hc) as (_ & _ & _ & K).
Qed.

End RouteFacts.

(** ** Two keys that fit the same segment *)

Section SiblingFacts.

Context {V : Type}.

Lemma first_match_all_empty (f : wildcardTrie V -> iface V * string)
    (cs : list (wildcardTrie V)) :
  snd (first_match f cs) = "" -> forall c, In c cs -> snd (f c) = "".
Proof.
  induction cs as [|d cs IH]; intros H c Hin; [destruct Hin|].
  cbn [first_match] in H.
  destruct (String.eqb_spec (snd (f d)) "") as [E|E]; cbn [negb] in H.
  - destruct Hin as [<-|Hin]; [exact E | now apply IH].
  - contradiction.
Qed.

(** No child of a node that gives no match for [x] has a key that
    fits [x], when the children are as [Add] builds them. *)
Lemma no_fitting_child sep x k (t : wildcardTrie V) :
  forallb (built_ok sep) (children t) = true ->
  snd (first_match (get x [] wildcard) (children t)) = "" ->
  k = x \/ k = wildcard ->
  forall b, In b (children t) -> key b <> k.
Proof.
  intros Hb H Hk b Hin E.
  pose proof (first_match_all_empty _ _ H b Hin) as K.
  rewrite get_matching in K by (destruct Hk; [left|right]; congruence).
  cbn [snd] in K.
  now apply (built_pattern sep b (forallb_In _ _ _ Hb Hin)).
Qed.

(** The keys of the segments [ks], then two keys that both fit the
    segment [x], added one after the other below a node that gave no
    match: the lookup ends at the node that was added first. *)
Lemma grow_two_get sep x k1 k2 (v1 v2 : iface V) ks :
  k1 <> k2 -> (k1 = x \/ k1 = wildcard) -> (k2 = x \/ k2 = wildcard) ->
  forall pre1 pre2 x0 (t : wildcardTrie V),
  x0 = key t \/ key t = wildcard ->
  separator t = sep ->
  forallb (built_ok sep) (children t) = true ->
  snd (get x0 (ks ++ [x]) wildcard t) = "" ->
  exists n1 n2,
    node_at (ks ++ [k1])
      (grow pre2 (ks ++ [k2]) v2 (grow pre1 (ks ++ [k1]) v1 t)) = Some n1
    /\ node_at (ks ++ [k2])
         (grow pre2 (ks ++ [k2]) v2 (grow pre1 (ks ++ [k1]) v1 t)) = Some n2
    /\ value n1 = v1 /\ value n2 = v2
    /\ pattern n1 <> ""
    /\ get x0 (ks ++ [x]) wildcard
         (grow pre2 (ks ++ [k2]) v2 (grow pre1 (ks ++ [k1]) v1 t))
       = (v1, pattern n1).
Proof.
  intros H12 Hk1 Hk2.
  induction ks as [|k ks IH]; intros pre1 pre2 x0 t Hm Hs Hb H;
    cbn [app] in *.
  - rewrite get_matching in H by exact Hm.
    pose proof (no_fitting_child sep x k1 t Hb H Hk1) as N1.
    pose proof (no_fitting_child sep x k2 t Hb H Hk2) as N2.
    rewrite (grow_at_new pre1 k1 [] v1 t N1).
    set (n1 := grow (pre1 ++ [k1]) [] v1
                 (newTrie (separator t) k1 (pre1 ++ [k1]))).
    set (t1 := set_children (children t ++ [n1]) t).
    assert (N2' : forall b, In b (children t1) -> key b <> k2).
    { intros b Hin. cbn [t1 children set_children] in Hin.
      apply in_app_or in Hin. destruct Hin as [Hin|[<-|[]]];
        [now apply N2|]. cbn. congruence. }
    rewrite (grow_at_new pre2 k2 [] v2 t1 N2').
    set (n2 := grow (pre2 ++ [k2]) [] v2
                 (newTrie (separator t1) k2 (pre2 ++ [k2]))).
    exists n1, n2. cbn [node_at children set_children t1].
    repeat apply conj.
    + rewrite <- app_assoc. cbn [app].
      now rewrite (find_at k1 (children t) n1 [n2] eq_refl N1).
    + now rewrite (find_at k2 (children t ++ [n1]) n2 [] eq_refl N2').
    + reflexivity.
    + reflexivity.
    + discriminate.
    + rewrite get_matching by exact Hm.
      cbn [children set_children]. rewrite <- app_assoc. cbn [app].
      rewrite first_match_earliest.
      * rewrite get_matching; [reflexivity|].
        destruct Hk1; [left|right]; cbn; congruence.
      * intros b Hin.
        now apply (first_match_all_empty _ _ H).
      * rewrite get_matching by (destruct Hk1; [left|right]; cbn; congruence).
        discriminate.
  - rewrite get_matching in H by exact Hm.
    pose proof (first_match_all_empty _ _ H) as A.
    destruct (children_cases k t)
      as [(before & c & behind & Ec & Hk & Hbf)|Hnone].
    + rewrite (grow_at_child pre1 k (ks ++ [k1]) v1 t before c behind Ec Hk Hbf).
      set (c1 := grow (pre1 ++ [k]) (ks ++ [k1]) v1 c).
      assert (Hk' : key c1 = k) by (unfold c1; now rewrite grow_key).
      rewrite (grow_at_child pre2 k (ks ++ [k2]) v2
                 (set_children (before ++ c1 :: behind) t) before c1 behind
                 eq_refl Hk' Hbf).
      assert (Hin : In c (children t)).
      { rewrite Ec. apply in_or_app. right. now left. }
      pose proof (forallb_In _ _ _ Hb Hin) as Hc.
      destruct (built_ok_inv _ _ Hc) as (Hcs & _ & _ & Hcb).
      destruct (IH (pre1 ++ [k]) (pre2 ++ [k]) k c
                  (or_introl (eq_sym Hk)) Hcs Hcb (A c Hin))
        as (n1 & n2 & E1 & E2 & V1 & V2 & P & G).
      fold c1 in E1, E2, G.
      set (c2 := grow (pre2 ++ [k]) (ks ++ [k2]) v2 c1) in *.
      assert (Hk2' : key c2 = k) by (unfold c2; now rewrite grow_key).
      exists n1, n2. cbn [node_at children set_children].
      rewrite (find_at k before c2 behind Hk2' Hbf).
      repeat apply conj; try assumption.
      rewrite get_matching by exact Hm. cbn [children set_children].
      rewrite first_match_earliest; [exact G| |now rewrite G].
      intros b Hb'. apply A. rewrite Ec. apply in_or_app. now left.
    + rewrite (grow_at_new pre1 k (ks ++ [k1]) v1 t Hnone).
      set (c0 := newTrie (separator t) k (pre1 ++ [k])).
      set (c1 := grow (pre1 ++ [k]) (ks ++ [k1]) v1 c0).
      assert (Hk' : key c1 = k) by (unfold c1; now rewrite grow_key).
      rewrite (grow_at_child pre2 k (ks ++ [k2]) v2
                 (set_children (children t ++ [c1]) t) (children t) c1 []
                 eq_refl Hk' Hnone).
      assert (G0 : snd (get k (ks ++ [x]) wildcard c0) = "").
      { rewrite get_matching by now left.
        destruct (ks ++ [x]) eqn:E; [now destruct ks|reflexivity]. }
      destruct (IH (pre1 ++ [k]) (pre2 ++ [k]) k c0
                  (or_introl eq_refl) Hs eq_refl G0)
        as (n1 & n2 & E1 & E2 & V1 & V2 & P & G).
      fold c1 in E1, E2, G.
      set (c2 := grow (pre2 ++ [k]) (ks ++ [k2]) v2 c1) in *.
      assert (Hk2' : key c2 = k) by (unfold c2; now rewrite grow_key).
      exists n1, n2. cbn [node_at children set_children].
      rewrite (find_at k (children t) c2 [] Hk2' Hnone).
      repeat apply conj; try assumption.
      rewrite get_matching by exact Hm. cbn [children set_children].
      rewrite first_match_earliest; [exact G| |now rewrite G].
      intros b Hb'. now apply A.
Qed.

(** What [Add] does with a pattern whose last key is not empty. *)
Lemma Add_keys (t : wildcardTrie V) p v ks k :
  path_keys p (separator t) = ks ++ [k] -> k <> "" ->
  exists pre, Add t p v = Done (grow pre (ks ++ [k]) v t).
Proof.
  unfold path_keys, Add. intros H Hk.
  destruct (Split p (separator t)) as [|x0 tl]; [now destruct ks|].
  assert (L : forall l : list string, List.last (l ++ [k]) "" = k)
    by (intros l; apply last_last).
  destruct (String.eqb_spec x0 "") as [->|Hx].
  - rewrite H. exists [""].
    change ("" :: ks ++ [k]) with (("" :: ks) ++ [k]). rewrite L.
    destruct (String.eqb_spec k ""); [contradiction|].
    now rewrite andb_false_r.
  - rewrite H, L. exists [].
    destruct (String.eqb_spec k ""); [contradiction|].
    now rewrite andb_false_r.
Qed.

End SiblingFacts.

(** ** First registered, first matched *)

Section BuiltTries.

Context {V : Type}.
Variable sep : string.
Hypothesis sep_nonempty : sep <> "".

(** What holds of every trie that [Add] built. *)
Lemma AddAll_built (ops : list (string * iface V)) :
  let t := AddAll (newWildcardTrie sep) ops in
  separator t = sep /\ key t = ""
  /\ forallb (built_ok sep) (children t) = true.
Proof.
  intros t.
  destruct (AddAll_root ops (newWildcardTrie sep) sep_nonempty)
    as (Hs & Hk & _).
  repeat split; [exact Hs | exact Hk |].
  now apply AddAll_built_ok.
Qed.

Lemma first_added_wins (ops : list (string * iface V)) p1 p2 q ks k1 k2 x
    (v1 v2 : iface V) :
  path_keys p1 sep = ks ++ [k1] -> path_keys p2 sep = ks ++ [k2] ->
  path_keys q sep = ks ++ [x] ->
  k1 <> k2 -> (k1 = x \/ k1 = wildcard) -> (k2 = x \/ k2 = wildcard) ->
  k1 <> "" -> k2 <> "" ->
  Get (AddAll (newWildcardTrie sep) ops) q = Ok (None, "") ->
  exists t1 t2 n1 n2,
    Add (AddAll (newWildcardTrie sep) ops) p1 v1 = Done t1
    /\ Add t1 p2 v2 = Done t2
    /\ node_at (ks ++ [k1]) t2 = Some n1 /\ node_at (ks ++ [k2]) t2 = Some n2
    /\ key n1 = k1 /\ key n2 = k2
    /\ value n1 = v1 /\ value n2 = v2
    /\ pattern n1 <> ""
    /\ Get t2 q = Ok (v1, pattern n1).
Proof.
  intros P1 P2 Q H12 Hk1 Hk2 N1 N2 G.
  destruct (AddAll_built ops) as (Hs & Hk & Hb).
  set (t := AddAll (newWildcardTrie sep) ops) in *.
  rewrite <- Hs in P1.
  destruct (Add_keys t p1 v1 ks k1 P1 N1) as [pre1 A1].
  set (t1 := grow pre1 (ks ++ [k1]) v1 t) in *.
  assert (Hs1 : separator t1 = sep).
  { unfold t1. destruct (grow_fields pre1 (ks ++ [k1]) v1 t) as (-> & _).
    exact Hs. }
  rewrite <- Hs1 in P2.
  destruct (Add_keys t1 p2 v2 ks k2 P2 N2) as [pre2 A2].
  set (t2 := grow pre2 (ks ++ [k2]) v2 t1) in *.
  assert (G0 : snd (get "" (ks ++ [x]) wildcard t) = "").
  { rewrite Get_keys in G by (rewrite ?Hs; assumption).
    rewrite Hs, Q in G. injection G as G. now rewrite G. }
  destruct (grow_two_get sep x k1 k2 v1 v2 ks H12 Hk1 Hk2 pre1 pre2 "" t
              (or_introl (eq_sym Hk)) Hs Hb G0)
    as (n1 & n2 & E1 & E2 & V1 & V2 & P & R).
  fold t1 in E1, E2, R. fold t2 in E1, E2, R.
  exists t1, t2, n1, n2.
  split; [exact A1|]. split; [exact A2|].
  split; [exact E1|]. split; [exact E2|].
  split; [now apply node_at_key with ks t2|].
  split; [now apply node_at_key with ks t2|].
  split; [exact V1|]. split; [exact V2|]. split; [exact P|].
  assert (Hs2 : separator t2 = sep).
  { unfold t2. destruct (grow_fields pre2 (ks ++ [k2]) v2 t1) as (-> & _).
    exact Hs1. }
  assert (Hk2' : key t2 = "").
  { unfold t2, t1. now rewrite !grow_key. }
  rewrite Get_keys by (rewrite ?Hs2; assumption).
  now rewrite Hs2, Q, R.
Qed.

End BuiltTries.

(** C2. At every node that matches the current segment, [get] returns
    the result of the earliest child, in the order of the children list,
    whose subtree gives a non-empty pattern, and so does [Get] at the
    root, for a path without and for a path with a leading separator;
    level after level this makes [Get] return the value and pattern of
    the node at the end of the first route of the path. [grow] keeps the
    children in their order and appends a new child, so that the order
    is the order of insertion. In particular, in a trie
    that [Add] built and in which the path [q] has no match, a pattern
    that ends with the wildcard and a pattern that ends with the last
    segment of [q], both with the other keys of [q], can be added in
    either order: both nodes are there afterwards, and [Get(q)] gives
    the value and pattern of the wildcard node when that was added
    first, and of the literal node when that was added first. So with
    "foo/*" added before "foo/bar" the lookup of "foo/bar" gives the
    wildcard node, and with the two added in the other order it gives
    the literal node. *)
Theorem C2_first_registered_wins (V : Type) :
  (forall (t : wildcardTrie V) x y rest before c behind,
      x = key t \/ key t = wildcard ->
      children t = before ++ c :: behind ->
      (forall b, In b before -> snd (get y rest wildcard b) = "") ->
      snd (get y rest wildcard c) <> "" ->
      get x (y :: rest) wildcard t = get y rest wildcard c)
  /\ (forall (t : wildcardTrie V) s x rest before c behind,
      Split s (separator t) = x :: rest ->
      x <> "" ->
      children t = before ++ c :: behind ->
      (forall b, In b before -> snd (get x rest wildcard b) = "") ->
      snd (get x rest wildcard c) <> "" ->
      Get t s = Ok (get x rest wildcard c))
  /\ (forall (t : wildcardTrie V) s y rest before c behind,
      Split s (separator t) = "" :: y :: rest ->
      key t = "" \/ key t = wildcard ->
      children t = before ++ c :: behind ->
      (forall b, In b before -> snd (get y rest wildcard b) = "") ->
      snd (get y rest wildcard c) <> "" ->
      Get t s = Ok (get y rest wildcard c))
  /\ (forall (t n : wildcardTrie V) s ks,
      separator t <> "" -> key t = "" ->
      first_route (path_keys s (separator t)) ks t = Some n ->
      (ks <> [] -> pattern n <> "") ->
      Get t s = Ok (value n, pattern n))
  /\ (forall pre x rest (v : iface V) (t : wildcardTrie V),
      map key (children (grow pre (x :: rest) v t))
      = if existsb (fun c => String.eqb (key c) x) (children t)
        then map key (children t)
        else map key (children t) ++ [x])
  /\ (forall sep (ops : list (string * iface V)) ps pl q ks x (w l : iface V),
      let t := AddAll (newWildcardTrie sep) ops in
      sep <> "" ->
      path_keys ps sep = ks ++ [wildcard] ->
      path_keys pl sep = ks ++ [x] ->
      path_keys q sep = ks ++ [x] ->
      x <> wildcard -> x <> "" ->
      Get t q = Ok (None, "") ->
      (exists ta t1 ns nl,
          Add t ps w = Done ta /\ Add ta pl l = Done t1
          /\ node_at (ks ++ [wildcard]) t1 = Some ns
          /\ node_at (ks ++ [x]) t1 = Some nl
          /\ key ns = wildcard /\ key nl = x
          /\ value ns = w /\ value nl = l
          /\ pattern ns <> ""
          /\ Get t1 q = Ok (w, pattern ns))
      /\ (exists tb t2 nl ns,
          Add t pl l = Done tb /\ Add tb ps w = Done t2
          /\ node_at (ks ++ [x]) t2 = Some nl
          /\ node_at (ks ++ [wildcard]) t2 = Some ns
          /\ key nl = x /\ key ns = wildcard
          /\ value nl = l /\ value ns = w
          /\ pattern nl <> ""
          /\ Get t2 q = Ok (l, pattern nl)))
  /\ (forall w l : iface V,
      Get (AddAll (newWildcardTrie "/") [("foo/*", w); ("foo/bar", l)])
        "foo/bar" = Ok (w, "/foo/*")
      /\ Get (AddAll (newWildcardTrie "/") [("foo/bar", l); ("foo/*", w)])
           "foo/bar" = Ok (l, "/foo/bar")).
Proof.
  repeat apply conj.
  - intros t x y rest before c behind Hm Hc Hb Hn.
    rewrite get_matching by exact Hm. rewrite Hc.
    now apply first_match_earliest.
  - intros t s x rest before c behind Hs Hx Hc Hb Hn.
    unfold Get. rewrite Hs.
    destruct (String.eqb_spec x ""); [contradiction|].
    rewrite Hc. f_equal. now apply first_match_earliest.
  - intros t s y rest before c behind Hs Hm Hc Hb Hn.
    unfold Get. rewrite Hs. cbn [String.eqb]. f_equal.
    rewrite get_matching by (destruct Hm; [left|right]; congruence).
    rewrite Hc. now apply first_match_earliest.
  - intros t n s ks. apply Get_route.
  - intros. apply grow_children_keys.
  - intros sep ops ps pl q ks x w l t Hsep Ps Pl Q Hxw Hx G. split.
    + apply (first_added_wins sep Hsep ops ps pl q ks wildcard x x w l);
        try assumption; try discriminate;
        [congruence | now right | now left].
    + apply (first_added_wins sep Hsep ops pl ps q ks x wildcard x l w);
        try assumption; try discriminate; [now left | now right].
  - intros w l. split; reflexivity.
Qed.

Lemma C2_first_registered_wins_witness :
  let star := Tests.leaf "*" "/foo/*" (Tests.int 99) in
  let bar := Tests.leaf "bar" "/foo/bar" (Tests.int 3) in
  let foo := mkTrie "/" "foo" "/foo" (Tests.int 2) [star; bar] in
  let t := AddAll (newWildcardTrie "/")
             [("moo/*", Some 1%Z); ("foo", Some 2%Z)] in
  (get "foo" ["bar"] wildcard foo = (Tests.int 99, "/foo/*")
   /\ Get (mkTrie "/" "" "" None [foo]) "foo/bar" = Ok (Tests.int 99, "/foo/*")
   /\ Get (mkTrie "/" "" "" None [foo]) "/foo/bar"
      = Ok (Tests.int 99, "/foo/*")
   /\ Get Tests.basicTrie "/foo/bla/x" = Ok (Tests.int 6, "/foo/bla/*"))
  /\ (exists ta t1 ns nl,
         Add t "foo/*" (Some 99%Z) = Done ta
         /\ Add ta "/foo/bar" (Some 3%Z) = Done t1
         /\ node_at (["foo"] ++ [wildcard]) t1 = Some ns
         /\ node_at (["foo"] ++ ["bar"]) t1 = Some nl
         /\ key ns = wildcard /\ key nl = "bar"
         /\ value ns = Some 99%Z /\ value nl = Some 3%Z
         /\ pattern ns <> ""
         /\ Get t1 "/foo/bar" = Ok (Some 99%Z, pattern ns))
  /\ (exists tb t2 nl ns,
         Add t "/foo/bar" (Some 3%Z) = Done tb
         /\ Add tb "foo/*" (Some 99%Z) = Done t2
         /\ node_at (["foo"] ++ ["bar"]) t2 = Some nl
         /\ node_at (["foo"] ++ [wildcard]) t2 = Some ns
         /\ key nl = "bar" /\ key ns = wildcard
         /\ value nl = Some 3%Z /\ value ns = Some 99%Z
         /\ pattern nl <> ""
         /\ Get t2 "/foo/bar" = Ok (Some 3%Z, pattern nl)).
Proof.
  pose proof (C2_first_registered_wins Tests.val) as (H1 & H2 & H3 & H4 & _).
  pose proof (C2_first_registered_wins Z) as (_ & _ & _ & _ & _ & H5 & _).
  split; [repeat apply conj|].
  - apply (H1 (mkTrie "/" "foo" "/foo" (Tests.int 2)
                 [Tests.leaf "*" "/foo/*" (Tests.int 99);
                  Tests.leaf "bar" "/foo/bar" (Tests.int 3)])
              "foo" "bar" [] []
              (Tests.leaf "*" "/foo/*" (Tests.int 99))
              [Tests.leaf "bar" "/foo/bar" (Tests.int 3)]).
    + left; reflexivity.
    + reflexivity.
    + intros b [].
    + discriminate.
  - apply (H2 (mkTrie "/" "" "" None
                 [mkTrie "/" "foo" "/foo" (Tests.int 2)
                    [Tests.leaf "*" "/foo/*" (Tests.int 99);
                     Tests.leaf "bar" "/foo/bar" (Tests.int 3)]])
              "foo/bar" "foo" ["bar"] []
              (mkTrie "/" "foo" "/foo" (Tests.int 2)
                 [Tests.leaf "*" "/foo/*" (Tests.int 99);
                  Tests.leaf "bar" "/foo/bar" (Tests.int 3)])
              []).
    + reflexivity.
    + discriminate.
    + reflexivity.
    + intros b [].
    + discriminate.
  - apply (H3 (mkTrie "/" "" "" None
                 [mkTrie "/" "foo" "/foo" (Tests.int 2)
                    [Tests.leaf "*" "/foo/*" (Tests.int 99);
                     Tests.leaf "bar" "/foo/bar" (Tests.int 3)]])
              "/foo/bar" "foo" ["bar"] []
              (mkTrie "/" "foo" "/foo" (Tests.int 2)
                 [Tests.leaf "*" "/foo/*" (Tests.int 99);
                  Tests.leaf "bar" "/foo/bar" (Tests.int 3)])
              []).
    + reflexivity.
    + left; reflexivity.
    + reflexivity.
    + intros b [].
    + discriminate.
  - apply (H4 Tests.basicTrie
              (Tests.leaf "*" "/foo/bla/*" (Tests.int 6))
              "/foo/bla/x" ["foo"; "bla"; "*"]).
    + discriminate.
    + reflexivity.
    + reflexivity.
    + discriminate.
  - apply (H5 "/" [("moo/*", Some 1%Z); ("foo", Some 2%Z)]
              "foo/*" "/foo/bar" "/foo/bar" ["foo"] "bar"
              (Some 99%Z) (Some 3%Z)).
    + discriminate.
    + reflexivity.
    + reflexivity.
    + reflexivity.
    + discriminate.
    + discriminate.
    + reflexivity.
Defined.

(** ** The same pattern added twice *)

Section OverwriteFacts.

Context {V : Type}.

(** Whether [Add] returns does not depend on the value. *)
Lemma Add_Done_any (t t1 : wildcardTrie V) p v1 :
  Add t p v1 = Done t1 ->
  exists pre,
    forall v, Add t p v = Done (grow pre (path_keys p (separator t)) v t).
Proof.
  unfold Add, path_keys.
  destruct (Split p (separator t)) as [|x0 tl]; [discriminate|].
  destruct ((1 <? List.length (x0 :: tl))%nat
            && String.eqb (List.last (x0 :: tl) "") ""); [discriminate|].
  intros _. destruct (String.eqb x0 ""); [exists [x0] | exists []];
    reflexivity.
Qed.

(** A pattern that does not end with the separator is accepted. *)
Lemma Add_not_suffix (t : wildcardTrie V) p v :
  separator t <> "" -> HasSuffix p (separator t) = false ->
  exists t1, Add t p v = Done t1.
Proof.
  intros Hsep Hsuf. unfold Add.
  destruct (Split p (separator t)) as [|x0 tl] eqn:E;
    [now apply Split_not_nil in E|].
  destruct ((1 <? List.length (x0 :: tl))%nat) eqn:L; cbn [andb].
  - destruct (String.eqb_spec (List.last (x0 :: tl) "") "") as [El|_].
    + rewrite <- E in L, El.
      rewrite (Split_last_empty _ Hsep p L El) in Hsuf. discriminate.
    + destruct (String.eqb x0 ""); eauto.
  - destruct (String.eqb x0 ""); eauto.
Qed.

(** The second of two calls of [Add] with the same pattern replaces the
    value of the node of the pattern and does nothing else. *)
Lemma overwrite_sets (t t1 : wildcardTrie V) p v1 v2 :
  Add t p v1 = Done t1 ->
  exists n,
    node_at (path_keys p (separator t)) t1 = Some n
    /\ Add t1 p v2 = Done (set_at (path_keys p (separator t)) v2 t1)
    /\ node_at (path_keys p (separator t))
         (set_at (path_keys p (separator t)) v2 t1)
       = Some (set_value v2 n).
Proof.
  intros A. destruct (Add_Done_any t t1 p v1 A) as [pre Hpre].
  rewrite Hpre in A. injection A as <-.
  set (ks := path_keys p (separator t)) in *.
  destruct (node_at_grow ks pre v1 t) as [n Hn].
  exists n. split; [exact Hn|]. split.
  - rewrite (Add_again t p v1 v2 _ (Hpre v1)), Hpre.
    now rewrite <- grow_again_sets, grow_twice.
  - now rewrite node_at_set_at, Hn.
Qed.

(** Below a root whose children are as [Add] builds them from patterns
    without a leading separator, the pattern of a node is "/" followed
    by the keys that lead to it, joined. *)
Lemma node_ok_at sep rest : forall x path (t n : wildcardTrie V),
  Forall (node_ok sep path) (children t) ->
  node_at (x :: rest) t = Some n ->
  pattern n = ("/" ++ Join (path ++ x :: rest) sep)%string.
Proof.
  induction rest as [|y rest IH]; intros x path t n Hc H;
    cbn [node_at] in H;
    destruct (find (fun c => String.eqb (key c) x) (children t)) as [c|] eqn:F;
    try discriminate;
    apply find_some in F; destruct F as [Hin Hk];
    apply String.eqb_eq in Hk;
    pose proof (proj1 (Forall_forall _ _) Hc c Hin) as Hok;
    destruct (node_ok_inv sep path c Hok) as (_ & Hp & _ & Hcs);
    rewrite Hk in Hp, Hcs.
  - injection H as <-. exact Hp.
  - change (match find (fun c => String.eqb (key c) y) (children c) with
            | Some c0 => node_at rest c0
            | None => None
            end) with (node_at (y :: rest) c) in H.
    rewrite (IH y (path ++ [x]) c n Hcs H). now rewrite <- app_assoc.
Qed.

End OverwriteFacts.

(** C5 (as amended). [Add(p, v1)] returns when [p] does not end with
    the separator, which is not empty. Whenever it returns, on any trie,
    [Add(p, v2)] returns as well and does nothing but replace the value
    of the node of [p]: that node is the node [n] of the first call with
    [v2] as value, its children and those of every other node are kept.
    On a trie whose root has the empty key, with a non-empty separator,
    [Get(p)] then returns [v2] with the pattern held by that node, when
    that pattern is not empty and the keys of [p] are the first route of
    its segments: no child listed before a node of the route gives a
    match for what is left of [p]. In a trie that [Add] built this is so
    when no child listed before a node of the route has the wildcard as
    its key. With the separator "/" and patterns that do not begin with
    it, the pattern held by the node is "/" followed by [p]. *)
Theorem C5_overwrite (V : Type) :
  (forall (t : wildcardTrie V) p v1,
      separator t <> "" -> HasSuffix p (separator t) = false ->
      exists t1, Add t p v1 = Done t1)
  /\ (forall (t t1 : wildcardTrie V) p v1 v2,
      Add t p v1 = Done t1 ->
      exists n,
        node_at (path_keys p (separator t)) t1 = Some n
        /\ Add t1 p v2 = Done (set_at (path_keys p (separator t)) v2 t1)
        /\ node_at (path_keys p (separator t))
             (set_at (path_keys p (separator t)) v2 t1)
           = Some (set_value v2 n))
  /\ (forall (t t1 t2 n : wildcardTrie V) p v1 v2,
      separator t <> "" -> key t = "" ->
      Add t p v1 = Done t1 -> Add t1 p v2 = Done t2 ->
      first_route (path_keys p (separator t)) (path_keys p (separator t)) t2
      = Some n ->
      (p <> "" -> pattern n <> "") ->
      value n = v2 /\ Get t2 p = Ok (v2, pattern n))
  /\ (forall sep (ops : list (string * iface V)) p v1 v2
        (t1 t2 : wildcardTrie V),
      let t := AddAll (newWildcardTrie sep) ops in
      sep <> "" ->
      Add t p v1 = Done t1 -> Add t1 p v2 = Done t2 ->
      clear_route (path_keys p sep) (path_keys p sep) t2 = true ->
      exists n,
        node_at (path_keys p sep) t2 = Some n
        /\ value n = v2
        /\ (p <> "" -> pattern n <> "")
        /\ Get t2 p = Ok (v2, pattern n))
  /\ (forall (ops : list (string * iface V)) p v1 v2
        (t1 t2 n : wildcardTrie V),
      let t := AddAll (newWildcardTrie "/") ops in
      forallb (fun op => negb (HasPrefix (fst op) "/")) ops = true ->
      p <> "" -> HasPrefix p "/" = false ->
      Add t p v1 = Done t1 -> Add t1 p v2 = Done t2 ->
      node_at (path_keys p "/") t2 = Some n ->
      pattern n = ("/" ++ p)%string).
Proof.
  assert (A : forall (t t1 t2 n : wildcardTrie V) p v1 v2,
      separator t <> "" -> key t = "" ->
      Add t p v1 = Done t1 -> Add t1 p v2 = Done t2 ->
      first_route (path_keys p (separator t)) (path_keys p (separator t)) t2
      = Some n ->
      (p <> "" -> pattern n <> "") ->
      value n = v2 /\ Get t2 p = Ok (v2, pattern n)).
  { intros t t1 t2 n p v1 v2 Hsep Hk A1 A2 R Hp.
    destruct (overwrite_sets t t1 p v1 v2 A1) as (n1 & _ & A2' & N).
    rewrite A2 in A2'. injection A2' as E. rewrite <- E in N.
    pose proof (first_route_node _ _ _ _ R) as N'.
    rewrite N in N'. injection N' as <-.
    split; [reflexivity|].
    assert (S2 : separator t2 = separator t).
    { pose proof (Add_separator t1 p v2) as S. rewrite A2 in S.
      pose proof (Add_separator t p v1) as S'. rewrite A1 in S'.
      cbn [after] in S, S'. congruence. }
    assert (K2 : key t2 = "").
    { destruct (Add_Done t p v1 t1 A1) as [pre1 ->].
      destruct (Add_Done _ p v2 t2 A2) as [pre2 ->].
      now rewrite !grow_key. }
    rewrite <- S2 in R at 1.
    apply (Get_route t2 _ p _) in R; [exact R | congruence | exact K2 |].
    intros Hks. apply Hp. intros ->. apply Hks.
    unfold path_keys. now rewrite Split_empty. }
  repeat apply conj.
  - intros t p v1. apply Add_not_suffix.
  - intros t t1 p v1 v2. apply overwrite_sets.
  - exact A.
  - intros sep ops p v1 v2 t1 t2 t Hsep A1 A2 C.
    destruct (AddAll_built sep Hsep ops) as (Hs & Hk & Hb).
    fold t in Hs, Hk, Hb.
    assert (B2 : forallb (built_ok sep) (children t2) = true).
    { pose proof (Add_built_ok sep t p v1 Hsep Hs Hb) as B1.
      rewrite A1 in B1. cbn [after] in B1.
      pose proof (Add_separator t p v1) as S1. rewrite A1 in S1.
      cbn [after] in S1.
      pose proof (Add_built_ok sep t1 p v2 Hsep ltac:(congruence) B1) as B.
      now rewrite A2 in B. }
    destruct (clear_first_route sep _ _ t2 B2 C) as [n R].
    assert (P : p <> "" -> pattern n <> "").
    { intros Hp. apply (built_pattern sep).
      apply (node_at_built sep (path_keys p sep) t2); [exact B2| |].
      - now apply path_keys_not_nil.
      - now apply first_route_node with (path_keys p sep). }
    rewrite <- Hs in R.
    destruct (A t t1 t2 n p v1 v2 ltac:(congruence) Hk A1 A2 R P) as [Hv G].
    exists n. rewrite Hs in R.
    split; [now apply first_route_node with (path_keys p sep)|].
    now repeat split.
  - intros ops p v1 v2 t1 t2 n t Hops Hp Hpre A1 A2 N.
    assert (R : root_ok "/" t).
    { apply AddAll_root_ok;
        [discriminate | apply newWildcardTrie_root_ok | exact Hops]. }
    pose proof (Add_root_ok "/" ltac:(discriminate) t p v1 R Hpre) as R1.
    rewrite A1 in R1. cbn [after] in R1.
    pose proof (Add_root_ok "/" ltac:(discriminate) t1 p v2 R1 Hpre) as R2.
    rewrite A2 in R2. cbn [after] in R2.
    destruct R2 as (_ & _ & Hc).
    destruct (Split_head "/" ltac:(discriminate) p Hp Hpre)
      as (x & rest & E & Hx).
    unfold path_keys in N. rewrite E in N.
    destruct (String.eqb_spec x ""); [contradiction|].
    rewrite (node_ok_at "/" rest x [] t2 n Hc N). cbn [app].
    now rewrite <- E, Join_Split.
Qed.

Lemma C5_overwrite_witness :
  let t := AddAll (newWildcardTrie "/")
             [("moo/*", Some 14%Z); ("foo", Some 1%Z);
              ("foo/bar/x", Some 5%Z); ("foo/*", Some 99%Z)] in
  let t2 := AddAll t [("foo/bar", Some 3%Z); ("foo/bar", Some 4%Z)] in
  let u := AddAll (newWildcardTrie "/") [("/foo/*/y", Some 1%Z)] in
  let u2 := AddAll u [("/foo/bar/x", Some 3%Z); ("/foo/bar/x", Some 4%Z)] in
  (exists t1, Add t "foo//bar" (Some 3%Z) = Done t1)
  /\ (exists n,
      node_at ["foo"; "bar"] (after (Add t "foo/bar" (Some 3%Z))) = Some n
      /\ Add (after (Add t "foo/bar" (Some 3%Z))) "foo/bar" (Some 4%Z)
         = Done (set_at ["foo"; "bar"] (Some 4%Z)
                   (after (Add t "foo/bar" (Some 3%Z))))
      /\ node_at ["foo"; "bar"]
           (set_at ["foo"; "bar"] (Some 4%Z)
              (after (Add t "foo/bar" (Some 3%Z))))
         = Some (set_value (Some 4%Z) n))
  /\ (clear_route ["foo"; "bar"; "x"] ["foo"; "bar"; "x"] u2 = false
      /\ Get u2 "/foo/bar/x" = Ok (Some 4%Z, "//foo/bar/x"))
  /\ (exists n,
         node_at ["foo"; "bar"] t2 = Some n
         /\ value n = Some 4%Z
         /\ pattern n = "/foo/bar"
         /\ Get t2 "foo/bar" = Ok (Some 4%Z, "/foo/bar")).
Proof.
  pose proof (C5_overwrite Z) as (H0 & H1 & H2 & H3 & H4).
  repeat apply conj.
  - apply H0; [discriminate | reflexivity].
  - apply (H1 (AddAll (newWildcardTrie "/")
                 [("moo/*", Some 14%Z); ("foo", Some 1%Z);
                  ("foo/bar/x", Some 5%Z); ("foo/*", Some 99%Z)])
              _ "foo/bar" (Some 3%Z) (Some 4%Z)).
    reflexivity.
  - reflexivity.
  - apply (proj2
             (H2 (AddAll (newWildcardTrie "/") [("/foo/*/y", Some 1%Z)])
                (AddAll (newWildcardTrie "/")
                   [("/foo/*/y", Some 1%Z); ("/foo/bar/x", Some 3%Z)])
                (AddAll (newWildcardTrie "/")
                   [("/foo/*/y", Some 1%Z); ("/foo/bar/x", Some 3%Z);
                    ("/foo/bar/x", Some 4%Z)])
                (mkTrie "/" "x" "//foo/bar/x" (Some 4%Z) [])
                "/foo/bar/x" (Some 3%Z) (Some 4%Z)
                ltac:(discriminate) eq_refl eq_refl eq_refl eq_refl
                ltac:(discriminate))).
  - destruct (H3 "/" [("moo/*", Some 14%Z); ("foo", Some 1%Z);
                      ("foo/bar/x", Some 5%Z); ("foo/*", Some 99%Z)]
                "foo/bar" (Some 3%Z) (Some 4%Z)
                (AddAll (newWildcardTrie "/")
                   [("moo/*", Some 14%Z); ("foo", Some 1%Z);
                    ("foo/bar/x", Some 5%Z); ("foo/*", Some 99%Z);
                    ("foo/bar", Some 3%Z)])
                (AddAll (newWildcardTrie "/")
                   [("moo/*", Some 14%Z); ("foo", Some 1%Z);
                    ("foo/bar/x", Some 5%Z); ("foo/*", Some 99%Z);
                    ("foo/bar", Some 3%Z); ("foo/bar", Some 4%Z)])
                ltac:(discriminate) eq_refl eq_refl eq_refl)
      as (n & N & Hv & _ & G).
    pose proof (H4 [("moo/*", Some 14%Z); ("foo", Some 1%Z);
                    ("foo/bar/x", Some 5%Z); ("foo/*", Some 99%Z)]
                  "foo/bar" (Some 3%Z) (Some 4%Z)
                  (AddAll (newWildcardTrie "/")
                     [("moo/*", Some 14%Z); ("foo", Some 1%Z);
                      ("foo/bar/x", Some 5%Z); ("foo/*", Some 99%Z);
                      ("foo/bar", Some 3%Z)])
                  (AddAll (newWildcardTrie "/")
                     [("moo/*", Some 14%Z); ("foo", Some 1%Z);
                      ("foo/bar/x", Some 5%Z); ("foo/*", Some 99%Z);
                      ("foo/bar", Some 3%Z); ("foo/bar", Some 4%Z)])
                  n eq_refl ltac:(discriminate) eq_refl eq_refl eq_refl N)
      as P.
    exists n. split; [exact N|]. split; [exact Hv|]. split; [exact P|].
    exact (eq_trans G (f_equal (fun s => Ok (Some 4%Z, s)) P)).
Defined.

(** C5, the claim as stated fails. After [Add("foo/*", 99)], adding
    "foo/bar" twice and looking it up gives the wildcard node, which was
    there first; and on the empty trie the pattern that [Get] reports for
    "foo/bar" is "/foo/bar", not the string that was added. *)
Lemma C5_counterexample :
  let shadowed := AddAll (newWildcardTrie "/")
                    [("foo/*", Some 99%Z);
                     ("foo/bar", Some 1%Z); ("foo/bar", Some 2%Z)] in
  let alone := AddAll (newWildcardTrie "/")
                 [("foo/bar", Some 1%Z); ("foo/bar", Some 2%Z)] in
  Get shadowed "foo/bar" = Ok (Some 99%Z, "/foo/*")
  /\ Get shadowed "foo/bar" <> Ok (Some 2%Z, "foo/bar")
  /\ Get alone "foo/bar" = Ok (Some 2%Z, "/foo/bar")
  /\ Get alone "foo/bar" <> Ok (Some 2%Z, "foo/bar").
Proof. repeat split; try reflexivity; discriminate. Qed.

(** ** Lookup paths that end with the separator *)

Section FinalSegment.

Context {V : Type}.

(** When the last segment is empty, a match is the value and pattern
    of a node whose key is empty or the wildcard. *)
Lemma get_final_keys rest : forall x (t : wildcardTrie V),
  List.last (x :: rest) "" = "" ->
  snd (get x rest wildcard t) = ""
  \/ exists n,
       In n (nodes t) /\ (key n = "" \/ key n = wildcard)
       /\ get x rest wildcard t = (value n, pattern n).
Proof.
  induction rest as [|y rest IH]; intros x t Hl.
  - cbn [List.last] in Hl. subst x. cbn [get].
    destruct (String.eqb_spec "" (key t)) as [E|E]; cbn [negb andb].
    + right. exists t. split; [now left|]. split; [now left | reflexivity].
    + destruct (String.eqb_spec (key t) wildcard) as [W|W]; cbn [negb].
      * right. exists t. split; [now left|]. split; [now right | reflexivity].
      * destruct (String.eqb_spec (key t) ""); [congruence|]. now left.
  - assert (Hl' : List.last (y :: rest) "" = "") by exact Hl.
    cbn [get].
    destruct (negb (String.eqb x (key t))
              && negb (String.eqb (key t) wildcard)).
    + destruct (String.eqb_spec (key t) "") as [E|E]; cbn [andb];
        [|now left].
      destruct (List.length (children t) =? 0)%nat; [|now left].
      right. exists t. split; [now left|]. split; [now left | reflexivity].
    + destruct (first_match_cases (get y rest wildcard) (children t))
        as [E|(c & Hc & E & Hn)]; [left; now rewrite E|].
      destruct (IH y c Hl') as [K|(n & Hin & Hk & G)]; [contradiction|].
      right. exists n. split; [now apply (nodes_child t c)|].
      split; [exact Hk|]. now rewrite E.
Qed.

Lemma Get_final_keys (t : wildcardTrie V) q v pat :
  Get t q = Ok (v, pat) -> pat <> "" ->
  List.last (Split q (separator t)) "" = "" ->
  exists n,
    In n (nodes t) /\ value n = v /\ pattern n = pat
    /\ (key n = "" \/ key n = wildcard).
Proof.
  unfold Get. intros G Hp Hl.
  destruct (Split q (separator t)) as [|x0 tl]; [discriminate|].
  destruct (String.eqb x0 "").
  - injection G as G.
    destruct (get_final_keys tl x0 t Hl) as [K|(n & Hin & Hk & E)].
    + rewrite G in K. contradiction.
    + rewrite E in G. injection G as <- <-. now exists n.
  - injection G as G.
    destruct (first_match_cases (get x0 tl wildcard) (children t))
      as [E|(c & Hc & E & Hn)].
    + rewrite E in G. injection G as <- <-. contradiction.
    + destruct (get_final_keys tl x0 c Hl) as [K|(n & Hin & Hk & E')];
        [contradiction|].
      rewrite E, E' in G. injection G as <- <-.
      exists n. split; [now apply (nodes_child t c)|]. now repeat split.
Qed.

(** The keys of a path that ends with a separator of one byte. *)
Lemma path_keys_suffix (a : ascii) (q : string) :
  HasSuffix q (String a "") = true ->
  exists ks, path_keys q (String a "") = ks ++ [""].
Proof.
  intros H. apply HasSuffix_inv in H. destruct H as [q' ->].
  unfold path_keys. rewrite Split_nonempty_sep by discriminate.
  destruct (split_from_char_suffix a q') as (init & Hi & ->).
  destruct init as [|i0 init]; [contradiction|]. cbn [app].
  destruct (String.eqb i0 ""); [now exists init | now exists (i0 :: init)].
Qed.

End FinalSegment.

(** C10 (as amended). A lookup path that ends with the separator is not
    rejected: [Get] returns for every path, and with a separator of one
    byte the last segment of such a path is empty. When the keys of the
    path with the wildcard in the place of that last segment are the
    first route of its segments (no child listed before a node of the
    route gives a match for the segments that are left), [Get] returns
    the value and the pattern of the wildcard node at the end of the
    route; in a trie that [Add] built this is so when no child listed
    before a node of the route has the segment or the wildcard as its
    key. Whatever [Get] answers with a non-empty pattern for such a path
    comes from a node whose key is the wildcard or the empty string:
    a child whose key is neither does not match the empty last segment.
    So [Get("foo/")] is [(99, "/foo/*")] on the trie of the tests and
    after [Add("foo/*", 99)]. *)
Theorem C10_trailing_separator_lookup (V : Type) :
  (forall (t : wildcardTrie V) s, separator t <> "" -> exists r, Get t s = Ok r)
  /\ (forall (a : ascii) (s : string),
      HasSuffix s (String a "") = true ->
      List.last (Split s (String a "")) "" = ""
      /\ exists ks, path_keys s (String a "") = ks ++ [""])
  /\ (forall (t w : wildcardTrie V) q ks,
      separator t <> "" -> key t = "" ->
      path_keys q (separator t) = ks ++ [""] ->
      first_route (ks ++ [""]) (ks ++ [wildcard]) t = Some w ->
      pattern w <> "" ->
      key w = wildcard /\ Get t q = Ok (value w, pattern w))
  /\ (forall sep (ops : list (string * iface V)) q ks,
      let t := AddAll (newWildcardTrie sep) ops in
      sep <> "" ->
      path_keys q sep = ks ++ [""] ->
      clear_route (ks ++ [""]) (ks ++ [wildcard]) t = true ->
      exists w,
        node_at (ks ++ [wildcard]) t = Some w
        /\ key w = wildcard /\ pattern w <> ""
        /\ Get t q = Ok (value w, pattern w))
  /\ (forall (t : wildcardTrie V) q v pat,
      Get t q = Ok (v, pat) -> pat <> "" ->
      List.last (Split q (separator t)) "" = "" ->
      exists n,
        In n (nodes t) /\ value n = v /\ pattern n = pat
        /\ (key n = "" \/ key n = wildcard))
  /\ (forall c : wildcardTrie V,
      key c = wildcard -> get "" [] wildcard c = (value c, pattern c))
  /\ (forall c : wildcardTrie V,
      key c <> wildcard -> key c <> "" -> get "" [] wildcard c = (None, ""))
  /\ (forall (before behind : list (wildcardTrie V)) w,
      key w = wildcard -> pattern w <> "" ->
      (forall b, In b before -> key b <> "" /\ key b <> wildcard) ->
      first_match (get "" [] wildcard) (before ++ w :: behind)
      = (value w, pattern w))
  /\ Get Tests.basicTrie "foo/" = Ok (Tests.int 99, "/foo/*")
  /\ (forall v : iface V,
      Get (AddAll (newWildcardTrie "/") [("foo/*", v)]) "foo/"
      = Ok (v, "/foo/*")).
Proof.
  assert (A : forall c : wildcardTrie V,
      key c = wildcard -> get "" [] wildcard c = (value c, pattern c)).
  { intros c Hc. now rewrite get_matching by (now right). }
  assert (B : forall c : wildcardTrie V,
      key c <> wildcard -> key c <> "" -> get "" [] wildcard c = (None, "")).
  { intros c H1 H2. rewrite get_not_matching by congruence.
    destruct (String.eqb_spec (key c) ""); [contradiction|reflexivity]. }
  assert (C : forall (t w : wildcardTrie V) q ks,
      separator t <> "" -> key t = "" ->
      path_keys q (separator t) = ks ++ [""] ->
      first_route (ks ++ [""]) (ks ++ [wildcard]) t = Some w ->
      pattern w <> "" ->
      key w = wildcard /\ Get t q = Ok (value w, pattern w)).
  { intros t w q ks Hsep Hk Q R Hp. split.
    - apply node_at_key with ks t. now apply first_route_node with (ks ++ [""]).
    - apply Get_route with (ks ++ [wildcard]); try assumption;
        [now rewrite Q | intros _; exact Hp]. }
  repeat apply conj.
  - intros t s. apply Get_returns.
  - intros a s H. split; [now apply HasSuffix_last_empty|].
    now apply path_keys_suffix.
  - exact C.
  - intros sep ops q ks t Hsep Q Hc.
    destruct (AddAll_built sep Hsep ops) as (Hs & Hk & Hb).
    fold t in Hs, Hk, Hb.
    destruct (clear_first_route sep _ _ t Hb Hc) as [w R].
    pose proof (first_route_node _ _ _ _ R) as N.
    assert (P : pattern w <> "").
    { apply (built_pattern sep).
      apply (node_at_built sep (ks ++ [wildcard]) t); [exact Hb| |exact N].
      now destruct ks. }
    rewrite <- Hs in Q.
    destruct (C t w q ks ltac:(congruence) Hk Q R P) as [Kw G].
    now exists w.
  - intros t q v pat. apply Get_final_keys.
  - exact A.
  - exact B.
  - intros before behind w Hw Hp Hb.
    rewrite first_match_earliest.
    + now apply A.
    + intros b Hin. destruct (Hb b Hin) as [H1 H2]. now rewrite B.
    + now rewrite A.
  - reflexivity.
  - intros v. reflexivity.
Qed.

Lemma C10_trailing_separator_lookup_witness :
  let t := AddAll (newWildcardTrie "/")
             [("foo/bar", Some 3%Z); ("foo/*", Some 99%Z);
              ("*/x", Some 1%Z)] in
  (exists r, Get t "foo/bar/" = Ok r)
  /\ (List.last (Split "/foo/" "/") "" = ""
      /\ exists ks, path_keys "/foo/" "/" = ks ++ [""])
  /\ (exists w,
         node_at (["foo"] ++ [wildcard]) t = Some w
         /\ key w = wildcard /\ pattern w <> ""
         /\ Get t "/foo/" = Ok (value w, pattern w))
  /\ (exists n,
         In n (nodes t) /\ value n = Some 99%Z /\ pattern n = "/foo/*"
         /\ (key n = "" \/ key n = wildcard))
  /\ (clear_route ["foo"; "bla"; ""] ["foo"; "bla"; "*"] Tests.basicTrie
      = false
      /\ Get Tests.basicTrie "foo/bla/" = Ok (Tests.int 6, "/foo/bla/*"))
  /\ first_match (get "" [] wildcard)
       [mkTrie "/" "bar" "/foo/bar" (Some 3%Z) [];
        mkTrie "/" "*" "/foo/*" (Some 99%Z) []]
     = (Some 99%Z, "/foo/*").
Proof.
  pose proof (C10_trailing_separator_lookup Z)
    as (H1 & H2 & _ & H4 & H5 & _ & _ & H8 & _).
  pose proof (C10_trailing_separator_lookup Tests.val) as (_ & _ & H3 & _).
  repeat apply conj.
  - apply H1. discriminate.
  - apply (H2 "/"%char "/foo/"). reflexivity.
  - apply (H2 "/"%char "/foo/"). reflexivity.
  - apply (H4 "/" [("foo/bar", Some 3%Z); ("foo/*", Some 99%Z);
                   ("*/x", Some 1%Z)] "/foo/" ["foo"]).
    + discriminate.
    + reflexivity.
    + reflexivity.
  - apply (H5 (AddAll (newWildcardTrie "/")
                 [("foo/bar", Some 3%Z); ("foo/*", Some 99%Z);
                  ("*/x", Some 1%Z)]) "/foo/").
    + reflexivity.
    + discriminate.
    + reflexivity.
  - reflexivity.
  - apply (proj2
             (H3 Tests.basicTrie (Tests.leaf "*" "/foo/bla/*" (Tests.int 6))
                "foo/bla/" ["foo"; "bla"]
                ltac:(discriminate) eq_refl eq_refl eq_refl
                ltac:(discriminate))).
  - apply (H8 [mkTrie "/" "bar" "/foo/bar" (Some 3%Z) []] []
              (mkTrie "/" "*" "/foo/*" (Some 99%Z) [])).
    + reflexivity.
    + discriminate.
    + intros b [<-|[]]. split; discriminate.
Defined.

(** C10, the claim as stated fails. With "*/*" added before "foo/*",
    both by [Add], the trie has the wildcard child "/foo/*" with the
    value 99, and the path "foo/" is looked up in the children of the
    root in their order: the child "*", added first, gives a match, and
    [Get("foo/")] answers with its value 1 and its pattern "/*/*", not
    with those of "/foo/*". And a path that ends with the separator
    need not lead to a wildcard child at all: on the trie of the tests,
    and after [Add("foo/bar", 3)] and [Add("foo/*", 99)], the lookup of
    "foo/bar/" gives no match (case "node is not a leaf" of
    [TestWildcardTrie_Get]). *)
Lemma C10_counterexample :
  let t := AddAll (newWildcardTrie "/")
             [("*/*", Some 1%Z); ("foo/*", Some 99%Z)] in
  let u := AddAll (newWildcardTrie "/")
             [("foo/bar", Some 3%Z); ("foo/*", Some 99%Z)] in
  node_at ["foo"; "*"] t = Some (mkTrie "/" "*" "/foo/*" (Some 99%Z) [])
  /\ Get t "foo/" = Ok (Some 1%Z, "/*/*")
  /\ Get t "foo/" <> Ok (Some 99%Z, "/foo/*")
  /\ node_at ["foo"; "*"] u = Some (mkTrie "/" "*" "/foo/*" (Some 99%Z) [])
  /\ Get u "foo/bar/" = Ok (None, "")
  /\ Get Tests.basicTrie "foo/bar/" = Ok (None, "").
Proof. repeat split; try reflexivity; discriminate. Qed.
